(** * Frenet optimal planner: a shallow embedding of the planner core

    The embedding follows [frenet_optimal_trajectory_planner.cc] (search,
    validation, constraint and collision checks, obstacle prediction; its
    text follows the class declaration in
    [include/frenet_optimal_planner/quartic_polynomial.h]) and [spline.cc]
    (natural cubic spline).

    - a C++ [double] is an IEEE-754 binary64 value: Rocq's primitive [float];
    - an [int] is a [Z]; a [size_t] is a [Z] reduced modulo [2^64] where the
      source relies on unsigned arithmetic;
    - a [std::vector] is a [list]; an access outside the vector, which the
      source does not guard, is a [Fault];
    - functions of other translation units (libm, Eigen, tf2, the polynomial
      classes, the SAT checker) are the fields of [Extern]. *)

From Stdlib Require Import ZArith List Bool Lia Floats Sorted Permutation.
Import ListNotations.

(* ================================================================= *)
(** ** Doubles *)

Abbreviation double := float.

Module Double.

Local Open Scope float_scope.

(** [std::isnormal]: neither zero, subnormal, infinite nor NaN. *)
Definition isnormal (x : double) : bool :=
  match classify x with
  | PNormal | NNormal => true
  | _ => false
  end.

(** [std::isnan], [std::isinf], [std::isfinite]. *)
Definition isnan (x : double) : bool :=
  match classify x with NaN => true | _ => false end.

Definition isinf (x : double) : bool :=
  match classify x with PInf | NInf => true | _ => false end.

Definition isfinite (x : double) : bool := negb (isnan x) && negb (isinf x).

(** Zero or subnormal: the finite values that [isnormal] refuses. *)
Definition is_tiny (x : double) : bool :=
  match classify x with
  | PZero | NZero | PSubn | NSubn => true
  | _ => false
  end.

(** [a > b], [a >= b] as C++ writes them. *)
Definition gt (a b : double) : bool := b <? a.
Definition ge (a b : double) : bool := b <=? a.

(** [std::numeric_limits<double>::max()]. *)
Definition DBL_MAX : double := 0x1.fffffffffffffp+1023.

(** [std::pow(x, 2)]. *)
Definition pow2 (x : double) : double := x * x.

(** Conversion of an [int] to [double] (exact for 32-bit values). *)
Definition of_int (z : Z) : double :=
  if (z <? 0)%Z then - of_uint63 (Uint63.of_Z (- z)) else of_uint63 (Uint63.of_Z z).

(** Conversion of a [double] to [int]: truncation towards zero; [None]
    for NaN and infinities, where C++ leaves the result undefined. *)
Definition to_int (x : double) : option Z :=
  match Prim2SF x with
  | S754_zero _ => Some 0%Z
  | S754_finite s m e =>
      let a := match e with
               | Z0 => Zpos m
               | Zpos p => Z.shiftl (Zpos m) (Zpos p)
               | Zneg p => Z.shiftr (Zpos m) (Zpos p)
               end in
      Some (if s then (- a)%Z else a)
  | _ => None
  end.

End Double.

(* ================================================================= *)
(** ** Faults and the result monad *)

(** What the C++ program does where it has no defined result. *)
Inductive fault : Type :=
| out_of_bounds      (* operator[], back(): access outside the vector *)
| out_of_range       (* std::vector::at throws std::out_of_range *)
| uninitialized      (* read of a variable that was never assigned *)
| bad_conversion     (* double to int outside the range of int *)
| out_of_fuel.       (* the step budget of a loop of the model ran out *)

Inductive result (A : Type) : Type :=
| Ok (a : A)
| Fault (f : fault).

Arguments Ok {A} a.
Arguments Fault {A} f.

Definition bind {A B} (r : result A) (k : A -> result B) : result B :=
  match r with
  | Ok a => k a
  | Fault f => Fault f
  end.

Notation "x <- e ;; k" := (bind e (fun x => k))
  (at level 61, e at next level, right associativity).
Notation "' p <- e ;; k" := (bind e (fun p => k))
  (at level 61, p pattern, e at next level, right associativity).

Definition is_ok {A} (r : result A) : bool :=
  match r with Ok _ => true | Fault _ => false end.

(** [v[i]] with an [int] or [size_t] index. *)
Definition vec_get {A} (v : list A) (i : Z) : result A :=
  if (i <? 0)%Z then Fault out_of_bounds
  else match nth_error v (Z.to_nat i) with
       | Some a => Ok a
       | None => Fault out_of_bounds
       end.

(** [v.at(i)]. *)
Definition vec_at {A} (v : list A) (i : Z) : result A :=
  if (i <? 0)%Z then Fault out_of_range
  else match nth_error v (Z.to_nat i) with
       | Some a => Ok a
       | None => Fault out_of_range
       end.

(** [v.back()]. *)
Definition vec_back {A} (v : list A) : result A :=
  match v with
  | [] => Fault out_of_bounds
  | a :: v' => Ok (last v' a)
  end.

(** [v.size()] as a [size_t]. *)
Definition vec_size {A} (v : list A) : Z := Z.of_nat (length v).

(** Unsigned 64-bit wrap-around of [size_t] arithmetic. *)
Definition size_t_wrap (z : Z) : Z := (z mod 2 ^ 64)%Z.

(* ================================================================= *)
(** ** Data model *)

Local Open Scope float_scope.

(** [Setting]: the planner's configuration. *)
Module Setting.
Record t : Type := {
  max_speed : double;
  max_accel : double;
  max_decel : double;
  max_curvature : double;
  center_offset : double;
  num_width : Z;
  max_t : double;
  min_t : double;
  num_t : Z;
  tick_t : double;
  highest_speed : double;
  lowest_speed : double;
  num_speed : Z;
  vehicle_width : double;
  vehicle_length : double;
  safety_margin_lon : double;
  safety_margin_lat : double;
  k_jerk : double;
  k_time : double;
  k_diff : double;
  k_lat : double;
  k_lon : double
}.
End Setting.
Abbreviation Setting := Setting.t.

Module FrenetState.
Record t : Type := {
  T : double;
  s : double;
  s_d : double;
  s_dd : double;
  d : double;
  d_d : double;
  d_dd : double
}.
End FrenetState.
Abbreviation FrenetState := FrenetState.t.

(** [FrenetPath]: a candidate trajectory. *)
Module FrenetPath.
Record t : Type := {
  lane_id : Z;
  end_state : FrenetState;
  is_generated : bool;
  is_used : bool;
  constraint_passed : bool;
  collision_passed : bool;
  fix_cost : double;
  hur_cost : double;
  dyn_cost : double;
  final_cost : double;
  t_ : list double;
  s : list double;
  s_d : list double;
  s_dd : list double;
  s_ddd : list double;
  d : list double;
  d_d : list double;
  d_dd : list double;
  d_ddd : list double;
  x : list double;
  y : list double;
  yaw : list double;
  ds : list double;
  c : list double
}.
End FrenetPath.
Abbreviation FrenetPath := FrenetPath.t.

(** Modelled from the spec: the constructor
    [FrenetPath(lane_id, end_state, fix_cost, hur_cost)] of frenet.h, which
    is not among the sources. A path is "created in the sampling grid with
    only end-state and fix_cost/hur_cost"; its flags are clear and its
    vectors empty. *)
Definition FrenetPath_new (lane : Z) (e : FrenetState) (fixc hurc : double) : FrenetPath :=
  {| FrenetPath.lane_id := lane; FrenetPath.end_state := e;
     FrenetPath.is_generated := false; FrenetPath.is_used := false;
     FrenetPath.constraint_passed := false; FrenetPath.collision_passed := false;
     FrenetPath.fix_cost := fixc; FrenetPath.hur_cost := hurc;
     FrenetPath.dyn_cost := 0; FrenetPath.final_cost := 0;
     FrenetPath.t_ := []; FrenetPath.s := []; FrenetPath.s_d := [];
     FrenetPath.s_dd := []; FrenetPath.s_ddd := [];
     FrenetPath.d := []; FrenetPath.d_d := []; FrenetPath.d_dd := [];
     FrenetPath.d_ddd := [];
     FrenetPath.x := []; FrenetPath.y := []; FrenetPath.yaw := [];
     FrenetPath.ds := []; FrenetPath.c := [] |}.

(** The default-constructed [FrenetPath()] that [frenetOptimalPlanning]
    starts [best_traj] from. *)
Definition FrenetPath_default : FrenetPath :=
  FrenetPath_new 0
    {| FrenetState.T := 0; FrenetState.s := 0; FrenetState.s_d := 0;
       FrenetState.s_dd := 0; FrenetState.d := 0; FrenetState.d_d := 0;
       FrenetState.d_dd := 0 |} 0 0.

(** [Path]: a predicted obstacle trajectory. *)
Module Path.
Record t : Type := {
  x : list double;
  y : list double;
  yaw : list double;
  v : list double
}.
End Path.
Abbreviation Path := Path.t.

(** [autoware_msgs::DetectedObject], the fields the planner reads. *)
Module DetectedObject.
Record t : Type := {
  position_x : double;
  position_y : double;
  orientation_x : double;
  orientation_y : double;
  orientation_z : double;
  orientation_w : double;
  linear_x : double;
  linear_y : double;
  linear_z : double;
  dimensions_x : double;
  dimensions_y : double
}.
End DetectedObject.
Abbreviation DetectedObject := DetectedObject.t.

(** A polynomial of [QuinticPolynomial] or [QuarticPolynomial], as its four
    evaluation methods. *)
Record Polynomial : Type := {
  calculatePoint : double -> double;
  calculateFirstDerivative : double -> double;
  calculateSecondDerivative : double -> double;
  calculateThirdDerivative : double -> double
}.

Definition Polygon : Type := list (double * double).

(** Dense matrices of Eigen, row by row. *)
Definition MatrixXd : Type := list (list double).

(** Functions the planner calls and the sources do not define. *)
Record Extern : Type := {
  (* libm *)
  cos : double -> double;
  sin : double -> double;
  atan2 : double -> double -> double;
  (* math_utils.h *)
  unifyAngleRange : double -> double;
  cmp_doubles_greater_or_equal : double -> double -> bool;
  (* tf2: the yaw of [Matrix3x3(q.normalize()).getRPY] for q = (x, y, z, w) *)
  getRPY_yaw : double -> double -> double -> double -> double;
  (* quintic_polynomial.cc, quartic_polynomial.cc *)
  QuinticPolynomial : FrenetState -> FrenetState -> Polynomial;
  QuarticPolynomial : FrenetState -> FrenetState -> Polynomial;
  (* Eigen: the storage of a fresh [MatrixXd(rows, cols)], [A.inverse()],
     and the product of two matrices *)
  MatrixXd_fresh : Z -> Z -> MatrixXd;
  inverse : MatrixXd -> MatrixXd;
  matmul : MatrixXd -> MatrixXd -> MatrixXd;
  (* sat_collision_checker.cc *)
  construct_rectangle :
    double -> double -> double -> double -> double -> double -> double -> Polygon;
  check_collision : Polygon -> Polygon -> bool;
  (* vehicle.h *)
  Lr : double
}.

(** [M_PI]. *)
Definition M_PI : double := 0x1.921fb54442d18p+1.

(** Modelled from the spec: [isLegal] of math_utils.h, which is not among
    the sources: "if either coordinate is non-finite, truncate the
    trajectory there". *)
Definition isLegal (v : double) : bool := Double.isfinite v.

(** Modelled from the spec: [magnitude] of math_utils.h, which is not among
    the sources: "v = sqrt(vx^2 + vy^2 + vz^2)". *)
Definition magnitude (vx vy vz : double) : double :=
  sqrt (vx * vx + vy * vy + vz * vz).

(** [for (int i = 0; i < n; i++)]: the values [i] takes. *)
Definition int_range (n : Z) : list Z := map Z.of_nat (seq 0 (Z.to_nat n)).

(** [for (int i = i0; i < bound; i++) body], [bound] being a [size_t].
    Every such loop of the sources reads a vector at an index that grows
    with [i], so a run that is longer than the vector ends in a fault;
    [fuel] bounds the iterations the model follows. *)
Fixpoint for_loop {S : Type} (fuel : nat) (i bound : Z)
  (body : Z -> S -> result S) (st : S) : result S :=
  if (i <? bound)%Z then
    match fuel with
    | O => Fault out_of_fuel
    | Datatypes.S fuel' => st' <- body i st ;; for_loop fuel' (i + 1) bound body st'
    end
  else Ok st.

(** [v[i] = a] on a nested vector: the vector with its [i]-th element
    replaced (the sources write only where they have read). *)
Fixpoint vec_set {A} (v : list A) (i : nat) (a : A) : list A :=
  match v, i with
  | [], _ => []
  | _ :: v', O => a :: v'
  | b :: v', Datatypes.S i' => b :: vec_set v' i' a
  end.

(* ================================================================= *)
(** ** Setters of [FrenetPath] *)

Definition set_is_used (p : FrenetPath) (b : bool) : FrenetPath :=
  {| FrenetPath.lane_id := FrenetPath.lane_id p;
     FrenetPath.end_state := FrenetPath.end_state p;
     FrenetPath.is_generated := FrenetPath.is_generated p;
     FrenetPath.is_used := b;
     FrenetPath.constraint_passed := FrenetPath.constraint_passed p;
     FrenetPath.collision_passed := FrenetPath.collision_passed p;
     FrenetPath.fix_cost := FrenetPath.fix_cost p;
     FrenetPath.hur_cost := FrenetPath.hur_cost p;
     FrenetPath.dyn_cost := FrenetPath.dyn_cost p;
     FrenetPath.final_cost := FrenetPath.final_cost p;
     FrenetPath.t_ := FrenetPath.t_ p;
     FrenetPath.s := FrenetPath.s p;
     FrenetPath.s_d := FrenetPath.s_d p;
     FrenetPath.s_dd := FrenetPath.s_dd p;
     FrenetPath.s_ddd := FrenetPath.s_ddd p;
     FrenetPath.d := FrenetPath.d p;
     FrenetPath.d_d := FrenetPath.d_d p;
     FrenetPath.d_dd := FrenetPath.d_dd p;
     FrenetPath.d_ddd := FrenetPath.d_ddd p;
     FrenetPath.x := FrenetPath.x p;
     FrenetPath.y := FrenetPath.y p;
     FrenetPath.yaw := FrenetPath.yaw p;
     FrenetPath.ds := FrenetPath.ds p;
     FrenetPath.c := FrenetPath.c p |}.

Definition set_constraint_passed (p : FrenetPath) (b : bool) : FrenetPath :=
  {| FrenetPath.lane_id := FrenetPath.lane_id p;
     FrenetPath.end_state := FrenetPath.end_state p;
     FrenetPath.is_generated := FrenetPath.is_generated p;
     FrenetPath.is_used := FrenetPath.is_used p;
     FrenetPath.constraint_passed := b;
     FrenetPath.collision_passed := FrenetPath.collision_passed p;
     FrenetPath.fix_cost := FrenetPath.fix_cost p;
     FrenetPath.hur_cost := FrenetPath.hur_cost p;
     FrenetPath.dyn_cost := FrenetPath.dyn_cost p;
     FrenetPath.final_cost := FrenetPath.final_cost p;
     FrenetPath.t_ := FrenetPath.t_ p;
     FrenetPath.s := FrenetPath.s p;
     FrenetPath.s_d := FrenetPath.s_d p;
     FrenetPath.s_dd := FrenetPath.s_dd p;
     FrenetPath.s_ddd := FrenetPath.s_ddd p;
     FrenetPath.d := FrenetPath.d p;
     FrenetPath.d_d := FrenetPath.d_d p;
     FrenetPath.d_dd := FrenetPath.d_dd p;
     FrenetPath.d_ddd := FrenetPath.d_ddd p;
     FrenetPath.x := FrenetPath.x p;
     FrenetPath.y := FrenetPath.y p;
     FrenetPath.yaw := FrenetPath.yaw p;
     FrenetPath.ds := FrenetPath.ds p;
     FrenetPath.c := FrenetPath.c p |}.

Definition set_collision_passed (p : FrenetPath) (b : bool) : FrenetPath :=
  {| FrenetPath.lane_id := FrenetPath.lane_id p;
     FrenetPath.end_state := FrenetPath.end_state p;
     FrenetPath.is_generated := FrenetPath.is_generated p;
     FrenetPath.is_used := FrenetPath.is_used p;
     FrenetPath.constraint_passed := FrenetPath.constraint_passed p;
     FrenetPath.collision_passed := b;
     FrenetPath.fix_cost := FrenetPath.fix_cost p;
     FrenetPath.hur_cost := FrenetPath.hur_cost p;
     FrenetPath.dyn_cost := FrenetPath.dyn_cost p;
     FrenetPath.final_cost := FrenetPath.final_cost p;
     FrenetPath.t_ := FrenetPath.t_ p;
     FrenetPath.s := FrenetPath.s p;
     FrenetPath.s_d := FrenetPath.s_d p;
     FrenetPath.s_dd := FrenetPath.s_dd p;
     FrenetPath.s_ddd := FrenetPath.s_ddd p;
     FrenetPath.d := FrenetPath.d p;
     FrenetPath.d_d := FrenetPath.d_d p;
     FrenetPath.d_dd := FrenetPath.d_dd p;
     FrenetPath.d_ddd := FrenetPath.d_ddd p;
     FrenetPath.x := FrenetPath.x p;
     FrenetPath.y := FrenetPath.y p;
     FrenetPath.yaw := FrenetPath.yaw p;
     FrenetPath.ds := FrenetPath.ds p;
     FrenetPath.c := FrenetPath.c p |}.

(** The writes of [getTrajAndRealCost] to one cell: the flag, the sampled
    lateral and longitudinal profiles, and the two costs. *)
Definition set_generated (p : FrenetPath)
  (t_ d d_d d_dd d_ddd s s_d s_dd s_ddd : list double) (dyn final : double) : FrenetPath :=
  {| FrenetPath.lane_id := FrenetPath.lane_id p;
     FrenetPath.end_state := FrenetPath.end_state p;
     FrenetPath.is_generated := true;
     FrenetPath.is_used := FrenetPath.is_used p;
     FrenetPath.constraint_passed := FrenetPath.constraint_passed p;
     FrenetPath.collision_passed := FrenetPath.collision_passed p;
     FrenetPath.fix_cost := FrenetPath.fix_cost p;
     FrenetPath.hur_cost := FrenetPath.hur_cost p;
     FrenetPath.dyn_cost := dyn;
     FrenetPath.final_cost := final;
     FrenetPath.t_ := t_;
     FrenetPath.s := s;
     FrenetPath.s_d := s_d;
     FrenetPath.s_dd := s_dd;
     FrenetPath.s_ddd := s_ddd;
     FrenetPath.d := d;
     FrenetPath.d_d := d_d;
     FrenetPath.d_dd := d_dd;
     FrenetPath.d_ddd := d_ddd;
     FrenetPath.x := FrenetPath.x p;
     FrenetPath.y := FrenetPath.y p;
     FrenetPath.yaw := FrenetPath.yaw p;
     FrenetPath.ds := FrenetPath.ds p;
     FrenetPath.c := FrenetPath.c p |}.

(** The writes of [convertToGlobalFrame]. *)
Definition set_global (p : FrenetPath) (x y yaw ds c : list double) : FrenetPath :=
  {| FrenetPath.lane_id := FrenetPath.lane_id p;
     FrenetPath.end_state := FrenetPath.end_state p;
     FrenetPath.is_generated := FrenetPath.is_generated p;
     FrenetPath.is_used := FrenetPath.is_used p;
     FrenetPath.constraint_passed := FrenetPath.constraint_passed p;
     FrenetPath.collision_passed := FrenetPath.collision_passed p;
     FrenetPath.fix_cost := FrenetPath.fix_cost p;
     FrenetPath.hur_cost := FrenetPath.hur_cost p;
     FrenetPath.dyn_cost := FrenetPath.dyn_cost p;
     FrenetPath.final_cost := FrenetPath.final_cost p;
     FrenetPath.t_ := FrenetPath.t_ p;
     FrenetPath.s := FrenetPath.s p;
     FrenetPath.s_d := FrenetPath.s_d p;
     FrenetPath.s_dd := FrenetPath.s_dd p;
     FrenetPath.s_ddd := FrenetPath.s_ddd p;
     FrenetPath.d := FrenetPath.d p;
     FrenetPath.d_d := FrenetPath.d_d p;
     FrenetPath.d_dd := FrenetPath.d_dd p;
     FrenetPath.d_ddd := FrenetPath.d_ddd p;
     FrenetPath.x := x;
     FrenetPath.y := y;
     FrenetPath.yaw := yaw;
     FrenetPath.ds := ds;
     FrenetPath.c := c |}.

(* ================================================================= *)
(** ** spline.cc *)

Module Spline.
Record t : Type := {
  x_ : list double;
  y_ : list double;
  num_x_ : Z;
  a_ : list double;
  b_ : list double;
  c_ : list double;
  d_ : list double
}.
End Spline.
Abbreviation Spline := Spline.t.

Module VehicleState.
Record t : Type := { x : double; y : double }.
End VehicleState.
Abbreviation VehicleState := VehicleState.t.

Module Spline2D.
Record t : Type := {
  s_ : list double;
  sx_ : Spline;
  sy_ : Spline
}.
End Spline2D.
Abbreviation Spline2D := Spline2D.t.

(** [Map], the reference waypoints. *)
Module Map.
Record t : Type := { x : list double; y : list double }.
End Map.
Abbreviation Map := Map.t.

Section SplineCode.

Variable E : Extern.

(** [Spline::calculateMatrixA]: filled only when [num_x_ == 5]. *)
Definition calculateMatrixA (num_x_ : Z) (h : list double) : result MatrixXd :=
  let A := MatrixXd_fresh E num_x_ num_x_ in
  if (num_x_ =? 5)%Z then
    h0 <- vec_get h 0 ;; h1 <- vec_get h 1 ;;
    h2 <- vec_get h 2 ;; h3 <- vec_get h 3 ;;
    Ok [ [1; 0; 0; 0; 0];
         [h0; 2 * (h0 + h1); h1; 0; 0];
         [0; h1; 2 * (h1 + h2); h2; 0];
         [0; 0; h2; 2 * (h2 + h3); h3];
         [0; 0; 0; 0; 1] ]
  else Ok A.

(** [Spline::calculateMatrixB]. *)
Definition calculateMatrixB (num_x_ : Z) (a_ h : list double) : result MatrixXd :=
  let B := MatrixXd_fresh E num_x_ 1 in
  if (num_x_ =? 5)%Z then
    a0 <- vec_get a_ 0 ;; a1 <- vec_get a_ 1 ;; a2 <- vec_get a_ 2 ;;
    a3 <- vec_get a_ 3 ;; a4 <- vec_get a_ 4 ;;
    h0 <- vec_get h 0 ;; h1 <- vec_get h 1 ;;
    h2 <- vec_get h 2 ;; h3 <- vec_get h 3 ;;
    Ok [ [0];
         [3 * (a2 - a1) / h1 - 3 * (a1 - a0) / h0];
         [3 * (a3 - a2) / h2 - 3 * (a2 - a1) / h1];
         [3 * (a4 - a3) / h3 - 3 * (a3 - a2) / h2];
         [0] ]
  else Ok B.

(** The first loop of the constructor: [h[i] = x[i+1] - x[i]]. *)
Definition spline_h (x : list double) : result (list double) :=
  for_loop (Datatypes.S (length x)) 0 (size_t_wrap (vec_size x - 1))
    (fun i h =>
       x1 <- vec_at x (i + 1) ;; x0 <- vec_at x i ;;
       Ok (h ++ [x1 - x0]))
    [].

(** The last loop of the constructor: the coefficients [d] and [b]. *)
Definition spline_db (num_x_ : Z) (a_ c_ h : list double)
  : result (list double * list double) :=
  for_loop (Datatypes.S (length c_)) 0 (num_x_ - 1)
    (fun i '(d_, b_) =>
       c1 <- vec_at c_ (i + 1) ;; c0 <- vec_at c_ i ;; hi <- vec_at h i ;;
       a1 <- vec_at a_ (i + 1) ;; a0 <- vec_at a_ i ;;
       Ok (d_ ++ [(c1 - c0) / (3 * hi)],
           b_ ++ [(a1 - a0) / hi - hi * (c1 + 2 * c0) / 3]))
    ([], []).

(** [Spline::Spline]. *)
Definition Spline_new (x y : list double) : result Spline :=
  let num_x_ := vec_size x in
  h <- spline_h x ;;
  let a_ := y in
  A <- calculateMatrixA num_x_ h ;;
  B <- calculateMatrixB num_x_ a_ h ;;
  let Ai := inverse E A in
  let C := matmul E Ai B in
  let c_ := concat C in
  '(d_, b_) <- spline_db num_x_ a_ c_ h ;;
  Ok {| Spline.x_ := x; Spline.y_ := y; Spline.num_x_ := num_x_;
        Spline.a_ := a_; Spline.b_ := b_; Spline.c_ := c_; Spline.d_ := d_ |}.

(** [Spline::searchIndex]: the last [i] with [x >= x_[i]], or [0]. *)
Definition searchIndex (sp : Spline) (x : double) : result Z :=
  fold_left
    (fun acc i =>
       index <- acc ;;
       xi <- vec_at (Spline.x_ sp) i ;;
       Ok (if cmp_doubles_greater_or_equal E x xi then i else index))
    (int_range (vec_size (Spline.x_ sp)))
    (Ok 0%Z).

(** The guard shared by the three evaluation methods: [Some 0.0] when [t]
    is below the first knot or above the last. *)
Definition outside (sp : Spline) (t : double) : result bool :=
  x0 <- vec_at (Spline.x_ sp) 0 ;;
  if t <? x0 then Ok true
  else xn <- vec_back (Spline.x_ sp) ;; Ok (xn <? t).

(** [Spline::calculatePoint]. *)
Definition Spline_calculatePoint (sp : Spline) (t : double) : result double :=
  out <- outside sp t ;;
  if out then Ok 0
  else
    i <- searchIndex sp t ;;
    xi <- vec_at (Spline.x_ sp) i ;;
    let dx := t - xi in
    a <- vec_at (Spline.a_ sp) i ;; b <- vec_at (Spline.b_ sp) i ;;
    c <- vec_at (Spline.c_ sp) i ;; d <- vec_at (Spline.d_ sp) i ;;
    Ok (a + b * dx + c * dx * dx + d * dx * dx * dx).

(** [Spline::calculateFirstDerivative]. *)
Definition Spline_calculateFirstDerivative (sp : Spline) (t : double) : result double :=
  out <- outside sp t ;;
  if out then Ok 0
  else
    i <- searchIndex sp t ;;
    xi <- vec_at (Spline.x_ sp) i ;;
    let dx := t - xi in
    b <- vec_at (Spline.b_ sp) i ;; c <- vec_at (Spline.c_ sp) i ;;
    d <- vec_at (Spline.d_ sp) i ;;
    Ok (b + 2 * c * dx + 3 * d * dx * dx).

(** [Spline::calculateSecondDerivative]. *)
Definition Spline_calculateSecondDerivative (sp : Spline) (t : double) : result double :=
  out <- outside sp t ;;
  if out then Ok 0
  else
    i <- searchIndex sp t ;;
    xi <- vec_at (Spline.x_ sp) i ;;
    let dx := t - xi in
    c <- vec_at (Spline.c_ sp) i ;; d <- vec_at (Spline.d_ sp) i ;;
    Ok (2 * c + 6 * d * dx).

(** [Spline2D::calculate_s]: cumulative distances between waypoints. *)
Definition calculate_s (ref_wps : Map) : result (list double) :=
  let wx := Map.x ref_wps in
  let wy := Map.y ref_wps in
  '(dx, dy) <- for_loop (Datatypes.S (length wx)) 0 (size_t_wrap (vec_size wx - 1))
      (fun i '(dx, dy) =>
         x1 <- vec_at wx (i + 1) ;; x0 <- vec_at wx i ;;
         y1 <- vec_at wy (i + 1) ;; y0 <- vec_at wy i ;;
         Ok (dx ++ [x1 - x0], dy ++ [y1 - y0]))
      ([], []) ;;
  ds <- fold_left
      (fun acc i =>
         ds <- acc ;;
         dxi <- vec_at dx i ;; dyi <- vec_at dy i ;;
         Ok (ds ++ [sqrt (dxi * dxi + dyi * dyi)]))
      (int_range (vec_size dx)) (Ok []) ;;
  fold_left
    (fun acc i =>
       s <- acc ;;
       si <- vec_at s i ;; dsi <- vec_at ds i ;;
       Ok (s ++ [si + dsi]))
    (int_range (vec_size ds)) (Ok [0]).

(** [Spline2D::Spline2D]. *)
Definition Spline2D_new (ref_wps : Map) : result Spline2D :=
  s_ <- calculate_s ref_wps ;;
  sx_ <- Spline_new s_ (Map.x ref_wps) ;;
  sy_ <- Spline_new s_ (Map.y ref_wps) ;;
  Ok {| Spline2D.s_ := s_; Spline2D.sx_ := sx_; Spline2D.sy_ := sy_ |}.

(** [Spline2D::calculatePosition]. *)
Definition calculatePosition (sp : Spline2D) (s : double) : result VehicleState :=
  x <- Spline_calculatePoint (Spline2D.sx_ sp) s ;;
  y <- Spline_calculatePoint (Spline2D.sy_ sp) s ;;
  Ok {| VehicleState.x := x; VehicleState.y := y |}.

(** [Spline2D::calculateYaw]. *)
Definition calculateYaw (sp : Spline2D) (s : double) : result double :=
  dx <- Spline_calculateFirstDerivative (Spline2D.sx_ sp) s ;;
  dy <- Spline_calculateFirstDerivative (Spline2D.sy_ sp) s ;;
  Ok (atan2 E dy dx).

End SplineCode.

(* ================================================================= *)
(** ** frenet_optimal_trajectory_planner.cc *)

Definition Grid : Type := list (list (list FrenetPath)).
Definition Vector3i : Type := (Z * Z * Z)%type.
Definition Vector3d : Type := (double * double * double)%type.

(** [trajs[i][j][k]]. *)
Definition grid_get (g : Grid) (idx : Vector3i) : result FrenetPath :=
  let '(i, j, k) := idx in
  g_i <- vec_get g i ;; g_ij <- vec_get g_i j ;; vec_get g_ij k.

(** [trajs[i][j][k] = p], after [trajs[i][j][k]] has been read. *)
Definition grid_set (g : Grid) (idx : Vector3i) (p : FrenetPath) : Grid :=
  let '(i, j, k) := idx in
  match nth_error g (Z.to_nat i) with
  | Some g_i =>
      match nth_error g_i (Z.to_nat j) with
      | Some g_ij =>
          vec_set g (Z.to_nat i) (vec_set g_i (Z.to_nat j) (vec_set g_ij (Z.to_nat k) p))
      | None => g
      end
  | None => g
  end.

(** Component [dim] of an Eigen vector of three. *)
Definition vec3_get {A} (v : A * A * A) (dim : Z) : A :=
  let '(a, b, c) := v in
  if (dim =? 0)%Z then a else if (dim =? 1)%Z then b else c.

Definition vec3_set {A} (v : A * A * A) (dim : Z) (n : A) : A * A * A :=
  let '(a, b, c) := v in
  if (dim =? 0)%Z then (n, b, c) else if (dim =? 1)%Z then (a, n, c) else (a, b, n).

(** Modelled from the spec: [candidate_trajs_], the [std::priority_queue]
    of [FrenetPath] declared in frenet_optimal_trajectory_planner.h with the
    comparison of frenet.h, neither among the sources: "a min-heap ordered
    by [final_cost]". The queue is the multiset of what was pushed;
    [top] is an element no other element is cheaper than, found by a scan. *)
Definition PriorityQueue : Type := list FrenetPath.

Definition pq_push (p : FrenetPath) (q : PriorityQueue) : PriorityQueue := p :: q.

(** The cheapest of [p :: q], and the others. *)
Fixpoint pq_extract (p : FrenetPath) (q : PriorityQueue) : FrenetPath * PriorityQueue :=
  match q with
  | [] => (p, [])
  | p' :: q' =>
      let '(m, r) := pq_extract p' q' in
      if FrenetPath.final_cost m <? FrenetPath.final_cost p
      then (m, p :: r) else (p, m :: r)
  end.

(** [top()] followed by [pop()]; [None] on an empty queue. *)
Definition pq_pop (q : PriorityQueue) : option (FrenetPath * PriorityQueue) :=
  match q with
  | [] => None
  | p :: q' => Some (pq_extract p q')
  end.

(** What the search reads and writes: the grid, the candidate queue and
    the counter of generated trajectories. *)
Module Search.
Record t : Type := {
  trajs : Grid;
  candidate_trajs_ : PriorityQueue;
  num_traj : Z
}.
End Search.
Abbreviation Search := Search.t.

(** What the validation loop of [frenetOptimalPlanning] reads and writes.
    [popped] lists the candidates in the order [top()] returned them. *)
Module Validation.
Record t : Type := {
  popped : list FrenetPath;
  best_traj : option FrenetPath;
  candidate_trajs_ : PriorityQueue;
  num_trajs_validated : Z;
  num_collision_checks : Z
}.
End Validation.
Abbreviation Validation := Validation.t.

(** What one call of [frenetOptimalPlanning] returns and leaves behind. *)
Module Planning.
Record t : Type := {
  result_ : list FrenetPath;
  trajs_3d : Grid;
  num_iter : Z;
  num_trajs_generated : Z;
  validation : Validation
}.
End Planning.
Abbreviation Planning := Planning.t.

(** [for (double t = 0.0; t <= T; t += tick_t)]: the values [t] takes.
    The loop of the source does not end when [t + tick_t] does not grow
    past [T]; [fuel] bounds the iterations the model follows. *)
Fixpoint time_ticks (fuel : nat) (T tick t : double) : result (list double) :=
  if t <=? T then
    match fuel with
    | O => Fault out_of_fuel
    | S fuel' => r <- time_ticks fuel' T tick (t + tick) ;; Ok (t :: r)
    end
  else Ok [].

(** [jerk += std::pow(v.back(), 2)] over the values pushed by one loop. *)
Definition jerk_sum (v : list double) : double :=
  fold_left (fun acc j => acc + Double.pow2 j) v 0.

Section PlannerCode.

Variable E : Extern.
Variable settings_ : Setting.

(** Bound on the iterations of each [double]-counted or [while] loop. *)
Variable fuel : nat.

(* ----------------------------------------------------------------- *)
(** *** checkConstraints *)

Fixpoint checkConstraints_loop (traj : FrenetPath) (ticks : list Z) : result bool :=
  match ticks with
  | [] => Ok true
  | i :: ticks' =>
      xi <- vec_get (FrenetPath.x traj) i ;;
      illegal <- (if Double.isnormal xi
                  then yi <- vec_get (FrenetPath.y traj) i ;; Ok (negb (Double.isnormal yi))
                  else Ok true) ;;
      if illegal : bool then Ok false
      else
        sd <- vec_get (FrenetPath.s_d traj) i ;;
        if Double.gt sd (Setting.max_speed settings_) then Ok false
        else
          sdd <- vec_get (FrenetPath.s_dd traj) i ;;
          if Double.gt sdd (Setting.max_accel settings_)
             || (sdd <? Setting.max_decel settings_)
          then Ok false
          else
            ci <- vec_get (FrenetPath.c traj) i ;;
            if Double.gt (abs ci) (Setting.max_curvature settings_) then Ok false
            else checkConstraints_loop traj ticks'
  end.

(** [checkConstraints]: the verdict and the trajectory with the verdict
    stored in [constraint_passed]. *)
Definition checkConstraints (traj : FrenetPath) : result (bool * FrenetPath) :=
  passed <- checkConstraints_loop traj (int_range (vec_size (FrenetPath.c traj))) ;;
  Ok (passed, set_constraint_passed traj passed).

(* ----------------------------------------------------------------- *)
(** *** predictTrajectories *)

(** [const int steps = settings_.max_t/settings_.tick_t]. *)
Definition prediction_steps : result Z :=
  match Double.to_int (Setting.max_t settings_ / Setting.tick_t settings_) with
  | Some z => if ((- 2 ^ 31 <=? z) && (z <? 2 ^ 31))%Z then Ok z else Fault bad_conversion
  | None => Fault bad_conversion
  end.

(** The body of [for (size_t i = 0; i < steps; i++)], [n] times. *)
Fixpoint predict_loop (n : nat) (yaw v : double) (traj : Path) : result Path :=
  match n with
  | O => Ok traj
  | S n' =>
      xb <- vec_back (Path.x traj) ;;
      let x1 := Path.x traj ++ [xb + v * Setting.tick_t settings_ * cos E yaw] in
      yb <- vec_back (Path.y traj) ;;
      let x2 := x1 ++ [yb + v * Setting.tick_t settings_ * sin E yaw] in
      predict_loop n' yaw v
        {| Path.x := x2; Path.y := Path.y traj;
           Path.yaw := Path.yaw traj ++ [yaw]; Path.v := Path.v traj ++ [v] |}
  end.

(** The trajectory predicted for one obstacle. *)
Definition predictTrajectory (obstacle : DetectedObject) : result Path :=
  let yaw := getRPY_yaw E (DetectedObject.orientation_x obstacle)
               (DetectedObject.orientation_y obstacle)
               (DetectedObject.orientation_z obstacle)
               (DetectedObject.orientation_w obstacle) in
  let v := magnitude (DetectedObject.linear_x obstacle)
             (DetectedObject.linear_y obstacle) (DetectedObject.linear_z obstacle) in
  steps <- prediction_steps ;;
  predict_loop (Z.to_nat (size_t_wrap steps)) yaw v
    {| Path.x := [DetectedObject.position_x obstacle];
       Path.y := [DetectedObject.position_y obstacle];
       Path.yaw := [yaw]; Path.v := [v] |}.

(** [predictTrajectories]. *)
Fixpoint predictTrajectories (obstacles : list DetectedObject) : result (list Path) :=
  match obstacles with
  | [] => Ok []
  | obstacle :: rest =>
      traj <- predictTrajectory obstacle ;;
      trajs <- predictTrajectories rest ;;
      Ok (traj :: trajs)
  end.

(* ----------------------------------------------------------------- *)
(** *** checkTrajCollision, checkCollisions *)

(** The inner loop of [checkTrajCollision] for obstacle [i]: [None] when
    no tick collides, [Some n] when the check that brought the counter to
    [n] found a collision. *)
Fixpoint collision_ticks (ego_traj : FrenetPath) (obstacle_trajs : list Path)
  (obstacles : list DetectedObject) (margin_lon margin_lat : double)
  (i : Z) (js : list Z) (num_checks : Z) : result (bool * Z) :=
  match js with
  | [] => Ok (true, num_checks)
  | j :: js' =>
      let num_checks := (num_checks + 1)%Z in
      xj <- vec_get (FrenetPath.x ego_traj) j ;;
      yawj <- vec_get (FrenetPath.yaw ego_traj) j ;;
      let vehicle_center_x := xj + Lr E * cos E yawj in
      yj <- vec_get (FrenetPath.y ego_traj) j ;;
      let vehicle_center_y := yj + Lr E * sin E yawj in
      let ego_rect :=
        construct_rectangle E vehicle_center_x vehicle_center_y yawj
          (Setting.vehicle_length settings_) (Setting.vehicle_width settings_) 0 0 in
      otraj <- vec_get obstacle_trajs i ;;
      ox <- vec_get (Path.x otraj) j ;;
      oy <- vec_get (Path.y otraj) j ;;
      oyaw <- vec_get (Path.yaw otraj) j ;;
      obstacle <- vec_get obstacles i ;;
      let obstacle_rect :=
        construct_rectangle E ox oy oyaw
          (DetectedObject.dimensions_x obstacle) (DetectedObject.dimensions_y obstacle)
          margin_lon margin_lat in
      if check_collision E ego_rect obstacle_rect then Ok (false, num_checks)
      else collision_ticks ego_traj obstacle_trajs obstacles margin_lon margin_lat
             i js' num_checks
  end.

(** The outer loop of [checkTrajCollision], over the obstacles. *)
Fixpoint collision_obstacles (ego_traj : FrenetPath) (obstacle_trajs : list Path)
  (obstacles : list DetectedObject) (margin_lon margin_lat : double)
  (indices : list Z) (num_checks : Z) : result (bool * Z) :=
  match indices with
  | [] => Ok (true, num_checks)
  | i :: indices' =>
      let num_steps := vec_size (FrenetPath.x ego_traj) in
      '(clear, num_checks) <-
        collision_ticks ego_traj obstacle_trajs obstacles margin_lon margin_lat
          i (int_range num_steps) num_checks ;;
      if clear : bool
      then collision_obstacles ego_traj obstacle_trajs obstacles margin_lon margin_lat
             indices' num_checks
      else Ok (false, num_checks)
  end.

(** [checkTrajCollision]: [(false, n)] at the first collision, else
    [(true, n)], [n] counting the pairs of rectangles compared. *)
Definition checkTrajCollision (ego_traj : FrenetPath) (obstacle_trajs : list Path)
  (obstacles : list DetectedObject) (margin_lon margin_lat : double) : result (bool * Z) :=
  collision_obstacles ego_traj obstacle_trajs obstacles margin_lon margin_lat
    (int_range (vec_size obstacles)) 0.

(** [checkCollisions]: with [use_async] the same call runs as one
    [std::async] task that is joined at once. *)
Definition checkCollisions (ego_traj : FrenetPath) (obstacle_trajs : list Path)
  (obstacles : list DetectedObject) (use_async : bool) (num_checks : Z)
  : result (bool * FrenetPath * Z) :=
  '(passed, n) <-
    (if use_async
     then (* collision_check.get() *)
       checkTrajCollision ego_traj obstacle_trajs obstacles
         (Setting.safety_margin_lon settings_) (Setting.safety_margin_lat settings_)
     else
       checkTrajCollision ego_traj obstacle_trajs obstacles
         (Setting.safety_margin_lon settings_) (Setting.safety_margin_lat settings_)) ;;
  Ok (passed, set_collision_passed ego_traj passed, (num_checks + n)%Z).

(* ----------------------------------------------------------------- *)
(** *** convertToGlobalFrame *)

(** The first loop: global positions, until the first illegal one. *)
Fixpoint global_positions (traj : FrenetPath) (cubic_spline : Spline2D)
  (js : list Z) (x y : list double) : result (list double * list double) :=
  match js with
  | [] => Ok (x, y)
  | j :: js' =>
      sj <- vec_get (FrenetPath.s traj) j ;;
      state <- calculatePosition E cubic_spline sj ;;
      i_yaw <- calculateYaw E cubic_spline sj ;;
      di <- vec_get (FrenetPath.d traj) j ;;
      let frenet_x := VehicleState.x state + di * cos E (i_yaw + M_PI / 2) in
      let frenet_y := VehicleState.y state + di * sin E (i_yaw + M_PI / 2) in
      if negb (isLegal frenet_x) || negb (isLegal frenet_y) then Ok (x, y)
      else global_positions traj cubic_spline js' (x ++ [frenet_x]) (y ++ [frenet_y])
  end.

(** The second loop: yaw and ds from forward differences. *)
Definition global_yaw_ds (x y yaw ds : list double) : result (list double * list double) :=
  for_loop (S (length x)) 0 (size_t_wrap (vec_size x - 1))
    (fun j '(yaw, ds) =>
       x1 <- vec_get x (j + 1) ;; x0 <- vec_get x j ;;
       let dx := x1 - x0 in
       y1 <- vec_get y (j + 1) ;; y0 <- vec_get y j ;;
       let dy := y1 - y0 in
       Ok (yaw ++ [atan2 E dy dx], ds ++ [sqrt (dx * dx + dy * dy)]))
    (yaw, ds).

(** The third loop: curvature. *)
Definition global_curvature (yaw ds c : list double) : result (list double) :=
  for_loop (S (length yaw)) 0 (size_t_wrap (vec_size yaw - 1))
    (fun j c =>
       yaw1 <- vec_get yaw (j + 1) ;; yaw0 <- vec_get yaw j ;;
       let yaw_diff := unifyAngleRange E (yaw1 - yaw0) in
       dsj <- vec_get ds j ;;
       Ok (c ++ [yaw_diff / dsj]))
    c.

(** [convertToGlobalFrame]. *)
Definition convertToGlobalFrame (traj : FrenetPath) (cubic_spline : Spline2D)
  : result FrenetPath :=
  '(x, y) <- global_positions traj cubic_spline
               (int_range (vec_size (FrenetPath.s traj)))
               (FrenetPath.x traj) (FrenetPath.y traj) ;;
  '(yaw, ds) <- global_yaw_ds x y (FrenetPath.yaw traj) (FrenetPath.ds traj) ;;
  yaw_back <- vec_back yaw ;;
  let yaw := yaw ++ [yaw_back] in
  ds_back <- vec_back ds ;;
  let ds := ds ++ [ds_back] in
  c <- global_curvature yaw ds (FrenetPath.c traj) ;;
  Ok (set_global traj x y yaw ds c).

(* ----------------------------------------------------------------- *)
(** *** sampleEndStates *)

Section Sampling.

Variable start_state_ : FrenetState.
Variables (lane_id : Z) (left_bound right_bound current_speed : double).

(** The running minimum of [sampleEndStates]: [min_cost] and [idx], which
    is unassigned until some estimated cost is below [min_cost]. *)
Definition Best : Type := (double * option Vector3i)%type.

Definition delta_width : double :=
  (left_bound - Setting.center_offset settings_)
  / Double.of_int (Z.quot (Setting.num_width settings_ - 1) 2).

Definition delta_v : double :=
  (Setting.highest_speed settings_ - Setting.lowest_speed settings_)
  / Double.of_int (Setting.num_speed settings_ - 1).

Definition delta_t : double :=
  (Setting.max_t settings_ - Setting.min_t settings_)
  / Double.of_int (Setting.num_t settings_ - 1).

Definition lat_norm : double :=
  let a := Double.pow2 (left_bound - Setting.center_offset settings_) in
  let b := Double.pow2 (right_bound - Setting.center_offset settings_) in
  (* std::max(a, b) *)
  if a <? b then b else a.

(** The cell sampled at [(i, j, k)]. *)
Definition sample_cell (i j k : Z) : FrenetPath :=
  let d := right_bound + Double.of_int i * delta_width in
  let lat_cost := Double.pow2 (d - Setting.center_offset settings_) / lat_norm in
  let v := Setting.lowest_speed settings_ + Double.of_int j * delta_v in
  let speed_cost :=
    Double.pow2 (Setting.highest_speed settings_ - v)
    + 0.5 * Double.pow2 (current_speed - v) in
  let end_state :=
    {| FrenetState.T := Setting.min_t settings_ + Double.of_int k * delta_t;
       FrenetState.s := 0;
       FrenetState.s_d := v;
       FrenetState.s_dd := 0;
       FrenetState.d := d;
       FrenetState.d_d := 0;
       FrenetState.d_dd := 0 |} in
  let time_cost := 1 - FrenetState.T end_state / Setting.max_t settings_ in
  let fix_cost :=
    Setting.k_lat settings_ * Setting.k_diff settings_ * lat_cost
    + Setting.k_lon settings_
      * (Setting.k_time settings_ * time_cost + Setting.k_diff settings_ * speed_cost) in
  let hur_cost :=
    Setting.k_lat settings_ * Setting.k_diff settings_
    * Double.pow2 (FrenetState.d start_state_ - FrenetState.d end_state) in
  FrenetPath_new lane_id end_state fix_cost hur_cost.

(** [est_cost] of a cell. *)
Definition est_cost (p : FrenetPath) : double :=
  FrenetPath.fix_cost p + FrenetPath.hur_cost p.

(** [if (est_cost < min_cost) { min_cost = est_cost; idx = (i, j, k); }]. *)
Definition update_best (best : Best) (idx : Vector3i) (p : FrenetPath) : Best :=
  if est_cost p <? fst best then (est_cost p, Some idx) else best.

(** The loop over [k]. *)
Definition sample_1d (i j : Z) (best : Best) : list FrenetPath * Best :=
  fold_left
    (fun '(trajs_1d, best) k =>
       let p := sample_cell i j k in
       (trajs_1d ++ [p], update_best best (i, j, k) p))
    (int_range (Setting.num_t settings_)) ([], best).

(** The loop over [j]. *)
Definition sample_2d (i : Z) (best : Best) : list (list FrenetPath) * Best :=
  fold_left
    (fun '(trajs_2d, best) j =>
       let '(trajs_1d, best) := sample_1d i j best in
       (trajs_2d ++ [trajs_1d], best))
    (int_range (Setting.num_speed settings_)) ([], best).

(** [sampleEndStates]: the grid and the index of the running minimum. *)
Definition sampleEndStates : Grid * option Vector3i :=
  let '(trajs_3d, best) :=
    fold_left
      (fun '(trajs_3d, best) i =>
         let '(trajs_2d, best) := sample_2d i best in
         (trajs_3d ++ [trajs_2d], best))
      (int_range (Setting.num_width settings_)) ([], (Double.DBL_MAX, None)) in
  (trajs_3d, snd best).

End Sampling.

(* ----------------------------------------------------------------- *)
(** *** findDirection, getTrajAndRealCost, findGradients, findNextBest *)

Section Searching.

Variable start_state_ : FrenetState.

(** [findDirection]. *)
Definition findDirection (sizes idx : Vector3i) : Vector3i :=
  let direction dim :=
    if (vec3_get sizes dim - 1 <=? vec3_get idx dim)%Z then (-1)%Z else 1%Z in
  (direction 0%Z, direction 1%Z, direction 2%Z).

(** [getTrajAndRealCost]: the real cost of the cell at [idx]; on the first
    visit the cell is generated, costed and pushed on the queue. *)
Definition getTrajAndRealCost (st : Search) (idx : Vector3i) : result (double * Search) :=
  p <- grid_get (Search.trajs st) idx ;;
  if FrenetPath.is_generated p then Ok (FrenetPath.final_cost p, st)
  else
    let end_T := FrenetState.T (FrenetPath.end_state p) in
    let lateral_quintic_poly := QuinticPolynomial E start_state_ (FrenetPath.end_state p) in
    ts <- time_ticks fuel end_T (Setting.tick_t settings_) 0 ;;
    let d_ddd := map (calculateThirdDerivative lateral_quintic_poly) ts in
    let jerk_d := jerk_sum d_ddd in
    let longitudinal_quartic_poly := QuarticPolynomial E start_state_ (FrenetPath.end_state p) in
    ts' <- time_ticks fuel end_T (Setting.tick_t settings_) 0 ;;
    let s_ddd := map (calculateThirdDerivative longitudinal_quartic_poly) ts' in
    let jerk_s := jerk_sum s_ddd in
    let dyn_cost :=
      Setting.k_jerk settings_
      * (Setting.k_lon settings_ * jerk_s + Setting.k_lat settings_ * jerk_d) in
    let final_cost := FrenetPath.fix_cost p + dyn_cost in
    let p' :=
      set_generated p
        (FrenetPath.t_ p ++ ts)
        (FrenetPath.d p ++ map (calculatePoint lateral_quintic_poly) ts)
        (FrenetPath.d_d p ++ map (calculateFirstDerivative lateral_quintic_poly) ts)
        (FrenetPath.d_dd p ++ map (calculateSecondDerivative lateral_quintic_poly) ts)
        (FrenetPath.d_ddd p ++ d_ddd)
        (FrenetPath.s p ++ map (calculatePoint longitudinal_quartic_poly) ts')
        (FrenetPath.s_d p ++ map (calculateFirstDerivative longitudinal_quartic_poly) ts')
        (FrenetPath.s_dd p ++ map (calculateSecondDerivative longitudinal_quartic_poly) ts')
        (FrenetPath.s_ddd p ++ s_ddd)
        dyn_cost final_cost in
    Ok (final_cost,
        {| Search.trajs := grid_set (Search.trajs st) idx p';
           Search.candidate_trajs_ := pq_push p' (Search.candidate_trajs_ st);
           Search.num_traj := (Search.num_traj st + 1)%Z |}).

(** One turn of the loop of [findGradients], for dimension [dim]. *)
Definition gradient_dim (sizes directions idx : Vector3i) (cost_center : double)
  (dim : Z) (st : Search) : result (double * Search) :=
  let next_idx := vec3_set idx dim (vec3_get idx dim + vec3_get directions dim)%Z in
  if (0 <=? vec3_get directions dim)%Z then
    '(cost, st) <- getTrajAndRealCost st next_idx ;;
    let g := cost - cost_center in
    Ok (if Double.ge g 0 && (vec3_get idx dim =? 0)%Z then 0 else g, st)
  else
    '(cost, st) <- getTrajAndRealCost st next_idx ;;
    let g := cost_center - cost in
    Ok (if (g <=? 0) && (vec3_get idx dim =? vec3_get sizes dim - 1)%Z then 0 else g, st).

(** [findGradients]. *)
Definition findGradients (st : Search) (idx : Vector3i) : result (Vector3d * Search) :=
  let trajs := Search.trajs st in
  trajs_0 <- vec_get trajs 0 ;;
  trajs_00 <- vec_get trajs_0 0 ;;
  let sizes := (vec_size trajs, vec_size trajs_0, vec_size trajs_00) in
  let directions := findDirection sizes idx in
  '(cost_center, st) <- getTrajAndRealCost st idx ;;
  '(g0, st) <- gradient_dim sizes directions idx cost_center 0 st ;;
  '(g1, st) <- gradient_dim sizes directions idx cost_center 1 st ;;
  '(g2, st) <- gradient_dim sizes directions idx cost_center 2 st ;;
  Ok ((g0, g1, g2), st).

(** The selection loop of [findNextBest]: the dimension of the gradient of
    largest magnitude, and that gradient. *)
Definition max_gradient (gradients : Vector3d) : Z * double :=
  fold_left
    (fun '(grad_dim, max_grad) i =>
       if Double.gt (abs (vec3_get gradients i)) (abs max_grad)
       then (i, vec3_get gradients i) else (grad_dim, max_grad))
    [1%Z; 2%Z] (0%Z, vec3_get gradients 0%Z).

(** [findNextBest]: [true] when the cell at [idx] was searched before;
    otherwise the cell is marked and [idx] moves one step. *)
Definition findNextBest (st : Search) (idx : Vector3i) : result (bool * Search * Vector3i) :=
  p <- grid_get (Search.trajs st) idx ;;
  if FrenetPath.is_used p then Ok (true, st, idx)
  else
    let st :=
      {| Search.trajs := grid_set (Search.trajs st) idx (set_is_used p true);
         Search.candidate_trajs_ := Search.candidate_trajs_ st;
         Search.num_traj := Search.num_traj st |} in
    '(gradients, st) <- findGradients st idx ;;
    let '(grad_dim, max_grad) := max_gradient gradients in
    let step := if Double.gt max_grad 0 then (-1)%Z else 1%Z in
    let idx := vec3_set idx grad_dim (vec3_get idx grad_dim + step)%Z in
    Ok (false, st, idx).

(** [while (!converged) { converged = findNextBest(...); num_iter++; }]. *)
Fixpoint search_loop (n : nat) (st : Search) (idx : Vector3i) (num_iter : Z)
  : result (Search * Vector3i * Z) :=
  match n with
  | O => Fault out_of_fuel
  | S n' =>
      '(converged, st, idx) <- findNextBest st idx ;;
      if converged : bool then Ok (st, idx, (num_iter + 1)%Z)
      else search_loop n' st idx (num_iter + 1)%Z
  end.

End Searching.

(* ----------------------------------------------------------------- *)
(** *** frenetOptimalPlanning *)

(** [while (!best_traj_found && !candidate_trajs_.empty())]. *)
Fixpoint validation_loop (n : nat) (cubic_spline : Spline2D)
  (obstacle_trajs : list Path) (obstacles : list DetectedObject)
  (check_collision use_async : bool) (v : Validation) : result Validation :=
  match pq_pop (Validation.candidate_trajs_ v) with
  | None => Ok v
  | Some (candidate_traj, rest) =>
      match n with
      | O => Fault out_of_fuel
      | S n' =>
          let popped := Validation.popped v ++ [candidate_traj] in
          let num_trajs_validated := (Validation.num_trajs_validated v + 1)%Z in
          candidate_traj <- convertToGlobalFrame candidate_traj cubic_spline ;;
          '(is_safe, candidate_traj) <- checkConstraints candidate_traj ;;
          if negb is_safe then
            validation_loop n' cubic_spline obstacle_trajs obstacles check_collision use_async
              {| Validation.popped := popped;
                 Validation.best_traj := None;
                 Validation.candidate_trajs_ := rest;
                 Validation.num_trajs_validated := num_trajs_validated;
                 Validation.num_collision_checks := Validation.num_collision_checks v |}
          else
            '(is_safe, candidate_traj, num_collision_checks) <-
              (if check_collision
               then checkCollisions candidate_traj obstacle_trajs obstacles use_async
                      (Validation.num_collision_checks v)
               else Ok (true, candidate_traj, Validation.num_collision_checks v)) ;;
            if is_safe : bool then
              Ok {| Validation.popped := popped;
                    Validation.best_traj := Some candidate_traj;
                    Validation.candidate_trajs_ := rest;
                    Validation.num_trajs_validated := num_trajs_validated;
                    Validation.num_collision_checks := num_collision_checks |}
            else
              validation_loop n' cubic_spline obstacle_trajs obstacles
                check_collision use_async
                {| Validation.popped := popped;
                   Validation.best_traj := None;
                   Validation.candidate_trajs_ := rest;
                   Validation.num_trajs_validated := num_trajs_validated;
                   Validation.num_collision_checks := num_collision_checks |}
      end
  end.

(** [frenetOptimalPlanning]. [candidate_trajs_] is the member queue as the
    call finds it. *)
Definition frenetOptimalPlanning (candidate_trajs_ : PriorityQueue)
  (cubic_spline : Spline2D) (start_state : FrenetState) (lane_id : Z)
  (left_width right_width current_speed : double)
  (obstacles : list DetectedObject) (check_collision use_async : bool)
  : result Planning :=
  obstacle_trajs <- predictTrajectories obstacles ;;
  let '(trajs_3d, best_idx) :=
    sampleEndStates start_state lane_id left_width right_width current_speed in
  (* numbers.emplace_back(trajs_3d.size()*trajs_3d[0].size()*trajs_3d[0][0].size()) *)
  trajs_0 <- vec_get trajs_3d 0 ;;
  _ <- vec_get trajs_0 0 ;;
  best_idx <- match best_idx with
              | Some idx => Ok idx
              | None => Fault uninitialized
              end ;;
  '(st, _, num_iter) <-
    search_loop start_state fuel
      {| Search.trajs := trajs_3d;
         Search.candidate_trajs_ := candidate_trajs_;
         Search.num_traj := 0 |}
      best_idx 0 ;;
  v <- validation_loop (length (Search.candidate_trajs_ st)) cubic_spline
         obstacle_trajs obstacles check_collision use_async
         {| Validation.popped := [];
            Validation.best_traj := None;
            Validation.candidate_trajs_ := Search.candidate_trajs_ st;
            Validation.num_trajs_validated := 0;
            Validation.num_collision_checks := 0 |} ;;
  Ok {| Planning.result_ := match Validation.best_traj v with
                            | Some best_traj => [best_traj]
                            | None => []
                            end;
        Planning.trajs_3d := Search.trajs st;
        Planning.num_iter := num_iter;
        Planning.num_trajs_generated := Search.num_traj st;
        Planning.validation := v |}.

End PlannerCode.

(* ================================================================= *)
(** ** The rest of spline.cc and of the planner

    [Spline2D::calculateCurvature], [Spline2D::calculateSplineCourse],
    [generateReferenceCurve] and the bookkeeping of [TestResult]. *)

(** [Spline2D::ResultType]. *)
Module SplineCourse.
Record t : Type := {
  rx : list double;
  ry : list double;
  ryaw : list double;
  rk : list double
}.
End SplineCourse.
Abbreviation SplineCourse := SplineCourse.t.

Section CourseCode.

Variable E : Extern.

(** Bound on the iterations of each [double]-counted loop. *)
Variable fuel : nat.

(** [Spline2D::calculateCurvature]. *)
Definition calculateCurvature (sp : Spline2D) (s : double) : result double :=
  dx <- Spline_calculateFirstDerivative E (Spline2D.sx_ sp) s ;;
  ddx <- Spline_calculateSecondDerivative E (Spline2D.sx_ sp) s ;;
  dy <- Spline_calculateFirstDerivative E (Spline2D.sy_ sp) s ;;
  ddy <- Spline_calculateSecondDerivative E (Spline2D.sy_ sp) s ;;
  Ok ((ddy * dx - ddx * dy) / (dx * dx + dy * dy)).

(** The loop of [calculateSplineCourse]:
    [for (double s = 0.0; s < spline2d.s_.back(); s += ds)]. *)
Fixpoint course_loop (n : nat) (spline2d : Spline2D) (ds s : double)
  (r : SplineCourse) : result SplineCourse :=
  back <- vec_back (Spline2D.s_ spline2d) ;;
  if s <? back then
    match n with
    | O => Fault out_of_fuel
    | S n' =>
        state <- calculatePosition E spline2d s ;;
        yaw <- calculateYaw E spline2d s ;;
        k <- calculateCurvature spline2d s ;;
        course_loop n' spline2d ds (s + ds)
          {| SplineCourse.rx := SplineCourse.rx r ++ [VehicleState.x state];
             SplineCourse.ry := SplineCourse.ry r ++ [VehicleState.y state];
             SplineCourse.ryaw := SplineCourse.ryaw r ++ [yaw];
             SplineCourse.rk := SplineCourse.rk r ++ [k] |}
    end
  else Ok r.

(** [Spline2D::calculateSplineCourse]. *)
Definition calculateSplineCourse (ref_wps : Map) (ds : double) : result SplineCourse :=
  spline2d <- Spline2D_new E ref_wps ;;
  course_loop fuel spline2d ds 0
    {| SplineCourse.rx := []; SplineCourse.ry := [];
       SplineCourse.ryaw := []; SplineCourse.rk := [] |}.

(** [for (double i = 0; i < cubic_spline.s_.back(); i += 0.1)]: the values
    pushed on [s]. *)
Fixpoint reference_ticks (n : nat) (cubic_spline : Spline2D) (i : double)
  : result (list double) :=
  back <- vec_back (Spline2D.s_ cubic_spline) ;;
  if i <? back then
    match n with
    | O => Fault out_of_fuel
    | S n' => r <- reference_ticks n' cubic_spline (i + 0x1.999999999999ap-4) ;; Ok (i :: r)
    end
  else Ok [].

(** The second loop of [generateReferenceCurve]. *)
Fixpoint reference_path (cubic_spline : Spline2D) (s : list double)
  (indices : list Z) (ref_path : Path) : result Path :=
  match indices with
  | [] => Ok ref_path
  | i :: indices' =>
      si <- vec_get s i ;;
      state <- calculatePosition E cubic_spline si ;;
      yaw <- calculateYaw E cubic_spline si ;;
      reference_path cubic_spline s indices'
        {| Path.x := Path.x ref_path ++ [VehicleState.x state];
           Path.y := Path.y ref_path ++ [VehicleState.y state];
           Path.yaw := Path.yaw ref_path ++ [yaw];
           Path.v := Path.v ref_path |}
  end.

(** [generateReferenceCurve]; the waypoints of the lane are what
    [Spline2D] is built from. *)
Definition generateReferenceCurve (lane : Map) : result (Path * Spline2D) :=
  cubic_spline <- Spline2D_new E lane ;;
  s <- reference_ticks fuel cubic_spline 0 ;;
  ref_path <- reference_path cubic_spline s (int_range (vec_size s))
                {| Path.x := []; Path.y := []; Path.yaw := []; Path.v := [] |} ;;
  Ok (ref_path, cubic_spline).

End CourseCode.

(** [FrenetOptimalTrajectoryPlanner::TestResult]. [length] is an [int],
    the counters are [size_t]. *)
Module TestResult.
Record t : Type := {
  length : Z;
  count : Z;
  numbers : list Z;
  numbers_min : list Z;
  numbers_max : list Z;
  total_numbers : list Z;
  time : list double;
  time_min : list double;
  time_max : list double;
  total_time : list double
}.
End TestResult.
Abbreviation TestResult := TestResult.t.

(** [v[i] = a]: a write outside the vector is a fault. *)
Definition vec_write {A} (v : list A) (i : Z) (a : A) : result (list A) :=
  _ <- vec_get v i ;; Ok (vec_set v (Z.to_nat i) a).

(** [std::min], [std::max] on doubles. *)
Definition std_min (a b : double) : double := if b <? a then b else a.
Definition std_max (a b : double) : double := if a <? b then b else a.

(** [std::transform(total.begin(), total.end(), v.begin(), total.begin(), plus)]. *)
Fixpoint transform_plus {A} (plus : A -> A -> A) (total v : list A) (i : Z)
  : result (list A) :=
  match total with
  | [] => Ok []
  | a :: total' =>
      b <- vec_get v i ;;
      rest <- transform_plus plus total' v (i + 1) ;;
      Ok (plus a b :: rest)
  end.

(** [TestResult::TestResult(const int length)]; [None] when the vectors
    cannot be allocated because [length] is negative. *)
Definition TestResult_new (length : Z) : option TestResult :=
  if (length <? 0)%Z then None
  else
    let n := Z.to_nat length in
    Some {| TestResult.length := length;
            TestResult.count := 0;
            TestResult.numbers := repeat 0%Z n;
            TestResult.numbers_min := repeat 100000%Z n;
            TestResult.numbers_max := repeat 0%Z n;
            TestResult.total_numbers := repeat 0%Z n;
            TestResult.time := repeat 0 (S n);
            TestResult.time_min := repeat 100000 (S n);
            TestResult.time_max := repeat 0 (S n);
            TestResult.total_time := repeat 0 (S n) |}.

Section TestResultCode.

(** [std::chrono::system_clock::time_point], and the difference of two
    time points in milliseconds as a [double]. *)
Variable time_point : Type.
Variable elapsed_ms : time_point -> time_point -> double.

(** [TestResult::updateCount]. *)
Definition updateCount (r : TestResult) (numbers : list Z)
  (timestamps : list time_point) : result TestResult :=
  let length := TestResult.length r in
  if negb (vec_size numbers =? size_t_wrap length)%Z
     || negb (vec_size timestamps =? size_t_wrap (length + 1))%Z
  then Ok r
  else
    let count := (TestResult.count r + 1)%Z in
    '(numbers_min, numbers_max) <-
      for_loop (S (List.length numbers)) 0 (size_t_wrap length)
        (fun i '(numbers_min, numbers_max) =>
           lo <- vec_get numbers_min i ;; n <- vec_get numbers i ;;
           numbers_min <- vec_write numbers_min i (Z.min lo n) ;;
           hi <- vec_get numbers_max i ;; n <- vec_get numbers i ;;
           numbers_max <- vec_write numbers_max i (Z.max hi n) ;;
           Ok (numbers_min, numbers_max))
        (TestResult.numbers_min r, TestResult.numbers_max r) ;;
    total_numbers <-
      transform_plus (fun a b => size_t_wrap (a + b)) (TestResult.total_numbers r)
        numbers 0 ;;
    time <-
      for_loop (S (List.length timestamps)) 0 (size_t_wrap (vec_size timestamps - 1))
        (fun i time =>
           t1 <- vec_get timestamps (i + 1) ;; t0 <- vec_get timestamps i ;;
           vec_write time i (elapsed_ms t1 t0))
        (TestResult.time r) ;;
    back <- vec_back timestamps ;;
    front <- vec_get timestamps 0 ;;
    time <- vec_write time length (elapsed_ms back front) ;;
    '(time_min, time_max) <-
      for_loop (S (List.length numbers)) 0 (size_t_wrap length)
        (fun i '(time_min, time_max) =>
           lo <- vec_get time_min i ;; t <- vec_get time i ;;
           time_min <- vec_write time_min i (std_min lo t) ;;
           hi <- vec_get time_max i ;; t <- vec_get time i ;;
           time_max <- vec_write time_max i (std_max hi t) ;;
           Ok (time_min, time_max))
        (TestResult.time_min r, TestResult.time_max r) ;;
    total_time <- transform_plus (fun a b => a + b) (TestResult.total_time r) time 0 ;;
    Ok {| TestResult.length := length;
          TestResult.count := count;
          TestResult.numbers := numbers;
          TestResult.numbers_min := numbers_min;
          TestResult.numbers_max := numbers_max;
          TestResult.total_numbers := total_numbers;
          TestResult.time := time;
          TestResult.time_min := time_min;
          TestResult.time_max := time_max;
          TestResult.total_time := total_time |}.

End TestResultCode.

(* ================================================================= *)
(** ** frenet_optimal_trajectory_planning.hpp: the choice of the best path

    The older planner ranks paths by their total cost [cf]. Its
    [FrenetPath] is declared in common/frenet.h, which is not among the
    sources: the path type, the two fields read here and the
    default-constructed path are parameters. *)

Section BestPath.

Variable path : Type.
Variable lane_id : path -> Z.
Variable cf : path -> double.
Variable FrenetPath_empty : path.

(** The scan of [findBestPath]: whether a path of the target lane was
    seen, [min_cost] and [best_path_id]. *)
Definition best_path_scan (frenet_paths_list : list path) (target_lane_id : Z)
  : result (bool * double * Z) :=
  fold_left
    (fun acc i =>
       '(found, min_cost, best_path_id) <- acc ;;
       p <- vec_at frenet_paths_list i ;;
       if (lane_id p =? target_lane_id)%Z then
         if Double.ge min_cost (cf p) then Ok (true, cf p, i)
         else Ok (true, min_cost, best_path_id)
       else Ok (found, min_cost, best_path_id))
    (int_range (vec_size frenet_paths_list))
    (Ok (false, 1000000000, 0%Z)).

(** [findBestPath]. *)
Definition findBestPath (frenet_paths_list : list path) (target_lane_id : Z)
  : result path :=
  match frenet_paths_list with
  | _ :: _ =>
      '(_, _, best_path_id) <- best_path_scan frenet_paths_list target_lane_id ;;
      vec_get frenet_paths_list best_path_id
  | [] => Ok FrenetPath_empty
  end.

(** [findBestPaths]: transition area, left lane, right lane. *)
Definition findBestPaths (frenet_paths_list : list path) : result (list path) :=
  p0 <- findBestPath frenet_paths_list 0 ;;
  p1 <- findBestPath frenet_paths_list 1 ;;
  p2 <- findBestPath frenet_paths_list 2 ;;
  Ok [p0; p1; p2].

End BestPath.

(* ================================================================= *)
(** ** A concrete environment

    The theorems below hold for every [Extern]. To run the planner on an
    input, [Example.extern] supplies one: small stand-ins for libm and
    Eigen, and the polynomial classes and the SAT checker as the spec
    describes them. *)

Module Example.

Definition two_pi : double := 2 * M_PI.

(** Taylor polynomials about 0, after one reduction to [-pi, pi]. *)
Definition reduce (x : double) : double :=
  if M_PI <? x then x - two_pi else if x <? - M_PI then x + two_pi else x.

Definition cos (x : double) : double :=
  let x := reduce x in
  let x2 := x * x in
  1 - x2 / 2 * (1 - x2 / 12 * (1 - x2 / 30 * (1 - x2 / 56 * (1 - x2 / 90)))).

Definition sin (x : double) : double :=
  let x := reduce x in
  let x2 := x * x in
  x * (1 - x2 / 6 * (1 - x2 / 20 * (1 - x2 / 42 * (1 - x2 / 72 * (1 - x2 / 110))))).

(** [atan] on [0, 1] by a rational approximation, extended by symmetry. *)
Definition atan_unit (z : double) : double := z / (1 + 0.28125 * z * z).

Definition atan2 (y x : double) : double :=
  if abs y <=? abs x then
    if x =? 0 then 0
    else
      let a := atan_unit (y / x) in
      if 0 <? x then a else if y <? 0 then a - M_PI else a + M_PI
  else
    let a := atan_unit (x / y) in
    if 0 <? y then M_PI / 2 - a else - (M_PI / 2) - a.

Definition unifyAngleRange (angle : double) : double := reduce angle.

Definition cmp_doubles_greater_or_equal (a b : double) : bool :=
  (b <=? a) || (abs (a - b) <? 0x1p-52).

Definition getRPY_yaw (qx qy qz qw : double) : double :=
  let n := qx * qx + qy * qy + qz * qz + qw * qw in
  atan2 (2 * (qw * qz + qx * qy) / n) (1 - 2 * (qy * qy + qz * qz) / n).

(** Modelled from the spec: [QuinticPolynomial], whose source is not among
    the files: the coefficients "such that p(0)=d0, p'(0)=d0_d,
    p''(0)=d0_dd, p(T)=d1, p'(T)=d1_d, p''(T)=d1_dd", in the closed form of
    the quintic end-point formulas. *)
Definition QuinticPolynomial (start end_ : FrenetState) : Polynomial :=
  let T := FrenetState.T end_ in
  let a0 := FrenetState.d start in
  let a1 := FrenetState.d_d start in
  let a2 := FrenetState.d_dd start / 2 in
  let T2 := T * T in
  let T3 := T2 * T in
  let T4 := T3 * T in
  let T5 := T4 * T in
  let b0 := FrenetState.d end_ - a0 - a1 * T - a2 * T2 in
  let b1 := FrenetState.d_d end_ - a1 - 2 * a2 * T in
  let b2 := FrenetState.d_dd end_ - 2 * a2 in
  let a3 := (20 * b0 - 8 * b1 * T + b2 * T2) / (2 * T3) in
  let a4 := (14 * b1 * T - 30 * b0 - 2 * b2 * T2) / (2 * T4) in
  let a5 := (12 * b0 - 6 * b1 * T + b2 * T2) / (2 * T5) in
  {| calculatePoint := fun t =>
       a0 + a1 * t + a2 * t * t + a3 * t * t * t + a4 * t * t * t * t
       + a5 * t * t * t * t * t;
     calculateFirstDerivative := fun t =>
       a1 + 2 * a2 * t + 3 * a3 * t * t + 4 * a4 * t * t * t + 5 * a5 * t * t * t * t;
     calculateSecondDerivative := fun t =>
       2 * a2 + 6 * a3 * t + 12 * a4 * t * t + 20 * a5 * t * t * t;
     calculateThirdDerivative := fun t =>
       6 * a3 + 24 * a4 * t + 60 * a5 * t * t |}.

(** Modelled from the spec: [QuarticPolynomial], of which the sources hold
    only the class declaration: given the start [(s0, s0_d, s0_dd)] and the
    end [(s1_d, s1_dd)], "the derivative boundary conditions are satisfied
    exactly" and the end position is free. *)
Definition QuarticPolynomial (start end_ : FrenetState) : Polynomial :=
  let T := FrenetState.T end_ in
  let a0 := FrenetState.s start in
  let a1 := FrenetState.s_d start in
  let a2 := FrenetState.s_dd start / 2 in
  let T2 := T * T in
  let T3 := T2 * T in
  let b0 := FrenetState.s_d end_ - a1 - 2 * a2 * T in
  let b1 := FrenetState.s_dd end_ - 2 * a2 in
  let a3 := (3 * b0 - b1 * T) / (3 * T2) in
  let a4 := (b1 * T - 2 * b0) / (4 * T3) in
  {| calculatePoint := fun t =>
       a0 + a1 * t + a2 * t * t + a3 * t * t * t + a4 * t * t * t * t;
     calculateFirstDerivative := fun t =>
       a1 + 2 * a2 * t + 3 * a3 * t * t + 4 * a4 * t * t * t;
     calculateSecondDerivative := fun t =>
       2 * a2 + 6 * a3 * t + 12 * a4 * t * t;
     calculateThirdDerivative := fun t =>
       6 * a3 + 24 * a4 * t |}.

(** A fresh Eigen matrix holds whatever the allocator returns; here zeros. *)
Definition MatrixXd_fresh (rows cols : Z) : MatrixXd :=
  repeat (repeat 0 (Z.to_nat cols)) (Z.to_nat rows).

Definition dot (u v : list double) : double :=
  fold_left (fun acc '(a, b) => acc + a * b) (combine u v) 0.

Fixpoint transpose (cols : nat) (m : MatrixXd) : MatrixXd :=
  match cols with
  | O => []
  | S cols' => map (fun row => hd 0 row) m :: transpose cols' (map (@tl double) m)
  end.

Definition matmul (a b : MatrixXd) : MatrixXd :=
  let bt := transpose (length (hd [] b)) b in
  map (fun row => map (dot row) bt) a.

Definition identity (n : nat) : MatrixXd :=
  map (fun i => map (fun j => if Nat.eqb i j then 1 else 0) (seq 0 n)) (seq 0 n).

Definition scale_row (k : double) (row : list double) : list double :=
  map (fun a => a / k) row.

Definition sub_row (k : double) (pivot row : list double) : list double :=
  map (fun '(a, p) => a - k * p) (combine row pivot).

(** Gauss-Jordan elimination on [m | identity], pivots on the diagonal. *)
Definition eliminate (m : MatrixXd) (col : nat) : MatrixXd :=
  let pivot := nth col m [] in
  let pivot := scale_row (nth col pivot 0) pivot in
  map (fun '(i, row) =>
         if Nat.eqb i col then pivot else sub_row (nth col row 0) pivot row)
      (combine (seq 0 (length m)) m).

Definition inverse (m : MatrixXd) : MatrixXd :=
  let n := length m in
  let augmented := map (fun '(row, e) => row ++ e) (combine m (identity n)) in
  map (skipn n) (fold_left eliminate (seq 0 n) augmented).

(** Modelled from the spec: [construct_rectangle] of the SAT checker,
    whose source is not among the files: the rectangle of the given
    [length] and [width], inflated by the margins, centred at [(cx, cy)]
    with orientation [yaw]. *)
Definition construct_rectangle (cx cy yaw length width margin_lon margin_lat : double)
  : Polygon :=
  let hl := length / 2 + margin_lon in
  let hw := width / 2 + margin_lat in
  let c := cos yaw in
  let s := sin yaw in
  [ (cx + hl * c - hw * s, cy + hl * s + hw * c);
    (cx - hl * c - hw * s, cy - hl * s + hw * c);
    (cx - hl * c + hw * s, cy - hl * s - hw * c);
    (cx + hl * c + hw * s, cy + hl * s - hw * c) ].

Definition project (axis : double * double) (poly : Polygon) : double * double :=
  let dots := map (fun '(px, py) => px * fst axis + py * snd axis) poly in
  (fold_left (fun m v => if v <? m then v else m) dots infinity,
   fold_left (fun m v => if m <? v then v else m) dots neg_infinity).

Definition edge_normals (poly : Polygon) : list (double * double) :=
  match poly with
  | [] => []
  | p0 :: rest =>
      map (fun '((x1, y1), (x2, y2)) => (y1 - y2, x2 - x1))
          (combine poly (rest ++ [p0]))
  end.

(** Modelled from the spec: [check_collision] of the SAT checker: "the
    rectangles overlap iff every projection interval overlaps", touching
    intervals counting as overlap. *)
Definition check_collision (a b : Polygon) : bool :=
  forallb
    (fun axis =>
       let '(amin, amax) := project axis a in
       let '(bmin, bmax) := project axis b in
       (amin <=? bmax) && (bmin <=? amax))
    (edge_normals a ++ edge_normals b).

Definition extern : Extern :=
  Build_Extern cos sin atan2 unifyAngleRange cmp_doubles_greater_or_equal
    getRPY_yaw QuinticPolynomial QuarticPolynomial
    MatrixXd_fresh inverse matmul construct_rectangle check_collision
    (* Lr *) 1.5.

End Example.

(* ================================================================= *)
(** ** Vocabulary of the statements *)

(** *** The order of doubles

    [SFcompare] orders the values that are not NaN lexicographically:
    first by kind and sign, then by exponent, then by mantissa. *)

Definition key (f : spec_float) : Z * Z * Z :=
  match f with
  | S754_nan => (0, 0, 0)%Z
  | S754_infinity true => (-2, 0, 0)%Z
  | S754_infinity false => (2, 0, 0)%Z
  | S754_zero _ => (0, 0, 0)%Z
  | S754_finite true m e => (-1, - e, - Zpos m)%Z
  | S754_finite false m e => (1, e, Zpos m)%Z
  end.

Definition lex_compare (a b : Z * Z * Z) : comparison :=
  let '(a1, a2, a3) := a in
  let '(b1, b2, b3) := b in
  match (a1 ?= b1)%Z with
  | Eq => match (a2 ?= b2)%Z with Eq => (a3 ?= b3)%Z | c => c end
  | c => c
  end.

(** [a <= b] on doubles, as a proposition. *)
Definition dle (a b : double) : Prop := (a <=? b) = true.

(** *** Rounding to a double

    The vocabulary of [binary_round], which [SFadd] and [SFmul] end with. *)

(** The number of binary digits of a mantissa, and the exponent of the
    binary64 format for a value of that magnitude. *)
Definition digits (m : positive) : Z := Zpos (digits2_pos m).
Definition format_exponent (k : Z) : Z := Z.max (k - 53) (-1074)%Z.

(** [r] has sign [s] and magnitude at least, resp. at most, that of the
    finite double with mantissa [mx] and exponent [ex]. *)
Definition magnitude_above (s : bool) (mx : positive) (ex : Z) (r : spec_float) : Prop :=
  r = S754_infinity s
  \/ exists mr er, r = S754_finite s mr er
       /\ (ex < er \/ (ex = er /\ Zpos mx <= Zpos mr))%Z.

Definition magnitude_below (s : bool) (mx : positive) (ex : Z) (r : spec_float) : Prop :=
  r = S754_zero s
  \/ exists mr er, r = S754_finite s mr er
       /\ (er < ex \/ (er = ex /\ Zpos mr <= Zpos mx))%Z.

(** [r] is NaN or carries the sign [s]. *)
Definition has_sign (s : bool) (r : spec_float) : Prop :=
  match r with
  | S754_nan => True
  | S754_zero s' | S754_infinity s' | S754_finite s' _ _ => s' = s
  end.

(** NaN, a zero of either sign, or a positive value. *)
Definition not_negative (r : spec_float) : Prop :=
  match r with
  | S754_nan | S754_zero _ => True
  | S754_infinity s | S754_finite s _ _ => s = false
  end.

(** The second half of [binary_round_aux]: renormalization of the rounded
    mantissa [m1] at exponent [e1], and the overflow test. *)
Definition round_finish (s : bool) (m1 e1 : Z) : spec_float :=
  let '(mrs, e2) := shr_fexp prec emax m1 e1 loc_Exact in
  match shr_m mrs with
  | Z0 => S754_zero s
  | Zpos m => if (e2 <=? emax - prec)%Z then S754_finite s m e2 else S754_infinity s
  | _ => S754_nan
  end.

(** *** checkConstraints *)

(** What [checkConstraints] tests at tick [i], read with its own
    comparisons: a value passes [s_d > max_speed] also when it is NaN. *)
Definition tick_passes (st : Setting) (traj : FrenetPath) (i : nat) : bool :=
  Double.isfinite (nth i (FrenetPath.x traj) nan)
  && Double.isfinite (nth i (FrenetPath.y traj) nan)
  && negb (Double.gt (nth i (FrenetPath.s_d traj) nan) (Setting.max_speed st))
  && negb (Double.gt (nth i (FrenetPath.s_dd traj) nan) (Setting.max_accel st))
  && negb (nth i (FrenetPath.s_dd traj) nan <? Setting.max_decel st)
  && negb (Double.gt (abs (nth i (FrenetPath.c traj) nan)) (Setting.max_curvature st)).

(** The ticks [checkConstraints] looks at: as many as there are
    curvature samples. *)
Definition checked_ticks (traj : FrenetPath) : list nat :=
  seq 0 (length (FrenetPath.c traj)).

(** The coordinates of tick [i] are neither zero nor subnormal. *)
Definition coordinates_not_tiny (traj : FrenetPath) (i : nat) : bool :=
  negb (Double.is_tiny (nth i (FrenetPath.x traj) nan))
  && negb (Double.is_tiny (nth i (FrenetPath.y traj) nan)).

(** The verdict as the specification words it: at every tick of the
    trajectory the position is finite, [s_d <= max_speed],
    [max_decel <= s_dd <= max_accel], and every curvature sample is
    within [max_curvature]. *)
Definition specified_verdict (st : Setting) (traj : FrenetPath) : bool :=
  forallb
    (fun i =>
       Double.isfinite (nth i (FrenetPath.x traj) nan)
       && Double.isfinite (nth i (FrenetPath.y traj) nan)
       && (nth i (FrenetPath.s_d traj) nan <=? Setting.max_speed st)
       && (Setting.max_decel st <=? nth i (FrenetPath.s_dd traj) nan)
       && (nth i (FrenetPath.s_dd traj) nan <=? Setting.max_accel st))
    (seq 0 (length (FrenetPath.x traj)))
  && forallb (fun c => abs c <=? Setting.max_curvature st) (FrenetPath.c traj).

(** *** checkTrajCollision *)

(** The verdict of the SAT checker on the ego and the obstacle as they
    stand at the first tick. *)
Definition first_tick_collides (E : Extern) (st : Setting) (ego_traj : FrenetPath)
  (obstacle : DetectedObject) (margin_lon margin_lat : double) : bool :=
  let x0 := nth 0 (FrenetPath.x ego_traj) nan in
  let y0 := nth 0 (FrenetPath.y ego_traj) nan in
  let yaw0 := nth 0 (FrenetPath.yaw ego_traj) nan in
  check_collision E
    (construct_rectangle E (x0 + Lr E * cos E yaw0) (y0 + Lr E * sin E yaw0) yaw0
       (Setting.vehicle_length st) (Setting.vehicle_width st) 0 0)
    (construct_rectangle E
       (DetectedObject.position_x obstacle) (DetectedObject.position_y obstacle)
       (getRPY_yaw E (DetectedObject.orientation_x obstacle)
          (DetectedObject.orientation_y obstacle)
          (DetectedObject.orientation_z obstacle)
          (DetectedObject.orientation_w obstacle))
       (DetectedObject.dimensions_x obstacle) (DetectedObject.dimensions_y obstacle)
       margin_lon margin_lat).

(** *** sampleEndStates *)

(** A test that holds of every cell of the grid, or of some cell. *)
Definition grid_forallb (f : FrenetPath -> bool) (g : Grid) : bool :=
  forallb (forallb (forallb f)) g.

Definition grid_existsb (f : FrenetPath -> bool) (g : Grid) : bool :=
  existsb (existsb (existsb f)) g.

(** The cells of a grid with their indices, in the order the three loops
    of [sampleEndStates] visit them. *)
Definition cells (I J K : list Z) (f : Z -> Z -> Z -> FrenetPath)
  : list (Vector3i * FrenetPath) :=
  flat_map (fun i => flat_map (fun j => map (fun k => ((i, j, k), f i j k)) K) J) I.

(** The running minimum after a sequence of cells. *)
Definition scan (l : list (Vector3i * FrenetPath)) (best : Best) : Best :=
  fold_left (fun best '(idx, p) => update_best best idx p) l best.

(** What the running minimum knows of the cells seen so far: unassigned,
    no estimated cost was below [DBL_MAX]; assigned, it is the index of a
    cell seen whose estimated cost no cell seen is below. *)
Definition best_ok (seen : list (Vector3i * FrenetPath)) (b : Best) : Prop :=
  match snd b with
  | None =>
      fst b = Double.DBL_MAX
      /\ forall idx p, In (idx, p) seen -> (est_cost p <? Double.DBL_MAX) = false
  | Some idx0 =>
      exists p0,
        In (idx0, p0) seen /\ fst b = est_cost p0
        /\ forall idx p, In (idx, p) seen -> dle (est_cost p0) (est_cost p)
  end.

(** *** The search *)

(** The gradients [findNextBest] computes at [idx]. *)
Definition gradients_at (E : Extern) (st : Setting) (fuel : nat)
  (start_state_ : FrenetState) (search : Search) (idx : Vector3i) : result Vector3d :=
  p <- grid_get (Search.trajs search) idx ;;
  '(gradients, _) <-
    findGradients E st fuel start_state_
      {| Search.trajs := grid_set (Search.trajs search) idx (set_is_used p true);
         Search.candidate_trajs_ := Search.candidate_trajs_ search;
         Search.num_traj := Search.num_traj search |} idx ;;
  Ok gradients.

(** The calls of [findNextBest] made by at most [n] turns of the search
    loop: the index of each call with the gradients found there, and the
    fault that ended the search, if one did. *)
Fixpoint search_trace (E : Extern) (st : Setting) (fuel : nat)
  (start_state_ : FrenetState) (n : nat) (search : Search) (idx : Vector3i)
  : list (Vector3i * option Vector3d) * option fault :=
  match n with
  | O => ([], None)
  | S n' =>
      match findNextBest E st fuel start_state_ search idx with
      | Fault f => ([(idx, None)], Some f)
      | Ok (true, _, _) => ([(idx, None)], None)
      | Ok (false, search', idx') =>
          let g := match gradients_at E st fuel start_state_ search idx with
                   | Ok g => Some g
                   | Fault _ => None
                   end in
          let '(calls, f) := search_trace E st fuel start_state_ n' search' idx' in
          ((idx, g) :: calls, f)
      end
  end.

(** [idx] is inside the grid. *)
Definition in_grid (g : Grid) (idx : Vector3i) : bool := is_ok (grid_get g idx).

(** *** The candidate queue *)

Definition final_costs (l : list FrenetPath) : list double :=
  map FrenetPath.final_cost l.

(** No final cost of [l] is NaN. *)
Definition costs_are_numbers (l : list FrenetPath) : bool :=
  forallb (fun p => negb (Double.isnan (FrenetPath.final_cost p))) l.

(** The state the validation loop of [frenetOptimalPlanning] starts from. *)
Definition validation_start (q : PriorityQueue) : Validation :=
  {| Validation.popped := [];
     Validation.best_traj := None;
     Validation.candidate_trajs_ := q;
     Validation.num_trajs_validated := 0;
     Validation.num_collision_checks := 0 |}.

(** *** The costs of a candidate *)

(** The costs of a materialized candidate: [dyn_cost] is the weighted sum
    of squared jerks over its samples, accumulated in tick order, and
    [final_cost] adds it to [fix_cost]. *)
Definition materialized_ok (st : Setting) (p : FrenetPath) : Prop :=
  FrenetPath.dyn_cost p
  = Setting.k_jerk st
    * (Setting.k_lon st * jerk_sum (FrenetPath.s_ddd p)
       + Setting.k_lat st * jerk_sum (FrenetPath.d_ddd p))
  /\ FrenetPath.final_cost p = FrenetPath.fix_cost p + FrenetPath.dyn_cost p.

(** The weights that enter [dyn_cost] are not negative. *)
Definition weights_not_negative (st : Setting) : bool :=
  Double.ge (Setting.k_jerk st) 0
  && Double.ge (Setting.k_lon st) 0
  && Double.ge (Setting.k_lat st) 0.

(** The costs of a materialized candidate, with the bound that follows
    from them: under weights that are not negative, a [final_cost] that is
    a number is not below [fix_cost]. *)
Definition costs_ok (st : Setting) (p : FrenetPath) : Prop :=
  materialized_ok st p
  /\ (weights_not_negative st = true ->
      Double.isnan (FrenetPath.final_cost p) = false ->
      Double.ge (FrenetPath.final_cost p) (FrenetPath.fix_cost p) = true).

(** A cell of the grid: materialized with the costs above, or not yet
    sampled in time. *)
Definition cell_ok (st : Setting) (p : FrenetPath) : Prop :=
  if FrenetPath.is_generated p then materialized_ok st p
  else FrenetPath.s_ddd p = [] /\ FrenetPath.d_ddd p = [].

(** The invariant of the search: every cell of the grid is [cell_ok] and
    every candidate of the queue is a materialized one. *)
Definition search_ok (st : Setting) (search : Search) : Prop :=
  (forall idx p, grid_get (Search.trajs search) idx = Ok p -> cell_ok st p)
  /\ Forall (fun p => FrenetPath.is_generated p = true /\ materialized_ok st p)
       (Search.candidate_trajs_ search).

(** [b] carries the costs and the jerk samples of [c]: conversion to the
    global frame and the two checks leave them alone. *)
Definition same_costs (c b : FrenetPath) : Prop :=
  FrenetPath.fix_cost b = FrenetPath.fix_cost c
  /\ FrenetPath.dyn_cost b = FrenetPath.dyn_cost c
  /\ FrenetPath.final_cost b = FrenetPath.final_cost c
  /\ FrenetPath.s_ddd b = FrenetPath.s_ddd c
  /\ FrenetPath.d_ddd b = FrenetPath.d_ddd c.

(** *** Loops and the arc length *)

(** [n] turns of a counted loop from [i], without a bound to test. *)
Fixpoint run_loop {S : Type} (n : nat) (i : Z) (body : Z -> S -> result S) (st : S)
  : result S :=
  match n with
  | O => Ok st
  | Datatypes.S n' => st' <- body i st ;; run_loop n' (i + 1)%Z body st'
  end.

(** [v[i+1] - v[i]] for the consecutive elements of [v]. *)
Fixpoint differences (v : list double) : list double :=
  match v with
  | a :: (b :: _) as v' => (b - a) :: differences v'
  | _ => []
  end.

(** The lengths of the chords between consecutive waypoints. *)
Definition chords (wx wy : list double) : list double :=
  map (fun '(dx, dy) => sqrt (dx * dx + dy * dy))
    (combine (differences wx) (differences wy)).

(** The running sums of [ds] from [s]. *)
Fixpoint cumulative (s : double) (ds : list double) : list double :=
  s :: match ds with
       | [] => []
       | d :: ds' => cumulative (s + d) ds'
       end.

(** Consecutive elements do not decrease, unless the later one is NaN. *)
Fixpoint nondecreasing (v : list double) : Prop :=
  match v with
  | a :: (b :: _) as v' => (Double.isnan b = false -> dle a b) /\ nondecreasing v'
  | _ => True
  end.

(** *** Zero and finite values *)

(** A zero of either sign; a zero or a finite value. *)
Definition zero_value (r : spec_float) : Prop :=
  match r with S754_zero _ => True | _ => False end.

Definition finite_value (r : spec_float) : Prop :=
  match r with S754_zero _ | S754_finite _ _ _ => True | _ => False end.

(** [r] is the value [a], up to the sign of zero. *)
Definition same_value (r a : spec_float) : Prop :=
  r = a \/ (zero_value r /\ zero_value a).

(** *** The shape of the grid and its counters *)

(** [g] has [nw] x [nv] x [nt] cells. *)
Definition grid_shape (g : Grid) (nw nv nt : nat) : Prop :=
  length g = nw
  /\ Forall (fun g_i =>
               length g_i = nv /\ Forall (fun g_ij => length g_ij = nt) g_i) g.

(** [idx] addresses a cell of a grid of that shape. *)
Definition idx_in (idx : Vector3i) (nw nv nt : nat) : Prop :=
  let '(i, j, k) := idx in
  (0 <= i < Z.of_nat nw)%Z /\ (0 <= j < Z.of_nat nv)%Z /\ (0 <= k < Z.of_nat nt)%Z.

(** The cells of [g] that have not been searched. *)
Definition unused (p : FrenetPath) : nat := if FrenetPath.is_used p then 0 else 1.

Definition unused_count (g : Grid) : nat :=
  list_sum (map (fun g_i => list_sum (map (fun g_ij => list_sum (map unused g_ij)) g_i)) g).

(** [idx'] is one step from [idx] along one axis. *)
Definition one_step (idx idx' : Vector3i) : Prop :=
  exists dim step,
    (0 <= dim <= 2)%Z /\ (step = 1 \/ step = -1)%Z
    /\ idx' = vec3_set idx dim (vec3_get idx dim + step)%Z.

(** [findNextBest]'s write to the cell it visits. *)
Definition mark_used (search : Search) (idx : Vector3i) (p : FrenetPath) : Search :=
  {| Search.trajs := grid_set (Search.trajs search) idx (set_is_used p true);
     Search.candidate_trajs_ := Search.candidate_trajs_ search;
     Search.num_traj := Search.num_traj search |}.

(** The profiles that [getTrajAndRealCost] samples have one entry per
    tick. *)
Definition profiles_aligned (p : FrenetPath) : Prop :=
  let n := length (FrenetPath.t_ p) in
  length (FrenetPath.d p) = n /\ length (FrenetPath.d_d p) = n
  /\ length (FrenetPath.d_dd p) = n /\ length (FrenetPath.d_ddd p) = n
  /\ length (FrenetPath.s p) = n /\ length (FrenetPath.s_d p) = n
  /\ length (FrenetPath.s_dd p) = n /\ length (FrenetPath.s_ddd p) = n.

(** No sample of the global frame has been written. *)
Definition not_converted (p : FrenetPath) : Prop :=
  FrenetPath.x p = [] /\ FrenetPath.y p = [] /\ FrenetPath.yaw p = []
  /\ FrenetPath.ds p = [] /\ FrenetPath.c p = [].

(** Between two states of the search every cell keeps its [is_used] flag,
    and a generated cell stays generated. *)
Definition cells_kept (search search' : Search) : Prop :=
  forall idx p,
    grid_get (Search.trajs search) idx = Ok p ->
    exists p',
      grid_get (Search.trajs search') idx = Ok p'
      /\ FrenetPath.is_used p' = FrenetPath.is_used p
      /\ (FrenetPath.is_generated p = true -> FrenetPath.is_generated p' = true).

(** *** The spline constructor *)


(** *** The test result *)

(** [f] applied to the elements of [u] and [v] at the same index. *)
Definition zip_with {A} (f : A -> A -> A) (u v : list A) : list A :=
  map (fun '(a, b) => f a b) (combine u v).

(** [f v[i+1] v[i]] for the consecutive elements of [v]. *)
Fixpoint consecutive {A B} (f : A -> A -> B) (v : list A) : list B :=
  match v with
  | a :: (b :: _) as v' => f b a :: consecutive f v'
  | _ => []
  end.

(** The vectors of a [TestResult] have the sizes its constructor gave
    them: [length] counters and [length + 1] times. *)
Definition TestResult_shape (r : TestResult) : Prop :=
  (0 <= TestResult.length r)%Z
  /\ length (TestResult.numbers_min r) = Z.to_nat (TestResult.length r)
  /\ length (TestResult.numbers_max r) = Z.to_nat (TestResult.length r)
  /\ length (TestResult.total_numbers r) = Z.to_nat (TestResult.length r)
  /\ length (TestResult.time r) = S (Z.to_nat (TestResult.length r))
  /\ length (TestResult.time_min r) = S (Z.to_nat (TestResult.length r))
  /\ length (TestResult.time_max r) = S (Z.to_nat (TestResult.length r))
  /\ length (TestResult.total_time r) = S (Z.to_nat (TestResult.length r)).

(** [numbers] and [timestamps] have the sizes [updateCount] accepts. *)
Definition valid_record {T} (r : TestResult) (numbers : list Z) (timestamps : list T)
  : Prop :=
  length numbers = Z.to_nat (TestResult.length r)
  /\ length timestamps = S (Z.to_nat (TestResult.length r)).

(** [updateCount] called once for each record of a list, in order. *)
Fixpoint updateCounts {T} (elapsed_ms : T -> T -> double) (r : TestResult)
  (records : list (list Z * list T)) : result TestResult :=
  match records with
  | [] => Ok r
  | (numbers, timestamps) :: records' =>
      r' <- updateCount T elapsed_ms r numbers timestamps ;;
      updateCounts elapsed_ms r' records'
  end.

(** *** The best path of a lane *)

(** What the scan of [findBestPath] holds after the paths [seen]: nothing
    of the target lane at a cost of at most [1e9] yet (and the initial
    values), or the index of a cheapest path of the target lane. *)
Definition best_path_inv {path} (lane_id : path -> Z) (cf : path -> double)
  (target_lane_id : Z) (seen : list path) (min_cost : double) (best_path_id : Z) : Prop :=
  (best_path_id = 0%Z /\ min_cost = 1000000000
   /\ forall q, In q seen -> lane_id q = target_lane_id ->
                Double.ge 1000000000 (cf q) = false)
  \/ (exists p,
        (0 <= best_path_id)%Z
        /\ nth_error seen (Z.to_nat best_path_id) = Some p
        /\ lane_id p = target_lane_id
        /\ cf p = min_cost
        /\ dle min_cost 1000000000
        /\ forall q, In q seen -> lane_id q = target_lane_id -> dle min_cost (cf q)).

(** *** Inputs of the worked examples *)

Module Scenario.

(** The configuration of scenario S1 of the specification. *)
Definition settings : Setting :=
  {| Setting.max_speed := 10; Setting.max_accel := 5; Setting.max_decel := -5;
     Setting.max_curvature := 1; Setting.center_offset := 0;
     Setting.num_width := 3; Setting.max_t := 4; Setting.min_t := 2;
     Setting.num_t := 3; Setting.tick_t := 0.5;
     Setting.highest_speed := 6; Setting.lowest_speed := 4; Setting.num_speed := 3;
     Setting.vehicle_width := 2; Setting.vehicle_length := 4;
     Setting.safety_margin_lon := 0.5; Setting.safety_margin_lat := 0.25;
     Setting.k_jerk := 1; Setting.k_time := 1; Setting.k_diff := 1;
     Setting.k_lat := 1; Setting.k_lon := 1 |}.

(** A trajectory of two ticks: within the limits at the first, at 100 m/s
    at the second. *)
Definition fast_at_last_tick : FrenetPath :=
  set_global
    (set_generated FrenetPath_default
       [0; 0.5] [1; 1] [0; 0] [0; 0] [0; 0] [1; 2] [1; 100] [0; 0] [0; 0] 0 0)
    [1; 2] [1; 1] [0; 0] [1; 1] [0].

(** A trajectory of three ticks within the limits, off the axes. *)
Definition slow : FrenetPath :=
  set_global
    (set_generated FrenetPath_default
       [0; 0.5; 1] [1; 1; 1] [0; 0; 0] [0; 0; 0] [0; 0; 0]
       [1; 2; 3] [2; 2; 2] [0; 0; 0] [0; 0; 0] 0 0)
    [1; 2; 3] [1; 1; 1] [0; 0; 0] [1; 1; 1] [0; 0].

(** An obstacle 15 m ahead on the reference line, at rest (scenario S2). *)
Definition obstacle : DetectedObject :=
  {| DetectedObject.position_x := 15; DetectedObject.position_y := 0;
     DetectedObject.orientation_x := 0; DetectedObject.orientation_y := 0;
     DetectedObject.orientation_z := 0; DetectedObject.orientation_w := 1;
     DetectedObject.linear_x := 0; DetectedObject.linear_y := 0;
     DetectedObject.linear_z := 0;
     DetectedObject.dimensions_x := 4; DetectedObject.dimensions_y := 2 |}.

(** What [predictTrajectories] returns for that obstacle. *)
Definition predicted : list Path :=
  match predictTrajectories Example.extern settings [obstacle] with
  | Ok trajs => trajs
  | Fault _ => []
  end.

(** An ego trajectory of three ticks along y = 5, clear of the obstacle. *)
Definition ego_clear : FrenetPath :=
  set_global FrenetPath_default [1; 2; 3] [5; 5; 5] [0; 0; 0] [1; 1; 1] [0; 0].

(** The waypoints of scenario S1 and the reference curve through them. *)
Definition waypoints : Map :=
  {| Map.x := [0; 10; 20; 30; 40]; Map.y := [0; 0; 0; 0; 0] |}.

Definition reference : Spline2D :=
  match Spline2D_new Example.extern waypoints with
  | Ok sp => sp
  | Fault _ =>
      let empty :=
        {| Spline.x_ := []; Spline.y_ := []; Spline.num_x_ := 0;
           Spline.a_ := []; Spline.b_ := []; Spline.c_ := []; Spline.d_ := [] |} in
      {| Spline2D.s_ := []; Spline2D.sx_ := empty; Spline2D.sy_ := empty |}
  end.

(** A generated candidate whose first lateral sample is NaN, and one whose
    second is. *)
Definition nan_at_first_tick : FrenetPath :=
  set_generated FrenetPath_default
    [0; 0.5] [nan; 1] [0; 0] [0; 0] [0; 0] [1; 2] [2; 2] [0; 0] [0; 0] 0 0.

Definition nan_at_second_tick : FrenetPath :=
  set_generated FrenetPath_default
    [0; 0.5] [1; nan] [0; 0] [0; 0] [0; 0] [1; 2] [2; 2] [0; 0] [0; 0] 0 0.

(** The spline through five knots: x = 0, 10, 20, 30, 40 and
    y = 0, 1, 4, 9, 16. *)
Definition knots_x : list double := [0; 10; 20; 30; 40].
Definition knots_y : list double := [0; 1; 4; 9; 16].

Definition spline : Spline :=
  match Spline_new Example.extern knots_x knots_y with
  | Ok sp => sp
  | Fault _ => Spline2D.sx_ reference
  end.

(** The ego at the left bound of the lane (d = 1), at the highest speed
    sampled, and the grid sampled for it between the bounds -1 and 1. *)
Definition start_left : FrenetState :=
  {| FrenetState.T := 0; FrenetState.s := 0; FrenetState.s_d := 6;
     FrenetState.s_dd := 0; FrenetState.d := 1; FrenetState.d_d := 0;
     FrenetState.d_dd := 0 |}.

Definition search_left : Search :=
  {| Search.trajs := fst (sampleEndStates settings start_left 0 1 (-1) 6);
     Search.candidate_trajs_ := [];
     Search.num_traj := 0 |}.

(** The degenerate grid of scenario S5: two samples along each axis. *)
Definition settings_S5 : Setting :=
  {| Setting.max_speed := 10; Setting.max_accel := 5; Setting.max_decel := -5;
     Setting.max_curvature := 1; Setting.center_offset := 0;
     Setting.num_width := 2; Setting.max_t := 4; Setting.min_t := 2;
     Setting.num_t := 2; Setting.tick_t := 0.5;
     Setting.highest_speed := 6; Setting.lowest_speed := 4; Setting.num_speed := 2;
     Setting.vehicle_width := 2; Setting.vehicle_length := 4;
     Setting.safety_margin_lon := 0.5; Setting.safety_margin_lat := 0.25;
     Setting.k_jerk := 1; Setting.k_time := 1; Setting.k_diff := 1;
     Setting.k_lat := 1; Setting.k_lon := 1 |}.

(** The ego on the reference line at 5 m/s (scenario S1). *)
Definition start_centre : FrenetState :=
  {| FrenetState.T := 0; FrenetState.s := 0; FrenetState.s_d := 5;
     FrenetState.s_dd := 0; FrenetState.d := 0; FrenetState.d_d := 0;
     FrenetState.d_dd := 0 |}.

(** One planning call on the straight road of scenario S1, without
    obstacles, from an empty candidate queue. *)
Definition planned : Planning :=
  match frenetOptimalPlanning Example.extern settings 100 [] reference
          start_centre 0 1 (-1) 5 [] true false with
  | Ok r => r
  | Fault _ =>
      {| Planning.result_ := []; Planning.trajs_3d := []; Planning.num_iter := 0;
         Planning.num_trajs_generated := 0;
         Planning.validation :=
           {| Validation.popped := [];
              Validation.best_traj := None;
              Validation.candidate_trajs_ := [];
              Validation.num_trajs_validated := 0;
              Validation.num_collision_checks := 0 |} |}
  end.

(** The configuration of S1 with a negative jerk weight, and the cell
    (1, 2, 2) of the grid sampled under it as [getTrajAndRealCost]
    materializes it. *)
Definition settings_negative_jerk : Setting :=
  {| Setting.max_speed := 10; Setting.max_accel := 5; Setting.max_decel := -5;
     Setting.max_curvature := 1; Setting.center_offset := 0;
     Setting.num_width := 3; Setting.max_t := 4; Setting.min_t := 2;
     Setting.num_t := 3; Setting.tick_t := 0.5;
     Setting.highest_speed := 6; Setting.lowest_speed := 4; Setting.num_speed := 3;
     Setting.vehicle_width := 2; Setting.vehicle_length := 4;
     Setting.safety_margin_lon := 0.5; Setting.safety_margin_lat := 0.25;
     Setting.k_jerk := -1; Setting.k_time := 1; Setting.k_diff := 1;
     Setting.k_lat := 1; Setting.k_lon := 1 |}.

Definition search_negative_jerk : Search :=
  {| Search.trajs := fst (sampleEndStates settings_negative_jerk start_centre 0 1 (-1) 5);
     Search.candidate_trajs_ := [];
     Search.num_traj := 0 |}.

Definition materialized_negative_jerk : FrenetPath :=
  match getTrajAndRealCost Example.extern settings_negative_jerk 100 start_centre
          search_negative_jerk (1, 2, 2)%Z with
  | Ok (_, search) =>
      match grid_get (Search.trajs search) (1, 2, 2)%Z with
      | Ok p => p
      | Fault _ => FrenetPath_default
      end
  | Fault _ => FrenetPath_default
  end.

(** The candidate that [getTrajAndRealCost] materializes at cell (0, 0, 0)
    of the grid of scenario S5. *)
Definition search_S5 : Search :=
  {| Search.trajs := fst (sampleEndStates settings_S5 start_centre 0 1 (-1) 5);
     Search.candidate_trajs_ := [];
     Search.num_traj := 0 |}.

Definition materialized_S5 : FrenetPath :=
  match getTrajAndRealCost Example.extern settings_S5 100 start_centre
          search_S5 (0, 0, 0)%Z with
  | Ok (_, search) =>
      match grid_get (Search.trajs search) (0, 0, 0)%Z with
      | Ok p => p
      | Fault _ => FrenetPath_default
      end
  | Fault _ => FrenetPath_default
  end.




(** A straight road off the axes, y = 3, and one planning call on it. *)
Definition waypoints_offset : Map :=
  {| Map.x := [1; 11; 21; 31; 41]; Map.y := [3; 3; 3; 3; 3] |}.

Definition reference_offset : Spline2D :=
  match Spline2D_new Example.extern waypoints_offset with
  | Ok sp => sp
  | Fault _ => reference
  end.

Definition planned_offset : Planning :=
  match frenetOptimalPlanning Example.extern settings 100 [] reference_offset
          start_centre 0 1 (-1) 5 [] true false with
  | Ok r => r
  | Fault _ => planned
  end.

End Scenario.

(** *** Inputs of the further worked examples *)

Module Cases.

(** The first visit of the cell (1, 2, 2) of [Scenario.search_left]: its
    cost and the state of the search afterwards. *)
Definition costed : double * Search :=
  match getTrajAndRealCost Example.extern Scenario.settings 100 Scenario.start_left
          Scenario.search_left (1, 2, 2)%Z with
  | Ok r => r
  | Fault _ => (0, Scenario.search_left)
  end.

(** The state of the search after one call of [findNextBest] at (1, 2, 2). *)
Definition stepped : Search :=
  match findNextBest Example.extern Scenario.settings 100 Scenario.start_left
          Scenario.search_left (1, 2, 2)%Z with
  | Ok (_, search, _) => search
  | Fault _ => Scenario.search_left
  end.

(** The trajectory generated in that cell, before and after its conversion
    to the global frame. *)
Definition generated : FrenetPath :=
  match grid_get (Search.trajs (snd costed)) (1, 2, 2)%Z with
  | Ok p => p
  | Fault _ => FrenetPath_default
  end.

Definition converted : FrenetPath :=
  match convertToGlobalFrame Example.extern generated Scenario.reference with
  | Ok p => p
  | Fault _ => generated
  end.

(** The settings of [Scenario.settings] with a tick of [0.0] seconds. *)
Definition settings_zero_tick : Setting :=
  {| Setting.max_speed := 10; Setting.max_accel := 5; Setting.max_decel := -5;
     Setting.max_curvature := 1; Setting.center_offset := 0;
     Setting.num_width := 3; Setting.max_t := 4; Setting.min_t := 2;
     Setting.num_t := 3; Setting.tick_t := 0;
     Setting.highest_speed := 6; Setting.lowest_speed := 4; Setting.num_speed := 3;
     Setting.vehicle_width := 2; Setting.vehicle_length := 4;
     Setting.safety_margin_lon := 0.5; Setting.safety_margin_lat := 0.25;
     Setting.k_jerk := 1; Setting.k_time := 1; Setting.k_diff := 1;
     Setting.k_lat := 1; Setting.k_lon := 1 |}.

Definition search_zero_tick : Search :=
  {| Search.trajs := fst (sampleEndStates settings_zero_tick Scenario.start_left 0 1 (-1) 6);
     Search.candidate_trajs_ := [];
     Search.num_traj := 0 |}.

Definition sampled_zero_tick : FrenetPath :=
  match grid_get (Search.trajs search_zero_tick) (1, 2, 2)%Z with
  | Ok p => p
  | Fault _ => FrenetPath_default
  end.

(** A parked obstacle predicted over three ticks. *)
Definition obstacle_path : Path :=
  {| Path.x := [15; 15; 15]; Path.y := [0; 0; 0]; Path.yaw := [0; 0; 0]; Path.v := [] |}.

(** An ego trajectory that runs into the obstacle at its second tick. *)
Definition ego_hit : FrenetPath :=
  set_global FrenetPath_default [1; 14; 30] [5; 0; 5] [0; 0; 0] [1; 1; 1] [0; 0].

Definition checked_hit : FrenetPath :=
  match checkCollisions Example.extern Scenario.settings ego_hit [obstacle_path]
          [Scenario.obstacle] true 10 with
  | Ok (_, traj, _) => traj
  | Fault _ => ego_hit
  end.

(** One planning call past an obstacle, without the collision check. *)
Definition planned_unchecked : Planning :=
  match frenetOptimalPlanning Example.extern Scenario.settings 100 []
          Scenario.reference_offset Scenario.start_centre 0 1 (-1) 5
          [Scenario.obstacle] false false with
  | Ok r => r
  | Fault _ => Scenario.planned
  end.

(** The course and the reference curve of [Scenario.waypoints]. *)
Definition course : SplineCourse :=
  match calculateSplineCourse Example.extern 1000 Scenario.waypoints 1 with
  | Ok r => r
  | Fault _ =>
      {| SplineCourse.rx := []; SplineCourse.ry := [];
         SplineCourse.ryaw := []; SplineCourse.rk := [] |}
  end.

Definition reference_path : Path :=
  match generateReferenceCurve Example.extern 1000 Scenario.waypoints with
  | Ok (p, _) => p
  | Fault _ => {| Path.x := []; Path.y := []; Path.yaw := []; Path.v := [] |}
  end.

(** Time points in whole milliseconds. *)
Definition elapsed_ms (t2 t1 : Z) : double := Double.of_int (t2 - t1).

(** A [TestResult] of two counters as its constructor leaves it, and a
    record for it. *)
Definition fresh_result : TestResult :=
  {| TestResult.length := 2;
     TestResult.count := 0;
     TestResult.numbers := [0; 0]%Z;
     TestResult.numbers_min := [100000; 100000]%Z;
     TestResult.numbers_max := [0; 0]%Z;
     TestResult.total_numbers := [0; 0]%Z;
     TestResult.time := [0; 0; 0];
     TestResult.time_min := [100000; 100000; 100000];
     TestResult.time_max := [0; 0; 0];
     TestResult.total_time := [0; 0; 0] |}.

Definition record_numbers : list Z := [3; 5]%Z.
Definition record_timestamps : list Z := [0; 10; 30]%Z.

(** Paths of the older planner reduced to their lane and cost. *)
Definition lane_paths : list (Z * double) :=
  [(1%Z, 5); (0%Z, 3); (1%Z, 2); (1%Z, 4)].




End Cases.

(* ================================================================= *)
(** ** Lemmas *)

(** *** Doubles *)

Lemma isnormal_spec x :
  Double.isnormal x = Double.isfinite x && negb (Double.is_tiny x).
Proof.
  unfold Double.isnormal, Double.isfinite, Double.isnan, Double.isinf, Double.is_tiny.
  now destruct (classify x).
Qed.

Lemma SFcompare_key f1 f2 :
  f1 <> S754_nan -> f2 <> S754_nan ->
  SFcompare f1 f2 = Some (lex_compare (key f1) (key f2)).
Proof.
  intros H1 H2.
  destruct f1 as [[]|[]| |[] m1 e1], f2 as [[]|[]| |[] m2 e2];
    try congruence; try reflexivity.
  simpl. rewrite Z.compare_opp, (Z.compare_antisym e1 e2).
  now destruct (e1 ?= e2)%Z.
Qed.

Lemma lex_compare_spec a b :
  lex_compare a b =
  let '(a1, a2, a3) := a in
  let '(b1, b2, b3) := b in
  if (a1 <? b1)%Z then Lt else if (b1 <? a1)%Z then Gt
  else if (a2 <? b2)%Z then Lt else if (b2 <? a2)%Z then Gt
  else if (a3 <? b3)%Z then Lt else if (b3 <? a3)%Z then Gt else Eq.
Proof.
  destruct a as [[a1 a2] a3], b as [[b1 b2] b3]. unfold lex_compare.
  destruct (Z.compare_spec a1 b1), (Z.compare_spec a2 b2), (Z.compare_spec a3 b3);
    repeat match goal with
           | |- context [(?u <? ?v)%Z] => destruct (Z.ltb_spec u v); try lia
           end; reflexivity.
Qed.

Ltac lex_cases :=
  rewrite ?lex_compare_spec in *;
  repeat match goal with
         | p : (Z * Z * Z)%type |- _ => destruct p as [[? ?] ?]
         end;
  repeat match goal with
         | |- context [(?u <? ?v)%Z] => destruct (Z.ltb_spec u v)
         | H : context [(?u <? ?v)%Z] |- _ => destruct (Z.ltb_spec u v)
         end;
  try congruence; try lia.

Lemma lex_compare_trans a b c :
  lex_compare a b <> Gt -> lex_compare b c <> Gt -> lex_compare a c <> Gt.
Proof. lex_cases. Qed.

Lemma lex_compare_total a b : lex_compare a b <> Lt -> lex_compare b a <> Gt.
Proof. lex_cases. Qed.

Lemma lex_compare_refl a : lex_compare a a = Eq.
Proof. lex_cases. Qed.

Lemma isnan_Prim2SF x : Double.isnan x = false <-> Prim2SF x <> S754_nan.
Proof.
  unfold Double.isnan. rewrite classify_spec. unfold SF64classify, SFclassify.
  destruct (Prim2SF x) as [[]|[]| |[] m e]; try (split; congruence);
    destruct (Z.eqb _ _); split; congruence.
Qed.

Lemma leb_key x y :
  Double.isnan x = false -> Double.isnan y = false ->
  (x <=? y) = true <-> lex_compare (key (Prim2SF x)) (key (Prim2SF y)) <> Gt.
Proof.
  intros Hx Hy. apply isnan_Prim2SF in Hx, Hy.
  rewrite leb_spec. unfold SFleb. rewrite (SFcompare_key _ _ Hx Hy).
  destruct (lex_compare _ _); split; congruence.
Qed.

Lemma ltb_key x y :
  Double.isnan x = false -> Double.isnan y = false ->
  (x <? y) = true <-> lex_compare (key (Prim2SF x)) (key (Prim2SF y)) = Lt.
Proof.
  intros Hx Hy. apply isnan_Prim2SF in Hx, Hy.
  rewrite ltb_spec. unfold SFltb. rewrite (SFcompare_key _ _ Hx Hy).
  destruct (lex_compare _ _); split; congruence.
Qed.

Lemma leb_not_nan x y : (x <=? y) = true -> Double.isnan x = false /\ Double.isnan y = false.
Proof.
  rewrite leb_spec. unfold SFleb. rewrite !isnan_Prim2SF.
  destruct (Prim2SF x), (Prim2SF y); simpl; try discriminate; split; congruence.
Qed.

Lemma ltb_not_nan x y : (x <? y) = true -> Double.isnan x = false /\ Double.isnan y = false.
Proof.
  rewrite ltb_spec. unfold SFltb. rewrite !isnan_Prim2SF.
  destruct (Prim2SF x), (Prim2SF y); simpl; try discriminate; split; congruence.
Qed.

Lemma dle_refl x : Double.isnan x = false -> dle x x.
Proof.
  intros H. unfold dle. rewrite (leb_key _ _ H H), lex_compare_refl. congruence.
Qed.

Lemma dle_trans x y z : dle x y -> dle y z -> dle x z.
Proof.
  unfold dle. intros Hxy Hyz.
  destruct (leb_not_nan _ _ Hxy) as [Hx Hy], (leb_not_nan _ _ Hyz) as [_ Hz].
  rewrite leb_key in * by assumption. eauto using lex_compare_trans.
Qed.

Lemma ltb_false_dle x y :
  Double.isnan x = false -> Double.isnan y = false -> (x <? y) = false -> dle y x.
Proof.
  intros Hx Hy H. unfold dle. rewrite (leb_key _ _ Hy Hx).
  apply lex_compare_total. rewrite <- (ltb_key _ _ Hx Hy). congruence.
Qed.

Lemma ltb_dle x y : (x <? y) = true -> dle x y.
Proof.
  intros H. destruct (ltb_not_nan _ _ H) as [Hx Hy].
  unfold dle. rewrite (leb_key _ _ Hx Hy). rewrite (ltb_key _ _ Hx Hy) in H. congruence.
Qed.

(** *** Rounding to a double *)

Section Rounding.

Local Open Scope Z_scope.

Lemma fexp_format_exponent k : fexp prec emax k = format_exponent k.
Proof. reflexivity. Qed.

Lemma format_exponent_mono a b : a <= b -> format_exponent a <= format_exponent b.
Proof. unfold format_exponent. lia. Qed.

Lemma digits_pos m : 1 <= digits m.
Proof. unfold digits. lia. Qed.

Lemma digits_bounds m : 2 ^ (digits m - 1) <= Zpos m < 2 ^ digits m.
Proof.
  unfold digits. induction m as [m IH|m IH|]; cbn [digits2_pos].
  - rewrite Pos2Z.inj_succ.
    replace (Z.succ (Zpos (digits2_pos m)) - 1) with (Z.succ (Zpos (digits2_pos m) - 1)) by lia.
    rewrite !Z.pow_succ_r by lia. lia.
  - rewrite Pos2Z.inj_succ.
    replace (Z.succ (Zpos (digits2_pos m)) - 1) with (Z.succ (Zpos (digits2_pos m) - 1)) by lia.
    rewrite !Z.pow_succ_r by lia. lia.
  - cbn. lia.
Qed.

Lemma digits_le_pow m n : 0 <= n -> Zpos m < 2 ^ n -> digits m <= n.
Proof.
  intros Hn H. pose proof (digits_bounds m) as [Hl _].
  assert (H0 : 2 ^ (digits m - 1) < 2 ^ n) by lia.
  apply Z.pow_lt_mono_r_iff in H0; lia.
Qed.

Lemma digits_ge_pow m n : 0 <= n -> 2 ^ n <= Zpos m -> n + 1 <= digits m.
Proof.
  intros Hn H. pose proof (digits_bounds m) as [_ Hu]. pose proof (digits_pos m) as Hd.
  assert (H0 : 2 ^ n < 2 ^ digits m) by lia.
  apply Z.pow_lt_mono_r_iff in H0; lia.
Qed.

Lemma digits_mono a b : Zpos a <= Zpos b -> digits a <= digits b.
Proof.
  intros H. pose proof (digits_bounds b) as [_ Hb].
  apply digits_le_pow; [pose proof (digits_pos b); lia|lia].
Qed.

Lemma pow2_pos n : 0 <= n -> 0 < 2 ^ n.
Proof. intros. apply Z.pow_pos_nonneg; lia. Qed.

Lemma pow2_split a b : 0 <= a -> 0 <= b -> 2 ^ (a + b) = 2 ^ a * 2 ^ b.
Proof. intros. apply Z.pow_add_r; assumption. Qed.

(** [shr_1] halves the mantissa. *)
Lemma shr_1_m r : 0 <= shr_m r -> shr_m (shr_1 r) = shr_m r / 2 /\ 0 <= shr_m (shr_1 r).
Proof.
  destruct r as [m rb sb]. cbn [shr_m]. intros Hm.
  destruct m as [|[p|p|]|p]; cbn [shr_1 shr_m]; try lia; (split; [|lia]).
  - reflexivity.
  - apply Z.div_unique with 1; lia.
  - apply Z.div_unique with 0; lia.
  - reflexivity.
Qed.

Lemma iter_shr_1_m p : forall r, 0 <= shr_m r ->
  shr_m (iter_pos shr_1 p r) = shr_m r / 2 ^ Zpos p /\ 0 <= shr_m (iter_pos shr_1 p r).
Proof.
  induction p as [p IH|p IH|]; intros r Hr; cbn [iter_pos].
  - destruct (shr_1_m r Hr) as [E1 P1].
    destruct (IH _ P1) as [E2 P2]. destruct (IH _ P2) as [E3 P3].
    split; [|exact P3]. rewrite E3, E2, E1.
    rewrite !Z.div_div by (try apply pow2_pos; lia).
    f_equal. replace (Z.pos p~1) with (1 + Z.pos p + Z.pos p) by lia.
    rewrite !pow2_split, Z.pow_1_r by lia. apply Z.mul_assoc.
  - destruct (IH _ Hr) as [E2 P2]. destruct (IH _ P2) as [E3 P3].
    split; [|exact P3]. rewrite E3, E2.
    rewrite !Z.div_div by (try apply pow2_pos; lia).
    f_equal. replace (Z.pos p~0) with (Z.pos p + Z.pos p) by lia.
    rewrite !pow2_split by lia. reflexivity.
  - destruct (shr_1_m r Hr) as [E1 P1]. split; [|exact P1]. rewrite E1. reflexivity.
Qed.

(** [shr] by [n] places divides the mantissa by [2^n]. *)
Lemma shr_spec r e n : 0 <= shr_m r -> 0 <= n ->
  shr_m (fst (shr r e n)) = shr_m r / 2 ^ n /\ snd (shr r e n) = e + n.
Proof.
  intros Hr Hn. destruct n as [|p|p]; cbn [shr fst snd].
  - rewrite Z.pow_0_r, Z.div_1_r. lia.
  - split; [apply iter_shr_1_m; exact Hr|reflexivity].
  - lia.
Qed.

Lemma shr_none r e n : n <= 0 -> shr r e n = (r, e).
Proof. destruct n as [|p|p]; [reflexivity|lia|reflexivity]. Qed.

Lemma shr_record_of_loc_m m l : shr_m (shr_record_of_loc m l) = m.
Proof. destruct l as [|[| |]]; reflexivity. Qed.

Lemma round_nearest_even_bounds m l :
  m <= round_nearest_even m l <= m + 1.
Proof.
  destruct l as [|[| |]]; cbn [round_nearest_even]; try lia.
  destruct (Z.even m); lia.
Qed.

Lemma binary_round_aux_finish s mx ex lx :
  binary_round_aux prec emax s mx ex lx
  = round_finish s
      (round_nearest_even (shr_m (fst (shr_fexp prec emax mx ex lx)))
         (loc_of_shr_record (fst (shr_fexp prec emax mx ex lx))))
      (snd (shr_fexp prec emax mx ex lx)).
Proof.
  unfold binary_round_aux, round_finish.
  destruct (shr_fexp prec emax mx ex lx) as [mrs' e']. reflexivity.
Qed.

Lemma binary_round_aux_exact s m e :
  e <= format_exponent (digits m + e) ->
  exists m1,
    Zpos m / 2 ^ (format_exponent (digits m + e) - e) <= m1
    /\ m1 <= Zpos m / 2 ^ (format_exponent (digits m + e) - e) + 1
    /\ binary_round_aux prec emax s (Zpos m) e loc_Exact
       = round_finish s m1 (format_exponent (digits m + e)).
Proof.
  intros Hn. rewrite binary_round_aux_finish.
  unfold shr_fexp. change (fexp prec emax) with format_exponent. cbn [Zdigits2].
  fold (digits m).
  destruct (shr_spec (shr_record_of_loc (Zpos m) loc_Exact) e
              (format_exponent (digits m + e) - e)) as [Hm He];
    [cbn; lia|lia|].
  rewrite He. cbn [shr_record_of_loc shr_m] in Hm.
  replace (e + (format_exponent (digits m + e) - e))
    with (format_exponent (digits m + e)) by lia.
  eexists. split; [|split; [|reflexivity]];
    rewrite <- Hm; apply round_nearest_even_bounds.
Qed.

Lemma round_finish_zero s e1 : round_finish s 0 e1 = S754_zero s.
Proof.
  unfold round_finish, shr_fexp. change (fexp prec emax) with format_exponent.
  set (n := format_exponent (Zdigits2 0 + e1) - e1).
  destruct (Z.le_gt_cases n 0) as [Hn|Hn].
  - rewrite shr_none by exact Hn. reflexivity.
  - destruct (shr_spec (shr_record_of_loc 0 loc_Exact) e1 n) as [Hm He];
      [cbn; lia|lia|].
    destruct (shr _ e1 n) as [mrs e2]. cbn [fst snd] in Hm, He.
    rewrite Hm. cbn [shr_record_of_loc shr_m]. rewrite Z.div_0_l; [reflexivity|].
    pose proof (pow2_pos n). lia.
Qed.

Lemma round_finish_fits s q e1 :
  format_exponent (digits q + e1) <= e1 ->
  round_finish s (Zpos q) e1
  = if e1 <=? emax - prec then S754_finite s q e1 else S754_infinity s.
Proof.
  intros Hn. unfold round_finish, shr_fexp. change (fexp prec emax) with format_exponent.
  cbn [Zdigits2]. fold (digits q). rewrite shr_none by lia. reflexivity.
Qed.

Lemma round_finish_shift s q e1 :
  e1 < format_exponent (digits q + e1) ->
  round_finish s (Zpos q) e1
  = match Zpos q / 2 ^ (format_exponent (digits q + e1) - e1) with
    | Z0 => S754_zero s
    | Zpos m =>
        if format_exponent (digits q + e1) <=? emax - prec
        then S754_finite s m (format_exponent (digits q + e1))
        else S754_infinity s
    | _ => S754_nan
    end.
Proof.
  intros Hn. unfold round_finish, shr_fexp. change (fexp prec emax) with format_exponent.
  cbn [Zdigits2]. fold (digits q).
  destruct (shr_spec (shr_record_of_loc (Zpos q) loc_Exact) e1
              (format_exponent (digits q + e1) - e1)) as [Hm He];
    [cbn; lia|lia|].
  destruct (shr _ e1 _) as [mrs e2]. cbn [fst snd] in Hm, He.
  rewrite Hm, He. cbn [shr_record_of_loc shr_m].
  replace (e1 + (format_exponent (digits q + e1) - e1))
    with (format_exponent (digits q + e1)) by lia.
  reflexivity.
Qed.

Lemma div_pow2_large q n :
  0 <= n -> n + 53 <= digits q -> 2 ^ 52 <= Zpos q / 2 ^ (digits q - 53).
Proof.
  intros Hn Hd. pose proof (digits_bounds q) as [Hl _].
  apply Z.div_le_lower_bound; [apply pow2_pos; lia|].
  rewrite <- pow2_split by lia.
  replace (digits q - 53 + 52) with (digits q - 1) by lia. exact Hl.
Qed.

Lemma round_finish_above s q e1 mx ex :
  -1074 <= e1 ->
  e1 <= format_exponent (digits q + e1) ->
  ex < e1 \/ (ex = e1 /\ Zpos mx <= Zpos q) ->
  magnitude_above s mx ex (round_finish s (Zpos q) e1).
Proof.
  intros Hmin Hn Hex.
  destruct (Z.eq_dec (format_exponent (digits q + e1)) e1) as [Heq|Hne].
  - rewrite round_finish_fits by lia.
    destruct (e1 <=? emax - prec); [right|left; reflexivity].
    exists q, e1. split; [reflexivity|exact Hex].
  - rewrite round_finish_shift by lia.
    assert (Hf : format_exponent (digits q + e1) = digits q + e1 - 53)
      by (unfold format_exponent in *; lia).
    rewrite Hf in *.
    replace (digits q + e1 - 53 - e1) with (digits q - 53) by lia.
    pose proof (div_pow2_large q 0 ltac:(lia) ltac:(lia)) as Hq.
    destruct (Zpos q / 2 ^ (digits q - 53)) as [|mr|mr]; [cbn in Hq; lia| |lia].
    destruct (_ <=? emax - prec); [right|left; reflexivity].
    exists mr, (digits q + e1 - 53). split; [reflexivity|left; lia].
Qed.

Lemma round_finish_below s m1 e1 mx ex :
  format_exponent (digits mx + ex) = ex -> ex <= emax - prec ->
  0 <= m1 -> -1074 <= e1 ->
  (m1 <= 2 ^ 53 /\ e1 < ex) \/ (e1 = ex /\ m1 <= Zpos mx) ->
  magnitude_below s mx ex (round_finish s m1 e1).
Proof.
  intros Hc Hmax Hm Hmin Hcase.
  destruct m1 as [|q|q]; [rewrite round_finish_zero; now left| |lia].
  destruct Hcase as [[Hq He]|[-> Hq]].
  - destruct (Z.lt_ge_cases (Zpos q) (2 ^ 53)) as [Hlt|Hge].
    + pose proof (digits_le_pow q 53 ltac:(lia) Hlt) as Hd.
      rewrite round_finish_fits by (unfold format_exponent; lia).
      replace (e1 <=? emax - prec) with true by (symmetry; apply Z.leb_le; lia).
      right. exists q, e1. split; [reflexivity|left; exact He].
    + assert (Hd : digits q = 54).
      { pose proof (digits_ge_pow q 53 ltac:(lia) Hge).
        pose proof (digits_le_pow q 54 ltac:(lia) ltac:(cbn in *; lia)). lia. }
      rewrite round_finish_shift by (rewrite Hd; unfold format_exponent; lia).
      rewrite Hd.
      replace (format_exponent (54 + e1)) with (e1 + 1)
        by (unfold format_exponent; lia).
      replace (e1 + 1 - e1) with 1 by lia.
      replace (Zpos q) with (2 ^ 53) by lia.
      change (2 ^ 53 / 2 ^ 1) with (Zpos (Pos.pow 2 52)).
      replace (e1 + 1 <=? emax - prec) with true by (symmetry; apply Z.leb_le; lia).
      right. eexists _, (e1 + 1). split; [reflexivity|].
      destruct (Z.eq_dec (e1 + 1) ex) as [Heq|Hne]; [right|left; lia].
      split; [exact Heq|].
      assert (Hdx : digits mx = 53) by (unfold format_exponent in Hc; lia).
      pose proof (digits_bounds mx) as [Hl _]. rewrite Hdx in Hl.
      change (Zpos (Pos.pow 2 52)) with (2 ^ (53 - 1)). exact Hl.
  - pose proof (digits_mono q mx Hq) as Hd.
    rewrite round_finish_fits
      by (rewrite <- Hc at 2; apply format_exponent_mono; lia).
    replace (ex <=? emax - prec) with true by (symmetry; apply Z.leb_le; lia).
    right. exists q, ex. split; [reflexivity|right; split; [reflexivity|exact Hq]].
Qed.

Lemma iter_xO mx d : Zpos (Pos.iter xO mx d) = Zpos mx * 2 ^ Zpos d.
Proof.
  induction d as [|d IH] using Pos.peano_ind.
  - cbn [Pos.iter]. rewrite Z.pow_1_r. lia.
  - rewrite Pos.iter_succ, Pos2Z.inj_succ, Z.pow_succ_r by lia. lia.
Qed.

Lemma shl_align_spec mx ex ez :
  snd (shl_align mx ex ez) = Z.min ex ez
  /\ Zpos (fst (shl_align mx ex ez)) = Zpos mx * 2 ^ (ex - Z.min ex ez).
Proof.
  unfold shl_align. destruct (ez - ex) as [|d|d] eqn:Hd; cbn [fst snd].
  - replace (Z.min ex ez) with ex by lia. rewrite Z.sub_diag, Z.pow_0_r. lia.
  - replace (Z.min ex ez) with ex by lia. rewrite Z.sub_diag, Z.pow_0_r. lia.
  - replace (Z.min ex ez) with ez by lia. split; [reflexivity|].
    rewrite iter_xO. f_equal. f_equal. lia.
Qed.

Lemma digits_shift m mz k :
  0 <= k -> Zpos mz = Zpos m * 2 ^ k -> digits mz = digits m + k.
Proof.
  intros Hk Hm. pose proof (digits_bounds m) as [Hl Hu].
  pose proof (digits_pos m) as Hp. pose proof (pow2_pos k Hk) as H2.
  assert (2 ^ (digits m - 1 + k) <= Zpos mz).
  { rewrite pow2_split, Hm by lia. apply Z.mul_le_mono_nonneg_r; lia. }
  assert (Zpos mz < 2 ^ (digits m + k)).
  { rewrite pow2_split, Hm by lia. apply Z.mul_lt_mono_pos_r; lia. }
  pose proof (digits_ge_pow mz (digits m - 1 + k) ltac:(lia) ltac:(assumption)).
  pose proof (digits_le_pow mz (digits m + k) ltac:(lia) ltac:(assumption)).
  lia.
Qed.

(** Rounding a value at least as large as a double gives a double at
    least as large. *)
Lemma binary_round_above s m e mx ex :
  format_exponent (digits mx + ex) = ex ->
  e <= ex -> Zpos mx * 2 ^ (ex - e) <= Zpos m ->
  magnitude_above s mx ex (binary_round prec emax s m e).
Proof.
  intros Hc He Hm.
  pose proof (digits_bounds mx) as [Hl _]. pose proof (digits_pos mx) as Hp.
  pose proof (pow2_pos (ex - e) ltac:(lia)) as H2.
  assert (Hd : digits mx + (ex - e) <= digits m).
  { replace (digits mx + (ex - e)) with (digits mx - 1 + (ex - e) + 1) by lia.
    apply digits_ge_pow; [lia|]. rewrite pow2_split by lia.
    etransitivity; [|exact Hm]. apply Z.mul_le_mono_nonneg_r; lia. }
  assert (HF : ex <= format_exponent (digits m + e))
    by (rewrite <- Hc at 1; apply format_exponent_mono; lia).
  unfold binary_round. change (fexp prec emax) with format_exponent.
  fold (digits m).
  pose proof (shl_align_spec m e (format_exponent (digits m + e))) as [Hs1 Hs2].
  destruct (shl_align m e _) as [mz ez]. cbn [fst snd] in Hs1, Hs2.
  replace (Z.min e (format_exponent (digits m + e))) with e in * by lia.
  subst ez. rewrite Z.sub_diag, Z.pow_0_r, Z.mul_1_r in Hs2.
  injection Hs2 as ->.
  destruct (binary_round_aux_exact s m e ltac:(lia)) as (m1 & Hlo & _ & ->).
  set (F := format_exponent (digits m + e)) in *.
  assert (Hmin : -1074 <= F) by (unfold F, format_exponent; lia).
  assert (Hbig : -1074 < F -> 2 ^ 52 <= m1).
  { intros HF'. assert (HFe : F = digits m + e - 53)
      by (unfold F, format_exponent in *; lia).
    etransitivity; [|exact Hlo]. rewrite HFe.
    replace (digits m + e - 53 - e) with (digits m - 53) by lia.
    apply (div_pow2_large m 0); lia. }
  assert (Hmx : F = ex -> Zpos mx <= m1).
  { intros HFx. etransitivity; [|exact Hlo]. rewrite HFx.
    apply Z.div_le_lower_bound; [exact H2|]. rewrite Z.mul_comm. exact Hm. }
  assert (Hpos : 0 < m1).
  { destruct (Z.eq_dec F ex) as [HFx|HFx]; [specialize (Hmx HFx); lia|].
    assert (-1074 < F) by (unfold format_exponent in Hc; lia).
    specialize (Hbig ltac:(assumption)). cbn in Hbig. lia. }
  destruct m1 as [|q|q]; [lia| |lia].
  apply round_finish_above; [exact Hmin| |].
  - destruct (Z.eq_dec F (-1074)) as [HF'|HF'];
      [unfold format_exponent; lia|].
    specialize (Hbig ltac:(lia)).
    pose proof (digits_ge_pow q 52 ltac:(lia) Hbig).
    unfold format_exponent. lia.
  - destruct (Z.eq_dec F ex) as [HFx|HFx]; [right|left; lia].
    split; [now symmetry|now apply Hmx].
Qed.

(** Rounding a value smaller than a double gives a double at most as
    large. *)
Lemma binary_round_below s m e mx ex :
  format_exponent (digits mx + ex) = ex -> ex <= emax - prec ->
  e <= ex -> Zpos m < Zpos mx * 2 ^ (ex - e) ->
  magnitude_below s mx ex (binary_round prec emax s m e).
Proof.
  intros Hc Hmax He Hm.
  pose proof (digits_bounds mx) as [_ Hu]. pose proof (digits_pos mx) as Hp.
  pose proof (pow2_pos (ex - e) ltac:(lia)) as H2.
  assert (Hd : digits m <= digits mx + (ex - e)).
  { apply digits_le_pow; [lia|]. rewrite pow2_split by lia.
    etransitivity; [exact Hm|]. apply Z.mul_lt_mono_pos_r; lia. }
  assert (HF : format_exponent (digits m + e) <= ex)
    by (rewrite <- Hc; apply format_exponent_mono; lia).
  unfold binary_round. change (fexp prec emax) with format_exponent.
  fold (digits m).
  set (F := format_exponent (digits m + e)) in *.
  assert (Hmin : -1074 <= F) by (unfold F, format_exponent; lia).
  pose proof (shl_align_spec m e F) as [Hs1 Hs2].
  destruct (shl_align m e F) as [mz ez]. cbn [fst snd] in Hs1, Hs2.
  rewrite <- Hs1 in Hs2.
  pose proof (digits_shift m mz (e - ez) ltac:(lia) Hs2) as Hdz.
  assert (HFz : format_exponent (digits mz + ez) = F)
    by (unfold F; f_equal; lia).
  destruct (binary_round_aux_exact s mz ez ltac:(lia)) as (m1 & Hlo & Hhi & ->).
  rewrite HFz in *.
  pose proof (pow2_pos (F - ez) ltac:(lia)) as H2'.
  pose proof (pow2_pos (e - ez) ltac:(lia)) as H2''.
  assert (H0 : 0 <= Zpos mz / 2 ^ (F - ez)) by (apply Z.div_pos; lia).
  apply round_finish_below; [exact Hc|exact Hmax|lia|exact Hmin|].
  destruct (Z.eq_dec F ex) as [HFx|HFx]; [right|left].
  - split; [exact HFx|].
    assert (Zpos mz / 2 ^ (F - ez) < Zpos mx); [|lia].
    apply Z.div_lt_upper_bound; [exact H2'|].
    rewrite Hs2, HFx.
    replace (ex - ez) with (ex - e + (e - ez)) by lia.
    rewrite pow2_split by lia.
    rewrite (Z.mul_comm (2 ^ (ex - e) * 2 ^ (e - ez))), Z.mul_assoc.
    apply Z.mul_lt_mono_pos_r; [exact H2''|exact Hm].
  - split; [|lia].
    assert (Zpos mz / 2 ^ (F - ez) < 2 ^ 53); [|lia].
    apply Z.div_lt_upper_bound; [exact H2'|].
    pose proof (digits_bounds mz) as [_ Huz].
    apply Z.lt_le_trans with (2 ^ digits mz); [exact Huz|].
    rewrite <- pow2_split by lia. apply Z.pow_le_mono_r; [lia|].
    unfold F, format_exponent in *. lia.
Qed.

Lemma round_finish_sign s m1 e1 : has_sign s (round_finish s m1 e1).
Proof.
  unfold round_finish. destruct (shr_fexp prec emax m1 e1 loc_Exact) as [mrs e2].
  destruct (shr_m mrs); cbn [has_sign]; [reflexivity| |exact I].
  destruct (e2 <=? emax - prec); reflexivity.
Qed.

Lemma binary_round_aux_sign s m e l : has_sign s (binary_round_aux prec emax s m e l).
Proof. rewrite binary_round_aux_finish. apply round_finish_sign. Qed.

Lemma binary_round_sign s m e : has_sign s (binary_round prec emax s m e).
Proof.
  unfold binary_round. destruct (shl_align m e _) as [mz ez].
  apply binary_round_aux_sign.
Qed.

Lemma has_sign_not_negative r : has_sign false r -> not_negative r.
Proof. destruct r; cbn; auto. Qed.

Lemma SFmul_not_negative a b :
  not_negative a -> not_negative b -> not_negative (SFmul prec emax a b).
Proof.
  destruct a as [sa|sa| |sa ma ea], b as [sb|sb| |sb mb eb];
    cbn [SFmul not_negative]; intros Ha Hb; subst; try exact I; try reflexivity.
  apply has_sign_not_negative, binary_round_aux_sign.
Qed.

Lemma SFmul_square a : not_negative (SFmul prec emax a a).
Proof.
  destruct a as [sa|sa| |sa ma ea]; cbn [SFmul not_negative];
    try exact I; try (now destruct sa).
  apply has_sign_not_negative. rewrite xorb_nilpotent. apply binary_round_aux_sign.
Qed.

Lemma SFadd_not_negative a b :
  not_negative a -> not_negative b -> not_negative (SFadd prec emax a b).
Proof.
  destruct a as [sa|sa| |sa ma ea], b as [sb|sb| |sb mb eb];
    cbn [SFadd not_negative]; intros Ha Hb; subst; try exact I; try reflexivity.
  - destruct sa, sb; exact I.
  - cbn [cond_Zopp Z.add binary_normalize].
    apply has_sign_not_negative, binary_round_sign.
Qed.

Lemma SFleb_refl x : x <> S754_nan -> SFleb x x = true.
Proof.
  destruct x as [s|s| |s m e]; intros Hx; try reflexivity; [now destruct s|easy|].
  unfold SFleb, SFcompare. rewrite Z.compare_refl, Pos.compare_cont_refl.
  now destruct s.
Qed.

Lemma magnitude_above_leb mx ex r :
  magnitude_above false mx ex r -> SFleb (S754_finite false mx ex) r = true.
Proof.
  intros [->|(mr & er & -> & H)]; [reflexivity|].
  unfold SFleb, SFcompare. destruct H as [H|[<- H]].
  - apply Z.compare_lt_iff in H. now rewrite H.
  - rewrite Z.compare_refl. fold (Pos.compare mx mr).
    change ((mx ?= mr)%positive <> Gt) in H.
    destruct (Pos.compare mx mr); [reflexivity|reflexivity|now elim H].
Qed.

Lemma magnitude_below_leb mx ex r :
  magnitude_below true mx ex r -> SFleb (S754_finite true mx ex) r = true.
Proof.
  intros [->|(mr & er & -> & H)]; [reflexivity|].
  unfold SFleb, SFcompare. destruct H as [H|[-> H]].
  - apply Z.compare_gt_iff in H. now rewrite H.
  - rewrite Z.compare_refl. fold (Pos.compare mx mr).
    apply Z.le_ge in H. change ((mx ?= mr)%positive <> Lt) in H.
    destruct (Pos.compare mx mr); [reflexivity|now elim H|reflexivity].
Qed.

Lemma has_sign_false_leb mx ex r :
  has_sign false r -> r <> S754_nan -> SFleb (S754_finite true mx ex) r = true.
Proof. destruct r as [s|s| |s m e]; cbn [has_sign]; intros Hs Hr; subst; easy. Qed.

(** Adding a value that is not negative does not decrease a double. *)
Lemma SFadd_not_below x y :
  valid_binary x = true -> not_negative y ->
  SFadd prec emax x y <> S754_nan ->
  SFleb x (SFadd prec emax x y) = true.
Proof.
  intros Hv Hy Hnan.
  destruct y as [sy|sy| |sy my ey]; cbn [not_negative] in Hy.
  - destruct x as [sx|sx| |sx mx ex]; cbn [SFadd] in *;
      try apply SFleb_refl; try easy.
    destruct sx, sy; reflexivity.
  - subst sy. destruct x as [sx|sx| |sx mx ex]; cbn [SFadd] in *;
      try reflexivity; try easy; now destruct sx.
  - destruct x; cbn [SFadd] in Hnan; easy.
  - subst sy. destruct x as [sx|sx| |sx mx ex]; cbn [SFadd] in *;
      try reflexivity; try easy; [now destruct sx|].
    cbn [SpecFloat.valid_binary] in Hv. unfold bounded, canonical_mantissa in Hv.
    change (fexp prec emax) with format_exponent in Hv. fold (digits mx) in Hv.
    apply andb_true_iff in Hv. destruct Hv as [Hc Hmax].
    apply Z.eqb_eq in Hc. apply Z.leb_le in Hmax.
    pose proof (shl_align_spec mx ex (Z.min ex ey)) as [_ Hx].
    pose proof (shl_align_spec my ey (Z.min ex ey)) as [_ Hy].
    replace (Z.min ex (Z.min ex ey)) with (Z.min ex ey) in Hx by lia.
    replace (Z.min ey (Z.min ex ey)) with (Z.min ex ey) in Hy by lia.
    set (a := fst (shl_align mx ex (Z.min ex ey))) in *.
    set (b := fst (shl_align my ey (Z.min ex ey))) in *.
    destruct sx; cbn [cond_Zopp] in *.
    + destruct (- Zpos a + Zpos b) as [|p|p] eqn:Hs; cbn [binary_normalize] in *.
      * reflexivity.
      * apply has_sign_false_leb; [apply binary_round_sign|exact Hnan].
      * apply magnitude_below_leb, binary_round_below; [exact Hc|exact Hmax|lia|].
        rewrite <- Hx. lia.
    + change (Zpos a + Zpos b) with (Zpos (a + b)) in *.
      cbn [binary_normalize] in *.
      apply magnitude_above_leb, binary_round_above; [exact Hc|lia|].
      rewrite <- Hx. lia.
Qed.

End Rounding.

Lemma leb_zero_not_negative (k : float) :
  (0 <=? k) = true -> not_negative (Prim2SF k).
Proof.
  rewrite leb_spec. change (Prim2SF 0) with (S754_zero false).
  destruct (Prim2SF k) as [s|s| |s m e]; cbn; try easy; now destruct s.
Qed.

Lemma mul_not_negative (a b : float) :
  not_negative (Prim2SF a) -> not_negative (Prim2SF b) -> not_negative (Prim2SF (a * b)).
Proof. rewrite mul_spec. apply SFmul_not_negative. Qed.

Lemma add_not_negative (a b : float) :
  not_negative (Prim2SF a) -> not_negative (Prim2SF b) -> not_negative (Prim2SF (a + b)).
Proof. rewrite add_spec. apply SFadd_not_negative. Qed.

Lemma square_not_negative (a : float) : not_negative (Prim2SF (a * a)).
Proof. rewrite mul_spec. apply SFmul_square. Qed.

Lemma add_not_below (x y : float) :
  not_negative (Prim2SF y) -> Prim2SF (x + y) <> S754_nan ->
  (x <=? x + y) = true.
Proof.
  intros Hy Hnan. rewrite leb_spec. rewrite add_spec in *.
  apply SFadd_not_below; [apply Prim2SF_valid|exact Hy|exact Hnan].
Qed.

(** *** Vectors *)

Lemma vec_get_nth {A} (v : list A) (i : nat) (d : A) :
  (i < length v)%nat -> vec_get v (Z.of_nat i) = Ok (nth i v d).
Proof.
  intros H. unfold vec_get.
  destruct (Z.ltb_spec (Z.of_nat i) 0); [lia|].
  rewrite Nat2Z.id.
  destruct (nth_error v i) eqn:Hn.
  - now rewrite (nth_error_nth _ _ d Hn).
  - apply nth_error_None in Hn. lia.
Qed.

Lemma vec_get_nat {A} (v : list A) (i : nat) :
  vec_get v (Z.of_nat i)
  = match nth_error v i with Some a => Ok a | None => Fault out_of_bounds end.
Proof.
  unfold vec_get. destruct (Z.ltb_spec (Z.of_nat i) 0); [lia|].
  now rewrite Nat2Z.id.
Qed.

Lemma vec_get_out {A} (v : list A) (i : Z) :
  (Z.of_nat (length v) <= i)%Z -> vec_get v i = Fault out_of_bounds.
Proof.
  intros H. unfold vec_get.
  destruct (Z.ltb_spec i 0); [reflexivity|].
  destruct (nth_error v (Z.to_nat i)) eqn:Hn; [|reflexivity].
  assert (Z.to_nat i < length v)%nat by (apply nth_error_Some; congruence). lia.
Qed.

Lemma vec_at_nth {A} (v : list A) (i : nat) (d : A) :
  (i < length v)%nat -> vec_at v (Z.of_nat i) = Ok (nth i v d).
Proof.
  intros H. unfold vec_at.
  destruct (Z.ltb_spec (Z.of_nat i) 0); [lia|].
  rewrite Nat2Z.id.
  destruct (nth_error v i) eqn:Hn.
  - now rewrite (nth_error_nth _ _ d Hn).
  - apply nth_error_None in Hn. lia.
Qed.

Lemma vec_at_out {A} (v : list A) (i : Z) :
  (Z.of_nat (length v) <= i)%Z -> vec_at v i = Fault out_of_range.
Proof.
  intros H. unfold vec_at.
  destruct (Z.ltb_spec i 0); [reflexivity|].
  destruct (nth_error v (Z.to_nat i)) eqn:Hn; [|reflexivity].
  assert (Z.to_nat i < length v)%nat by (apply nth_error_Some; congruence). lia.
Qed.

Lemma vec_at_fault {A} (v : list A) (i : Z) (f : fault) :
  vec_at v i = Fault f -> f = out_of_range.
Proof.
  unfold vec_at. destruct (i <? 0)%Z; [congruence|].
  destruct (nth_error v (Z.to_nat i)); congruence.
Qed.

(** *** checkConstraints *)

Lemma checkConstraints_loop_spec st traj n : forall k,
  (k + n <= length (FrenetPath.x traj))%nat ->
  (k + n <= length (FrenetPath.y traj))%nat ->
  (k + n <= length (FrenetPath.s_d traj))%nat ->
  (k + n <= length (FrenetPath.s_dd traj))%nat ->
  (k + n <= length (FrenetPath.c traj))%nat ->
  forallb (coordinates_not_tiny traj) (seq k n) = true ->
  checkConstraints_loop st traj (map Z.of_nat (seq k n))
  = Ok (forallb (tick_passes st traj) (seq k n)).
Proof.
  induction n as [|n IH]; intros k Hx Hy Hsd Hsdd Hc Htiny; [reflexivity|].
  cbn [seq map checkConstraints_loop forallb] in *.
  apply andb_prop in Htiny. destruct Htiny as [Hk Htiny].
  apply andb_prop in Hk. destruct Hk as [Htx Hty].
  rewrite (vec_get_nth _ k nan), (vec_get_nth _ k nan), (vec_get_nth _ k nan),
    (vec_get_nth _ k nan), (vec_get_nth _ k nan) by lia.
  rewrite IH by (assumption || lia).
  unfold tick_passes. cbn [bind].
  rewrite !isnormal_spec, Htx, Hty, !andb_true_r.
  destruct (Double.isfinite (nth k (FrenetPath.x traj) nan)); cbn [bind andb negb];
    [|reflexivity].
  destruct (Double.isfinite (nth k (FrenetPath.y traj) nan)); cbn [bind andb negb];
    [|reflexivity].
  destruct (Double.gt (nth k (FrenetPath.s_d traj) nan) _); cbn [bind andb negb];
    [reflexivity|].
  destruct (Double.gt (nth k (FrenetPath.s_dd traj) nan) _); cbn [bind andb negb orb];
    [reflexivity|].
  destruct (nth k (FrenetPath.s_dd traj) nan <? _); cbn [bind andb negb orb];
    [reflexivity|].
  destruct (Double.gt (abs (nth k (FrenetPath.c traj) nan)) _); cbn [bind andb negb];
    reflexivity.
Qed.

(** C1 (amended). [checkConstraints] looks at the ticks that have a
    curvature sample, which leaves out the last tick of a converted
    trajectory. On a trajectory whose position at those ticks is neither
    zero nor subnormal, it returns [true] exactly when at each of them the
    position is finite, [s_d] is not above [max_speed], [s_dd] is neither
    above [max_accel] nor below [max_decel], and the magnitude of the
    curvature is not above [max_curvature]; the verdict is stored in
    [constraint_passed]. *)
Theorem checkConstraints_verdict st traj :
  (length (FrenetPath.c traj) <= length (FrenetPath.x traj))%nat ->
  (length (FrenetPath.c traj) <= length (FrenetPath.y traj))%nat ->
  (length (FrenetPath.c traj) <= length (FrenetPath.s_d traj))%nat ->
  (length (FrenetPath.c traj) <= length (FrenetPath.s_dd traj))%nat ->
  forallb (coordinates_not_tiny traj) (checked_ticks traj) = true ->
  checkConstraints st traj
  = Ok (forallb (tick_passes st traj) (checked_ticks traj),
        set_constraint_passed traj (forallb (tick_passes st traj) (checked_ticks traj))).
Proof.
  intros Hx Hy Hsd Hsdd Htiny. unfold checkConstraints, int_range, vec_size.
  rewrite Nat2Z.id.
  rewrite checkConstraints_loop_spec by (assumption || lia).
  reflexivity.
Qed.

Lemma checkConstraints_verdict_witness :
  checkConstraints Scenario.settings Scenario.slow
  = Ok (true, set_constraint_passed Scenario.slow true).
Proof.
  apply (checkConstraints_verdict Scenario.settings Scenario.slow);
    (cbn; lia) || reflexivity.
Defined.

(** C1, as stated, fails: the trajectory [Scenario.fast_at_last_tick]
    exceeds [max_speed] at its last tick, which has no curvature sample,
    and [checkConstraints] returns [true]. *)
Lemma checkConstraints_skips_last_tick :
  checkConstraints Scenario.settings Scenario.fast_at_last_tick
  = Ok (true, set_constraint_passed Scenario.fast_at_last_tick true)
  /\ specified_verdict Scenario.settings Scenario.fast_at_last_tick = false.
Proof. split; reflexivity. Qed.

Lemma last_default {A} (v : list A) : forall b a d, last (b :: v) a = last (b :: v) d.
Proof.
  induction v as [|c v IH]; intros b a d; [reflexivity|].
  change (last (c :: v) a = last (c :: v) d). apply IH.
Qed.

Lemma vec_back_last {A} (v : list A) (d : A) :
  v <> [] -> vec_back v = Ok (last v d).
Proof.
  destruct v as [|a v]; [congruence|]. intros _. unfold vec_back. f_equal.
  destruct v as [|b v]; [reflexivity|].
  change (last (b :: v) a = last (b :: v) d). apply last_default.
Qed.

Lemma size_t_wrap_small z : (0 <= z < 2 ^ 64)%Z -> size_t_wrap z = z.
Proof. intros H. unfold size_t_wrap. now apply Z.mod_small. Qed.

Lemma size_t_wrap_minus_one : size_t_wrap (-1) = (2 ^ 64 - 1)%Z.
Proof. reflexivity. Qed.

(** *** predictTrajectories *)

Lemma predict_loop_spec E st n yaw v : forall traj,
  Path.x traj <> [] -> Path.y traj <> [] ->
  exists traj' xs,
    predict_loop E st n yaw v traj = Ok traj'
    /\ Path.x traj' = Path.x traj ++ xs /\ length xs = (2 * n)%nat
    /\ Path.y traj' = Path.y traj
    /\ Path.yaw traj' = Path.yaw traj ++ repeat yaw n
    /\ Path.v traj' = Path.v traj ++ repeat v n.
Proof.
  induction n as [|n IH]; intros traj Hx Hy.
  - exists traj, []. cbn. rewrite !app_nil_r. repeat split.
  - cbn [predict_loop].
    rewrite (vec_back_last _ 0 Hx), (vec_back_last _ 0 Hy). cbn [bind].
    match goal with
    | |- context [predict_loop _ _ _ _ _ ?t] =>
        destruct (IH t) as (traj' & xs & Hr & Hlx & Hn & Hly & Hlyaw & Hlv)
    end.
    + cbn. now destruct (Path.x traj).
    + exact Hy.
    + exists traj'. eexists. rewrite Hr. cbn [Path.x Path.y Path.yaw Path.v] in *.
      rewrite Hlx, Hlyaw, Hlv, <- !app_assoc.
      split; [reflexivity|]. split; [reflexivity|].
      split; [cbn; rewrite Hn; lia|]. split; [exact Hly|].
      split; f_equal; cbn [repeat app]; now rewrite <- repeat_cons.
Qed.

(** C2, at the code: for an obstacle and [steps >= 0], the predicted
    trajectory has [steps + 1] samples of yaw and of v, but [2 * steps + 1]
    samples of x and the single sample of y it started with: the second
    [push_back] of the loop appends the next y to [obstacle_traj.x]. *)
Theorem predictTrajectory_lengths E st obstacle steps :
  prediction_steps st = Ok steps -> (0 <= steps)%Z ->
  exists traj,
    predictTrajectory E st obstacle = Ok traj
    /\ length (Path.x traj) = (2 * Z.to_nat steps + 1)%nat
    /\ Path.y traj = [DetectedObject.position_y obstacle]
    /\ length (Path.yaw traj) = (Z.to_nat steps + 1)%nat
    /\ length (Path.v traj) = (Z.to_nat steps + 1)%nat.
Proof.
  intros Hs Hpos. unfold predictTrajectory. rewrite Hs. cbn [bind].
  assert (Hw : size_t_wrap steps = steps).
  { apply size_t_wrap_small. unfold prediction_steps in Hs.
    destruct (Double.to_int _); [|discriminate].
    destruct ((- 2 ^ 31 <=? z)%Z && (z <? 2 ^ 31)%Z) eqn:Hb; [|discriminate].
    injection Hs as ->. apply andb_prop in Hb. lia. }
  rewrite Hw.
  match goal with |- context [predict_loop _ _ ?n ?yaw ?v ?t] =>
    destruct (predict_loop_spec E st n yaw v t)
      as (traj & xs & Hr & Hx & Hn & Hy & Hyaw & Hv)
  end; try (cbn; congruence).
  exists traj. rewrite Hx, Hyaw, Hv, !length_app, !repeat_length, Hn.
  cbn. repeat split; try assumption; lia.
Qed.

Lemma predictTrajectory_lengths_witness :
  exists traj,
    predictTrajectory Example.extern Scenario.settings Scenario.obstacle = Ok traj
    /\ length (Path.x traj) = 17%nat
    /\ Path.y traj = [0]
    /\ length (Path.yaw traj) = 9%nat
    /\ length (Path.v traj) = 9%nat.
Proof.
  apply (predictTrajectory_lengths Example.extern Scenario.settings Scenario.obstacle 8);
    [reflexivity | lia].
Defined.

Lemma predictTrajectory_shape E st obstacle traj :
  predictTrajectory E st obstacle = Ok traj ->
  Path.y traj = [DetectedObject.position_y obstacle]
  /\ nth 0 (Path.x traj) nan = DetectedObject.position_x obstacle
  /\ nth 0 (Path.yaw traj) nan
     = getRPY_yaw E (DetectedObject.orientation_x obstacle)
         (DetectedObject.orientation_y obstacle)
         (DetectedObject.orientation_z obstacle)
         (DetectedObject.orientation_w obstacle).
Proof.
  unfold predictTrajectory. destruct (prediction_steps st) as [steps|]; [|discriminate].
  cbn [bind].
  match goal with |- context [predict_loop _ _ ?n ?yaw ?v ?t] =>
    destruct (predict_loop_spec E st n yaw v t)
      as (traj' & xs & Hr & Hx & Hn & Hy & Hyaw & Hv)
  end; try (cbn; congruence).
  rewrite Hr. intros [= <-]. rewrite Hx, Hy, Hyaw. cbn. auto.
Qed.

Lemma int_range_two {A} (v : list A) :
  (2 <= length v)%nat ->
  exists rest, int_range (vec_size v) = 0%Z :: 1%Z :: rest.
Proof.
  intros H. unfold int_range, vec_size. rewrite Nat2Z.id.
  destruct (length v) as [|[|n]]; try lia. cbn. eauto.
Qed.

(** *** checkTrajCollision *)

(** C5, at the code: with one obstacle or more, an ego trajectory of two
    ticks or more whose first tick does not collide makes
    [checkTrajCollision] read the predicted obstacle trajectory outside
    its bounds at the second tick: [obstacle_trajs[0].y] has one element,
    because [predictTrajectories] appends every later y to [x]. *)
Theorem checkTrajCollision_out_of_bounds
  E st ego_traj obstacle obstacles obstacle_trajs margin_lon margin_lat :
  predictTrajectories E st (obstacle :: obstacles) = Ok obstacle_trajs ->
  (2 <= length (FrenetPath.x ego_traj))%nat ->
  (2 <= length (FrenetPath.y ego_traj))%nat ->
  (2 <= length (FrenetPath.yaw ego_traj))%nat ->
  first_tick_collides E st ego_traj obstacle margin_lon margin_lat = false ->
  checkTrajCollision E st ego_traj obstacle_trajs (obstacle :: obstacles)
    margin_lon margin_lat
  = Fault out_of_bounds.
Proof.
  intros Hp Hx Hy Hyaw Hclear.
  cbn [predictTrajectories] in Hp.
  destruct (predictTrajectory E st obstacle) as [traj|] eqn:Ht; [|discriminate].
  cbn [bind] in Hp.
  destruct (predictTrajectories E st obstacles) as [trajs|]; [|discriminate].
  injection Hp as <-.
  destruct (predictTrajectory_shape _ _ _ _ Ht) as (Hty & Htx & Htyaw).
  unfold checkTrajCollision, int_range, vec_size.
  rewrite Nat2Z.id. cbn [length seq map collision_obstacles].
  destruct (int_range_two _ Hx) as (js & ->).
  cbn [collision_ticks].
  change 0%Z with (Z.of_nat 0). change 1%Z with (Z.of_nat 1).
  rewrite !(vec_get_nth (FrenetPath.x ego_traj) _ nan),
    !(vec_get_nth (FrenetPath.y ego_traj) _ nan),
    !(vec_get_nth (FrenetPath.yaw ego_traj) _ nan) by lia.
  cbn [bind Z.of_nat vec_get Z.ltb Z.compare Z.to_nat nth_error].
  rewrite Hty. cbn [nth_error bind].
  destruct (Path.x traj) as [|ox0 oxs] eqn:Hox; cbn [nth_error bind].
  { reflexivity. }
  destruct (Path.yaw traj) as [|oyaw0 oyaws] eqn:Hoyaw; cbn [nth_error bind].
  { reflexivity. }
  cbn [nth] in Htx, Htyaw. subst ox0 oyaw0.
  unfold first_tick_collides in Hclear. rewrite Hclear.
  cbn [Pos.to_nat Pos.iter_op Nat.add nth_error bind].
  destruct oxs; reflexivity.
Qed.

Lemma checkTrajCollision_out_of_bounds_witness :
  checkTrajCollision Example.extern Scenario.settings Scenario.ego_clear
    Scenario.predicted [Scenario.obstacle] 0.5 0.25
  = Fault out_of_bounds.
Proof.
  apply (checkTrajCollision_out_of_bounds Example.extern Scenario.settings
           Scenario.ego_clear Scenario.obstacle [] Scenario.predicted 0.5 0.25).
  - vm_compute. reflexivity.
  - vm_compute. lia.
  - vm_compute. lia.
  - vm_compute. lia.
  - vm_compute. reflexivity.
Defined.

(** *** convertToGlobalFrame *)

(** C10, at the code: a candidate that has not been converted before and
    whose conversion keeps one position or none ends in an access outside
    a vector. With no position, [traj.x.size() - 1] wraps around and the
    second loop reads [traj.x[1]]; with one, [traj.yaw.back()] is taken of
    an empty vector. *)
Theorem convertToGlobalFrame_out_of_bounds E traj cubic_spline x y :
  FrenetPath.x traj = [] -> FrenetPath.y traj = [] -> FrenetPath.yaw traj = [] ->
  global_positions E traj cubic_spline (int_range (vec_size (FrenetPath.s traj))) [] []
  = Ok (x, y) ->
  (length x <= 1)%nat ->
  convertToGlobalFrame E traj cubic_spline = Fault out_of_bounds.
Proof.
  intros Hx Hy Hyaw Hg Hlen. unfold convertToGlobalFrame.
  rewrite Hx, Hy, Hg, Hyaw. cbn [bind]. unfold global_yaw_ds.
  destruct x as [|a [|b x]]; cbn [length] in Hlen; try lia.
  - reflexivity.
  - reflexivity.
Qed.

Lemma convertToGlobalFrame_out_of_bounds_witness :
  convertToGlobalFrame Example.extern Scenario.nan_at_first_tick Scenario.reference
  = Fault out_of_bounds
  /\ convertToGlobalFrame Example.extern Scenario.nan_at_second_tick Scenario.reference
     = Fault out_of_bounds.
Proof.
  split.
  - eapply (convertToGlobalFrame_out_of_bounds Example.extern
              Scenario.nan_at_first_tick Scenario.reference).
    + reflexivity.
    + reflexivity.
    + reflexivity.
    + vm_compute. reflexivity.
    + vm_compute. lia.
  - eapply (convertToGlobalFrame_out_of_bounds Example.extern
              Scenario.nan_at_second_tick Scenario.reference).
    + reflexivity.
    + reflexivity.
    + reflexivity.
    + vm_compute. reflexivity.
    + vm_compute. lia.
Defined.

(** *** Loops *)

(** An invariant of [for_loop] holds of its result. *)
Lemma for_loop_invariant {S : Type} (P : Z -> S -> Prop) (body : Z -> S -> result S)
  (bound : Z) (fuel : nat) : forall i st st',
  (i <= bound)%Z ->
  P i st ->
  (forall j s s', (i <= j < bound)%Z -> P j s -> body j s = Ok s' -> P (j + 1)%Z s') ->
  for_loop fuel i bound body st = Ok st' ->
  P bound st'.
Proof.
  induction fuel as [|fuel IH]; intros i st st' Hi HP Hstep; cbn [for_loop];
    destruct (Z.ltb_spec i bound) as [Hlt|Hge]; try discriminate.
  - intros [= <-]. now replace bound with i by lia.
  - destruct (body i st) as [s1|] eqn:Hb; [|discriminate]. cbn [bind].
    apply IH; [lia| |].
    + apply (Hstep i st s1); [lia|assumption|assumption].
    + intros j s s' Hj. apply Hstep. lia.
  - intros [= <-]. now replace bound with i by lia.
Qed.

(** *** Spline *)

Lemma ltb_irrefl x : (x <? x) = false.
Proof.
  rewrite ltb_spec. unfold SFltb.
  destruct (Prim2SF x) as [ | | |sg m e] eqn:Hx; try reflexivity.
  - now destruct s.
  - assert (Hn : S754_finite sg m e <> S754_nan) by discriminate.
    now rewrite (SFcompare_key _ _ Hn Hn), lex_compare_refl.
Qed.

Lemma spline_db_length num_x_ a_ c_ h d_ b_ :
  (1 <= num_x_)%Z ->
  spline_db num_x_ a_ c_ h = Ok (d_, b_) ->
  length d_ = Z.to_nat (num_x_ - 1) /\ length b_ = Z.to_nat (num_x_ - 1).
Proof.
  intros Hn Hr. unfold spline_db in Hr.
  apply (for_loop_invariant
           (fun i '(d_, b_) => length d_ = Z.to_nat i /\ length b_ = Z.to_nat i))
    in Hr; [exact Hr|lia|split; reflexivity|].
  intros j [d0 b0] [d1 b1] Hj [Hd Hb] Hbody.
  destruct (vec_at c_ (j + 1)) as [c1|]; [|discriminate].
  destruct (vec_at c_ j) as [c0|]; [|discriminate].
  destruct (vec_at h j) as [hj|]; [|discriminate].
  destruct (vec_at a_ (j + 1)) as [a1|]; [|discriminate].
  destruct (vec_at a_ j) as [a0|]; [|discriminate].
  cbn [bind] in Hbody. injection Hbody as <- <-.
  rewrite !length_app, Hd, Hb. cbn [length]. lia.
Qed.

Lemma Spline_new_shape E x y sp :
  Spline_new E x y = Ok sp -> x <> [] ->
  Spline.x_ sp = x /\ length (Spline.b_ sp) = (length x - 1)%nat.
Proof.
  intros Hr Hx. unfold Spline_new in Hr.
  destruct (spline_h x) as [h|]; [|discriminate]. cbn [bind] in Hr.
  destruct (calculateMatrixA E (vec_size x) h) as [A|]; [|discriminate]. cbn [bind] in Hr.
  destruct (calculateMatrixB E (vec_size x) y h) as [B|]; [|discriminate]. cbn [bind] in Hr.
  destruct (spline_db _ _ _ _) as [[d_ b_]|] eqn:Hdb; [|discriminate]. cbn [bind] in Hr.
  injection Hr as <-. cbn [Spline.x_ Spline.b_]. split; [reflexivity|].
  assert (Hlen : (1 <= vec_size x)%Z).
  { unfold vec_size. destruct x; [congruence|]. cbn [length]. lia. }
  destruct (spline_db_length _ _ _ _ _ _ Hlen Hdb) as [_ Hb].
  rewrite Hb. unfold vec_size. lia.
Qed.

(** [searchIndex] never faults, and the index it returns is the last one
    when the comparison accepts the last knot. *)
Lemma searchIndex_fold E (xs : list double) (t : double) (n : nat) : forall acc,
  (n <= length xs)%nat ->
  exists index,
    fold_left
      (fun acc i =>
         index <- acc ;;
         xi <- vec_at xs i ;;
         Ok (if cmp_doubles_greater_or_equal E t xi then i else index))
      (map Z.of_nat (seq 0 n)) (Ok acc) = Ok index
    /\ (forall d, (0 < n)%nat ->
        cmp_doubles_greater_or_equal E t (nth (n - 1) xs d) = true ->
        index = Z.of_nat (n - 1)).
Proof.
  induction n as [|n IH]; intros acc Hn.
  - exists acc. split; [reflexivity|]. intros; lia.
  - rewrite seq_S, map_app, fold_left_app. cbn [Nat.add map fold_left].
    destruct (IH acc) as (index & -> & _); [lia|]. cbn [bind].
    rewrite (vec_at_nth xs n 0) by lia. cbn [bind].
    eexists. split; [reflexivity|].
    intros d _. replace (S n - 1)%nat with n by lia.
    rewrite (nth_indep xs d 0) by lia. now intros ->.
Qed.

Lemma last_nth {A} (v : list A) (d : A) : last v d = nth (length v - 1) v d.
Proof.
  induction v as [|a v IH]; [reflexivity|].
  destruct v as [|b v]; [reflexivity|].
  transitivity (last (b :: v) d); [reflexivity|].
  rewrite IH. cbn [length Nat.sub]. rewrite !Nat.sub_0_r. reflexivity.
Qed.

(** C7, at the code: evaluating a spline at its last knot throws. The
    index found is [n - 1], and [b_] and [d_] hold [n - 1] coefficients. *)
Theorem Spline_calculatePoint_last_knot E x y sp :
  Spline_new E x y = Ok sp -> x <> [] ->
  (last x 0 <? hd 0 x) = false ->
  cmp_doubles_greater_or_equal E (last x 0) (last x 0) = true ->
  Spline_calculatePoint E sp (last x 0) = Fault out_of_range.
Proof.
  intros Hnew Hx Hfirst Hcmp.
  destruct (Spline_new_shape E x y sp Hnew Hx) as [Hxs Hb].
  assert (Hlen : (0 < length x)%nat) by (destruct x; [congruence|cbn; lia]).
  unfold Spline_calculatePoint, outside. rewrite Hxs.
  change 0%Z with (Z.of_nat 0). rewrite (vec_at_nth x 0 0) by lia.
  cbn [bind]. replace (nth 0 x 0) with (hd 0 x) by (now destruct x). rewrite Hfirst.
  rewrite (vec_back_last x 0 Hx). cbn [bind]. rewrite ltb_irrefl. cbn [bind].
  unfold searchIndex, int_range, vec_size. rewrite Hxs, Nat2Z.id.
  destruct (searchIndex_fold E x (last x 0) (length x) 0%Z) as (index & -> & Hidx);
    [lia|].
  cbn [bind]. rewrite (Hidx 0 Hlen) by (now rewrite <- last_nth).
  rewrite (vec_at_nth x _ 0) by lia. cbn [bind].
  destruct (vec_at (Spline.a_ sp) _) eqn:Ha;
    [|apply vec_at_fault in Ha; now subst]. cbn [bind].
  rewrite vec_at_out by lia. reflexivity.
Qed.

Lemma Spline_calculatePoint_last_knot_witness :
  Spline_calculatePoint Example.extern Scenario.spline 40 = Fault out_of_range.
Proof.
  apply (Spline_calculatePoint_last_knot Example.extern
           Scenario.knots_x Scenario.knots_y Scenario.spline).
  - vm_compute. reflexivity.
  - discriminate.
  - reflexivity.
  - reflexivity.
Defined.

(** *** The search *)

(** A gradient of zero moves the index all the same: when the three
    gradients at a cell not searched before are zero, [findNextBest] steps
    to the next width. *)
Lemma findNextBest_zero_gradient E st fuel start_state_ search idx p search' :
  grid_get (Search.trajs search) idx = Ok p ->
  FrenetPath.is_used p = false ->
  findGradients E st fuel start_state_
    {| Search.trajs := grid_set (Search.trajs search) idx (set_is_used p true);
       Search.candidate_trajs_ := Search.candidate_trajs_ search;
       Search.num_traj := Search.num_traj search |} idx
  = Ok ((0, 0, 0), search') ->
  findNextBest E st fuel start_state_ search idx
  = Ok (false, search', vec3_set idx 0 (vec3_get idx 0 + 1)%Z).
Proof.
  intros Hp Hused Hg. unfold findNextBest.
  rewrite Hp. cbn [bind]. rewrite Hused, Hg. reflexivity.
Qed.

(** C3, at the code: on the 3 x 3 x 3 grid of [Scenario.search_left],
    started at the seed index (1, 2, 2) that [sampleEndStates] returns, the
    search reaches the corner (2, 2, 2), a strict local minimum where the
    three gradients are clamped to zero; [findNextBest] steps all the same,
    to (3, 2, 2), outside the grid, and the next call reads [trajs[3]]. *)
Theorem search_leaves_grid :
  snd (sampleEndStates Scenario.settings Scenario.start_left 0 1 (-1) 6)
  = Some (1, 2, 2)%Z
  /\ search_trace Example.extern Scenario.settings 100 Scenario.start_left 27
       Scenario.search_left (1, 2, 2)%Z
     = ([ ((1, 2, 2)%Z, Some (-1.5028228759765625, 0, 0));
          ((2, 2, 2)%Z, Some (0, 0, 0));
          ((3, 2, 2)%Z, None) ],
        Some out_of_bounds)
  /\ in_grid (Search.trajs Scenario.search_left) (3, 2, 2)%Z = false
  /\ search_loop Example.extern Scenario.settings 100 Scenario.start_left 28
       Scenario.search_left (1, 2, 2)%Z 0
     = Fault out_of_bounds.
Proof. repeat split; vm_compute; reflexivity. Qed.

(** *** sampleEndStates *)

Section SamplingFacts.

Variable st : Setting.
Variable start_state_ : FrenetState.
Variables (lane_id : Z) (left_bound right_bound current_speed : double).

Let cell := sample_cell st start_state_ lane_id left_bound right_bound current_speed.
Let I := int_range (Setting.num_width st).
Let J := int_range (Setting.num_speed st).
Let K := int_range (Setting.num_t st).

Lemma sample_1d_spec i j best :
  sample_1d st start_state_ lane_id left_bound right_bound current_speed i j best
  = (map (cell i j) K, scan (map (fun k => ((i, j, k), cell i j k)) K) best).
Proof.
  unfold sample_1d. fold K.
  enough (H : forall ks acc b,
             fold_left
               (fun '(trajs_1d, best) k =>
                  let p := cell i j k in
                  (trajs_1d ++ [p], update_best best (i, j, k) p))
               ks (acc, b)
             = (acc ++ map (cell i j) ks,
                scan (map (fun k => ((i, j, k), cell i j k)) ks) b))
    by apply (H K [] best).
  induction ks as [|k ks IH]; intros acc b.
  - cbn. now rewrite app_nil_r.
  - cbn [fold_left map]. rewrite IH, <- app_assoc. reflexivity.
Qed.

Lemma scan_app l1 l2 best : scan (l1 ++ l2) best = scan l2 (scan l1 best).
Proof. unfold scan. apply fold_left_app. Qed.

Lemma sample_2d_spec i best :
  sample_2d st start_state_ lane_id left_bound right_bound current_speed i best
  = (map (fun j => map (cell i j) K) J,
     scan (flat_map (fun j => map (fun k => ((i, j, k), cell i j k)) K) J) best).
Proof.
  unfold sample_2d. fold J.
  enough (H : forall js acc b,
             fold_left
               (fun '(trajs_2d, best) j =>
                  let '(trajs_1d, best) :=
                    sample_1d st start_state_ lane_id left_bound right_bound
                      current_speed i j best in
                  (trajs_2d ++ [trajs_1d], best))
               js (acc, b)
             = (acc ++ map (fun j => map (cell i j) K) js,
                scan (flat_map (fun j => map (fun k => ((i, j, k), cell i j k)) K) js) b))
    by apply (H J [] best).
  induction js as [|j js IH]; intros acc b.
  - cbn. now rewrite app_nil_r.
  - cbn [fold_left map flat_map]. rewrite sample_1d_spec, IH, <- app_assoc, scan_app.
    reflexivity.
Qed.

Lemma sampleEndStates_spec :
  sampleEndStates st start_state_ lane_id left_bound right_bound current_speed
  = (map (fun i => map (fun j => map (cell i j) K) J) I,
     snd (scan (cells I J K cell) (Double.DBL_MAX, None))).
Proof.
  unfold sampleEndStates. fold I.
  enough (H : forall is_ acc b,
             fold_left
               (fun '(trajs_3d, best) i =>
                  let '(trajs_2d, best) :=
                    sample_2d st start_state_ lane_id left_bound right_bound
                      current_speed i best in
                  (trajs_3d ++ [trajs_2d], best))
               is_ (acc, b)
             = (acc ++ map (fun i => map (fun j => map (cell i j) K) J) is_,
                scan (cells is_ J K cell) b))
    by (specialize (H I [] (Double.DBL_MAX, None));
        match goal with
        | |- (let '(_, _) := ?e in _) = _ =>
            match type of H with ?lhs = _ => change e with lhs end
        end;
        rewrite H; reflexivity).
  induction is_ as [|i is_ IH]; intros acc b.
  - cbn. now rewrite app_nil_r.
  - cbn [fold_left map]. rewrite sample_2d_spec, IH, <- app_assoc.
    unfold cells. cbn [flat_map]. rewrite scan_app. reflexivity.
Qed.

End SamplingFacts.

Lemma scan_best_ok l : forall seen b,
  (forall idx p, In (idx, p) (seen ++ l) -> Double.isnan (est_cost p) = false) ->
  best_ok seen b -> best_ok (seen ++ l) (scan l b).
Proof.
  induction l as [|[idx p] l IH]; intros seen b Hnan Hb.
  - now rewrite app_nil_r.
  - change (scan ((idx, p) :: l) b) with (scan l (update_best b idx p)).
    replace (seen ++ (idx, p) :: l) with ((seen ++ [(idx, p)]) ++ l) in *
      by now rewrite <- app_assoc.
    apply IH; [exact Hnan|].
    assert (Hp : Double.isnan (est_cost p) = false).
    { apply (Hnan idx). apply in_or_app. left. apply in_or_app. right. now left. }
    assert (Hseen : forall i q, In (i, q) seen -> Double.isnan (est_cost q) = false).
    { intros i q Hq. apply (Hnan i). apply in_or_app. left. apply in_or_app. now left. }
    unfold update_best, best_ok in *. destruct b as [m [idx0|]]; cbn [fst snd] in *.
    + destruct Hb as (p0 & Hin & -> & Hmin).
      destruct (est_cost p <? est_cost p0) eqn:Hlt; cbn [fst snd].
      * exists p. split; [apply in_or_app; right; now left|]. split; [reflexivity|].
        intros i q Hq. apply in_app_or in Hq. destruct Hq as [Hq|[[= <- <-]|[]]].
        -- apply dle_trans with (est_cost p0); [now apply ltb_dle|eauto].
        -- now apply dle_refl.
      * exists p0. split; [apply in_or_app; now left|]. split; [reflexivity|].
        intros i q Hq. apply in_app_or in Hq. destruct Hq as [Hq|[[= <- <-]|[]]].
        -- eauto.
        -- apply ltb_false_dle; eauto.
    + destruct Hb as (-> & Hmax).
      destruct (est_cost p <? Double.DBL_MAX) eqn:Hlt; cbn [fst snd].
      * exists p. split; [apply in_or_app; right; now left|]. split; [reflexivity|].
        intros i q Hq. apply in_app_or in Hq. destruct Hq as [Hq|[[= <- <-]|[]]].
        -- apply dle_trans with Double.DBL_MAX; [now apply ltb_dle|].
           apply ltb_false_dle; eauto.
        -- now apply dle_refl.
      * split; [reflexivity|].
        intros i q Hq. apply in_app_or in Hq. destruct Hq as [Hq|[[= <- <-]|[]]];
          eauto.
Qed.

Lemma in_int_range n i : In i (int_range n) <-> (0 <= i < n)%Z.
Proof.
  unfold int_range. rewrite in_map_iff. split.
  - intros (k & <- & Hk). apply in_seq in Hk. lia.
  - intros H. exists (Z.to_nat i). split; [lia|]. apply in_seq. lia.
Qed.

Lemma vec_get_map_int_range {A} (F : Z -> A) n i r :
  vec_get (map F (int_range n)) i = Ok r <-> (0 <= i < n)%Z /\ r = F i.
Proof.
  unfold vec_get, int_range. destruct (Z.ltb_spec i 0) as [Hneg|Hpos].
  - split; [discriminate|lia].
  - rewrite !nth_error_map.
    destruct (nth_error (seq 0 (Z.to_nat n)) (Z.to_nat i)) as [k|] eqn:Hk; cbn [option_map].
    + assert (Hlt : (Z.to_nat i < length (seq 0 (Z.to_nat n)))%nat)
        by (apply nth_error_Some; congruence).
      rewrite length_seq in Hlt.
      rewrite (nth_error_nth' _ 0%nat) in Hk by (rewrite length_seq; lia).
      rewrite seq_nth in Hk by lia. injection Hk as <-. cbn [Nat.add].
      rewrite Z2Nat.id by lia. split; [intros [= <-]; split; [lia|reflexivity]|].
      now intros [_ ->].
    + apply nth_error_None in Hk. rewrite length_seq in Hk.
      split; [discriminate|lia].
Qed.

Lemma grid_get_map (f : Z -> Z -> Z -> FrenetPath) nw nv nt i j k p :
  grid_get
    (map (fun i => map (fun j => map (f i j) (int_range nt)) (int_range nv))
       (int_range nw)) (i, j, k) = Ok p
  <-> In ((i, j, k), p) (cells (int_range nw) (int_range nv) (int_range nt) f).
Proof.
  unfold grid_get, cells. rewrite in_flat_map. split.
  - destruct (vec_get _ i) as [g_i|] eqn:Hi; [|discriminate]. cbn [bind].
    apply vec_get_map_int_range in Hi. destruct Hi as [Hi ->].
    destruct (vec_get _ j) as [g_ij|] eqn:Hj; [|discriminate]. cbn [bind].
    apply vec_get_map_int_range in Hj. destruct Hj as [Hj ->].
    intros Hk. apply vec_get_map_int_range in Hk. destruct Hk as [Hk ->].
    exists i. split; [now apply in_int_range|].
    apply in_flat_map. exists j. split; [now apply in_int_range|].
    apply in_map_iff. exists k. split; [reflexivity|now apply in_int_range].
  - intros (i' & Hi & Hin). apply in_flat_map in Hin. destruct Hin as (j' & Hj & Hin).
    apply in_map_iff in Hin. destruct Hin as (k' & [= <- <- <- <-] & Hk).
    apply in_int_range in Hi, Hj, Hk.
    rewrite (proj2 (vec_get_map_int_range
                      (fun i => map (fun j => map (f i j) (int_range nt)) (int_range nv))
                      nw i' _) (conj Hi eq_refl)).
    cbn [bind].
    rewrite (proj2 (vec_get_map_int_range
                      (fun j => map (f i' j) (int_range nt)) nv j' _) (conj Hj eq_refl)).
    cbn [bind]. apply vec_get_map_int_range. now split.
Qed.

Lemma grid_forallb_get f g idx p :
  grid_forallb f g = true -> grid_get g idx = Ok p -> f p = true.
Proof.
  unfold grid_forallb, grid_get, vec_get. destruct idx as [[i j] k]. intros H.
  destruct (i <? 0)%Z; [discriminate|].
  destruct (nth_error g (Z.to_nat i)) as [g_i|] eqn:Hi; [|discriminate]. cbn [bind].
  destruct (j <? 0)%Z; [discriminate|].
  destruct (nth_error g_i (Z.to_nat j)) as [g_ij|] eqn:Hj; [|discriminate]. cbn [bind].
  destruct (k <? 0)%Z; [discriminate|].
  destruct (nth_error g_ij (Z.to_nat k)) as [q|] eqn:Hk; [|discriminate].
  intros [= <-].
  apply nth_error_In in Hi, Hj, Hk.
  rewrite forallb_forall in H. specialize (H _ Hi).
  rewrite forallb_forall in H. specialize (H _ Hj).
  rewrite forallb_forall in H. exact (H _ Hk).
Qed.

Lemma grid_existsb_get f g :
  grid_existsb f g = true -> exists idx p, grid_get g idx = Ok p /\ f p = true.
Proof.
  unfold grid_existsb. intros H.
  apply existsb_exists in H. destruct H as (g_i & Hi & H).
  apply existsb_exists in H. destruct H as (g_ij & Hj & H).
  apply existsb_exists in H. destruct H as (p & Hk & H).
  apply In_nth_error in Hi, Hj, Hk.
  destruct Hi as [i Hi], Hj as [j Hj], Hk as [k Hk].
  exists (Z.of_nat i, Z.of_nat j, Z.of_nat k), p. split; [|exact H].
  unfold grid_get. rewrite !vec_get_nat, Hi. cbn [bind].
  rewrite !vec_get_nat, Hj. cbn [bind]. now rewrite !vec_get_nat, Hk.
Qed.

(** C8. When no estimated cost [fix_cost + hur_cost] of the grid is NaN
    and one at least is below [DBL_MAX], the bound [min_cost] starts from,
    [sampleEndStates] returns the index of a cell of the grid whose
    estimated cost is less than or equal to that of every cell. *)
Theorem sampleEndStates_argmin st start_state_ lane_id left_bound right_bound current_speed :
  grid_forallb (fun p => negb (Double.isnan (est_cost p)))
    (fst (sampleEndStates st start_state_ lane_id left_bound right_bound current_speed))
  = true ->
  grid_existsb (fun p => est_cost p <? Double.DBL_MAX)
    (fst (sampleEndStates st start_state_ lane_id left_bound right_bound current_speed))
  = true ->
  exists idx p0,
    sampleEndStates st start_state_ lane_id left_bound right_bound current_speed
    = (fst (sampleEndStates st start_state_ lane_id left_bound right_bound current_speed),
       Some idx)
    /\ grid_get
         (fst (sampleEndStates st start_state_ lane_id left_bound right_bound current_speed))
         idx = Ok p0
    /\ forall idx' p,
         grid_get
           (fst (sampleEndStates st start_state_ lane_id left_bound right_bound
                   current_speed)) idx' = Ok p ->
         dle (est_cost p0) (est_cost p).
Proof.
  rewrite sampleEndStates_spec. cbn [fst].
  set (cell := sample_cell st start_state_ lane_id left_bound right_bound current_speed).
  set (g := map _ _). set (cs := cells _ _ _ _).
  intros Hnan Hsome.
  assert (Hcells : forall idx p, grid_get g idx = Ok p <-> In (idx, p) cs).
  { intros [[i j] k] p. apply grid_get_map. }
  assert (Hok : best_ok cs (scan cs (Double.DBL_MAX, None))).
  { apply (scan_best_ok cs [] (Double.DBL_MAX, None)).
    - intros idx p Hin. apply Hcells in Hin.
      apply (grid_forallb_get _ _ _ _ Hnan) in Hin. now destruct (Double.isnan _).
    - split; [reflexivity|]. intros idx p []. }
  unfold best_ok in Hok. destruct (scan cs (Double.DBL_MAX, None)) as [m [idx0|]];
    cbn [fst snd] in *.
  - destruct Hok as (p0 & Hin & _ & Hmin). exists idx0, p0.
    split; [reflexivity|]. split; [now apply Hcells|].
    intros idx' p Hp. apply (Hmin idx'). now apply Hcells.
  - destruct Hok as [_ Hmax]. apply grid_existsb_get in Hsome.
    destruct Hsome as (idx & p & Hp & Hlt). apply Hcells in Hp.
    rewrite (Hmax idx p Hp) in Hlt. discriminate.
Qed.

Lemma sampleEndStates_argmin_witness :
  exists idx p0,
    sampleEndStates Scenario.settings Scenario.start_left 0 1 (-1) 6
    = (fst (sampleEndStates Scenario.settings Scenario.start_left 0 1 (-1) 6), Some idx)
    /\ grid_get (fst (sampleEndStates Scenario.settings Scenario.start_left 0 1 (-1) 6))
         idx = Ok p0
    /\ forall idx' p,
         grid_get (fst (sampleEndStates Scenario.settings Scenario.start_left 0 1 (-1) 6))
           idx' = Ok p ->
         dle (est_cost p0) (est_cost p).
Proof.
  apply (sampleEndStates_argmin Scenario.settings Scenario.start_left 0 1 (-1) 6).
  - vm_compute. reflexivity.
  - vm_compute. reflexivity.
Defined.

(** C8, as stated, fails: with two samples of width, [(num_width - 1)/2]
    is 0 in integer arithmetic, the lateral offsets are NaN and infinite,
    no estimated cost is below [DBL_MAX], and [sampleEndStates] returns
    with [idx] unassigned; no cell of the grid it built has an estimated
    cost less than or equal to that of every cell. *)
Lemma sampleEndStates_unassigned :
  snd (sampleEndStates Scenario.settings_S5 Scenario.start_centre 0 1 (-1) 5) = None
  /\ map (map (map est_cost))
       (fst (sampleEndStates Scenario.settings_S5 Scenario.start_centre 0 1 (-1) 5))
     = [ [ [nan; nan]; [nan; nan] ];
         [ [infinity; infinity]; [infinity; infinity] ] ]
  /\ grid_existsb
       (fun p0 =>
          grid_forallb (fun p => est_cost p0 <=? est_cost p)
            (fst (sampleEndStates Scenario.settings_S5 Scenario.start_centre 0 1 (-1) 5)))
       (fst (sampleEndStates Scenario.settings_S5 Scenario.start_centre 0 1 (-1) 5))
     = false.
Proof. repeat split; vm_compute; reflexivity. Qed.

(** *** The candidate queue *)

Lemma costs_are_numbers_In l p :
  costs_are_numbers l = true -> In p l -> Double.isnan (FrenetPath.final_cost p) = false.
Proof.
  unfold costs_are_numbers. rewrite forallb_forall. intros H Hin.
  specialize (H p Hin). now destruct (Double.isnan _).
Qed.

Lemma costs_are_numbers_Permutation l l' :
  Permutation l l' -> costs_are_numbers l = true -> costs_are_numbers l' = true.
Proof.
  unfold costs_are_numbers. rewrite !forallb_forall. intros HP H p Hin.
  apply H. eapply Permutation_in; [apply Permutation_sym|]; eassumption.
Qed.

(** [pq_extract] splits the queue into a cheapest element and the rest. *)
Lemma pq_extract_spec q : forall p m r,
  pq_extract p q = (m, r) ->
  Permutation (m :: r) (p :: q)
  /\ (costs_are_numbers (p :: q) = true ->
      forall a, In a r -> dle (FrenetPath.final_cost m) (FrenetPath.final_cost a)).
Proof.
  induction q as [|p' q IH]; intros p m r.
  - cbn. intros [= <- <-]. split; [reflexivity|]. intros _ a [].
  - cbn [pq_extract]. destruct (pq_extract p' q) as [m' r'] eqn:He.
    destruct (IH p' m' r' He) as [HP Hmin].
    destruct (FrenetPath.final_cost m' <? FrenetPath.final_cost p) eqn:Hlt;
      intros [= <- <-].
    + split.
      * rewrite perm_swap. now apply perm_skip.
      * intros Hnum a [<-|Ha].
        -- now apply ltb_dle.
        -- apply Hmin; [|exact Ha].
           unfold costs_are_numbers in *. cbn [forallb] in Hnum.
           now apply andb_prop in Hnum.
    + split.
      * now apply perm_skip.
      * intros Hnum.
        assert (Hnum' : costs_are_numbers (p' :: q) = true).
        { unfold costs_are_numbers in *. cbn [forallb] in Hnum.
          now apply andb_prop in Hnum. }
        assert (Hp : Double.isnan (FrenetPath.final_cost p) = false).
        { apply (costs_are_numbers_In _ _ Hnum). now left. }
        assert (Hm : Double.isnan (FrenetPath.final_cost m') = false).
        { apply (costs_are_numbers_In _ _ Hnum').
          apply (Permutation_in _ HP). now left. }
        assert (Hpm : dle (FrenetPath.final_cost p) (FrenetPath.final_cost m'))
          by now apply ltb_false_dle.
        intros a [<-|Ha]; [exact Hpm|].
        apply dle_trans with (FrenetPath.final_cost m'); [exact Hpm|].
        now apply Hmin.
Qed.

Lemma StronglySorted_snoc {A} (R : A -> A -> Prop) l x :
  StronglySorted R l -> Forall (fun a => R a x) l -> StronglySorted R (l ++ [x]).
Proof.
  induction 1 as [|a l Hs IH Ha]; intros Hx.
  - repeat constructor.
  - inversion Hx; subst. cbn. constructor; [now apply IH|].
    apply Forall_app. split; [exact Ha|]. now repeat constructor.
Qed.

(** The invariant of the validation loop: the candidates popped so far
    came out in nondecreasing order of [final_cost], and none of them
    costs more than a candidate still in the queue. *)
Definition popped_in_order (v : Validation) : Prop :=
  StronglySorted dle (final_costs (Validation.popped v))
  /\ forall a b,
       In a (Validation.popped v) -> In b (Validation.candidate_trajs_ v) ->
       dle (FrenetPath.final_cost a) (FrenetPath.final_cost b).

Lemma popped_in_order_step v candidate_traj rest v' :
  pq_pop (Validation.candidate_trajs_ v) = Some (candidate_traj, rest) ->
  Validation.popped v' = Validation.popped v ++ [candidate_traj] ->
  Validation.candidate_trajs_ v' = rest ->
  Permutation (Validation.popped v' ++ Validation.candidate_trajs_ v')
    (Validation.popped v ++ Validation.candidate_trajs_ v)
  /\ (costs_are_numbers (Validation.candidate_trajs_ v) = true ->
      popped_in_order v ->
      costs_are_numbers (Validation.candidate_trajs_ v') = true
      /\ popped_in_order v').
Proof.
  intros Hpop Hpopped Hqueue.
  destruct (Validation.candidate_trajs_ v) as [|p q] eqn:Hq; [discriminate|].
  cbn [pq_pop] in Hpop. injection Hpop as Hpop.
  destruct (pq_extract_spec q p candidate_traj rest Hpop) as [HP Hmin].
  unfold popped_in_order. rewrite Hpopped, Hqueue. split.
  { rewrite <- app_assoc. apply Permutation_app_head. exact HP. }
  intros Hnum [Hs Hle]. specialize (Hmin Hnum). rewrite ?Hq in Hle.
  assert (Hrest : forall b, In b rest -> In b (p :: q)).
  { intros b Hb. apply (Permutation_in _ HP). now right. }
  split; [|split].
  - apply (costs_are_numbers_Permutation (p :: q) (candidate_traj :: rest)) in Hnum;
      [|now apply Permutation_sym].
    unfold costs_are_numbers in *. cbn [forallb] in Hnum. now apply andb_prop in Hnum.
  - unfold final_costs. rewrite map_app. apply StronglySorted_snoc; [exact Hs|].
    apply Forall_forall. intros c Hc. apply in_map_iff in Hc.
    destruct Hc as (a & <- & Ha). apply Hle; [exact Ha|].
    apply (Permutation_in _ HP). now left.
  - intros a b Ha Hb. apply in_app_or in Ha. destruct Ha as [Ha|[<-|[]]].
    + apply Hle; [exact Ha|now apply Hrest].
    + now apply Hmin.
Qed.

Lemma validation_loop_invariant E st cubic_spline obstacle_trajs obstacles
  check_collision use_async n : forall v v',
  validation_loop E st n cubic_spline obstacle_trajs obstacles check_collision
    use_async v = Ok v' ->
  Permutation (Validation.popped v' ++ Validation.candidate_trajs_ v')
    (Validation.popped v ++ Validation.candidate_trajs_ v)
  /\ (costs_are_numbers (Validation.candidate_trajs_ v) = true ->
      popped_in_order v -> popped_in_order v').
Proof.
  assert (Hstep : forall v w v' : Validation,
             (Permutation (Validation.popped w ++ Validation.candidate_trajs_ w)
                (Validation.popped v ++ Validation.candidate_trajs_ v)
              /\ (costs_are_numbers (Validation.candidate_trajs_ v) = true ->
                  popped_in_order v ->
                  costs_are_numbers (Validation.candidate_trajs_ w) = true
                  /\ popped_in_order w)) ->
             (Permutation (Validation.popped v' ++ Validation.candidate_trajs_ v')
                (Validation.popped w ++ Validation.candidate_trajs_ w)
              /\ (costs_are_numbers (Validation.candidate_trajs_ w) = true ->
                  popped_in_order w -> popped_in_order v')) ->
             Permutation (Validation.popped v' ++ Validation.candidate_trajs_ v')
               (Validation.popped v ++ Validation.candidate_trajs_ v)
             /\ (costs_are_numbers (Validation.candidate_trajs_ v) = true ->
                 popped_in_order v -> popped_in_order v')).
  { intros v w v' [HP1 H1] [HP2 H2]. split.
    - now rewrite HP2.
    - intros Hnum Hinv. destruct (H1 Hnum Hinv). auto. }
  induction n as [|n IH]; intros v v'; cbn [validation_loop];
    destruct (pq_pop (Validation.candidate_trajs_ v)) as [[candidate_traj rest]|] eqn:Hpop;
    try discriminate;
    try (intros [= <-]; split; [reflexivity|auto]).
  destruct (convertToGlobalFrame E candidate_traj cubic_spline) as [converted|];
    [|discriminate]. cbn [bind].
  destruct (checkConstraints st converted) as [[is_safe checked]|]; [|discriminate].
  cbn [bind]. destruct is_safe; cbn [negb].
  - destruct (if check_collision then _ else _) as [[[is_safe collided] checks]|];
      [|discriminate]. cbn [bind]. destruct is_safe.
    + intros [= <-].
      match goal with
      | |- Permutation (Validation.popped ?r ++ _) _ /\ _ => apply (Hstep v r r)
      end.
      * apply (popped_in_order_step v candidate_traj rest); [exact Hpop| |]; reflexivity.
      * split; [reflexivity|]. intros _ H. exact H.
    + intros Hloop. eapply Hstep; [|apply IH; exact Hloop].
      apply (popped_in_order_step v candidate_traj rest); [exact Hpop| |]; reflexivity.
  - intros Hloop. eapply Hstep; [|apply IH; exact Hloop].
    apply (popped_in_order_step v candidate_traj rest); [exact Hpop| |]; reflexivity.
Qed.





(** *** The grid *)

Lemma nth_error_vec_set_eq {A} (v : list A) : forall i a,
  (i < length v)%nat -> nth_error (vec_set v i a) i = Some a.
Proof.
  induction v as [|b v IH]; intros [|i] a Hi; cbn in *; try lia; [reflexivity|].
  apply IH. lia.
Qed.

Lemma nth_error_vec_set_neq {A} (v : list A) : forall i j a,
  i <> j -> nth_error (vec_set v i a) j = nth_error v j.
Proof.
  induction v as [|b v IH]; intros [|i] [|j] a Hij; cbn; try reflexivity; try lia.
  apply IH. lia.
Qed.

Lemma vec_get_Some {A} (v : list A) i a :
  vec_get v i = Ok a <-> (0 <= i)%Z /\ nth_error v (Z.to_nat i) = Some a.
Proof.
  unfold vec_get. destruct (Z.ltb_spec i 0).
  - split; [discriminate|lia].
  - destruct (nth_error v (Z.to_nat i)).
    + split; [intros [= ->]; now split|intros [_ [= ->]]; reflexivity].
    + split; [discriminate|intros [_ [=]]].
Qed.

(** Reading a grid after one cell was written: the cell written, or what
    was there. *)
Lemma grid_get_set g idx p0 p idx' q :
  grid_get g idx = Ok p0 ->
  grid_get (grid_set g idx p) idx' = Ok q ->
  (idx' = idx /\ q = p) \/ grid_get g idx' = Ok q.
Proof.
  destruct idx as [[i j] k], idx' as [[i' j'] k']. unfold grid_get, grid_set.
  destruct (vec_get g i) as [g_i|] eqn:Hi; [|discriminate]. cbn [bind].
  destruct (vec_get g_i j) as [g_ij|] eqn:Hj; [|discriminate]. cbn [bind].
  intros Hk.
  apply vec_get_Some in Hi, Hj, Hk.
  destruct Hi as [Hi0 Hi], Hj as [Hj0 Hj], Hk as [Hk0 Hk].
  rewrite Hi, Hj.
  destruct (vec_get _ i') as [h_i|] eqn:Hi'; [|discriminate]. cbn [bind].
  destruct (vec_get h_i j') as [h_ij|] eqn:Hj'; [|discriminate]. cbn [bind].
  intros Hk'.
  apply vec_get_Some in Hi', Hj', Hk'.
  destruct Hi' as [Hi0' Hi'], Hj' as [Hj0' Hj'], Hk' as [Hk0' Hk'].
  assert (Hli : (Z.to_nat i < length g)%nat) by (apply nth_error_Some; congruence).
  assert (Hlj : (Z.to_nat j < length g_i)%nat) by (apply nth_error_Some; congruence).
  assert (Hlk : (Z.to_nat k < length g_ij)%nat) by (apply nth_error_Some; congruence).
  destruct (Nat.eq_dec (Z.to_nat i) (Z.to_nat i')) as [Ei|Ei].
  - rewrite <- Ei, nth_error_vec_set_eq in Hi' by exact Hli. injection Hi' as <-.
    destruct (Nat.eq_dec (Z.to_nat j) (Z.to_nat j')) as [Ej|Ej].
    + rewrite <- Ej, nth_error_vec_set_eq in Hj' by exact Hlj. injection Hj' as <-.
      destruct (Nat.eq_dec (Z.to_nat k) (Z.to_nat k')) as [Ek|Ek].
      * rewrite <- Ek, nth_error_vec_set_eq in Hk' by exact Hlk. injection Hk' as <-.
        left. split; [|reflexivity]. f_equal; [f_equal|]; lia.
      * rewrite nth_error_vec_set_neq in Hk' by exact Ek. right.
        rewrite (proj2 (vec_get_Some g i' g_i)) by (split; [lia|congruence]).
        cbn [bind].
        rewrite (proj2 (vec_get_Some g_i j' g_ij)) by (split; [lia|congruence]).
        cbn [bind]. apply vec_get_Some. now split.
    + rewrite nth_error_vec_set_neq in Hj' by exact Ej. right.
      rewrite (proj2 (vec_get_Some g i' g_i)) by (split; [lia|congruence]).
      cbn [bind].
      rewrite (proj2 (vec_get_Some g_i j' h_ij)) by (split; [lia|congruence]).
      cbn [bind]. apply vec_get_Some. now split.
  - rewrite nth_error_vec_set_neq in Hi' by exact Ei. right.
    rewrite (proj2 (vec_get_Some g i' h_i)) by (split; [lia|congruence]).
    cbn [bind].
    rewrite (proj2 (vec_get_Some h_i j' h_ij)) by (split; [lia|congruence]).
    cbn [bind]. apply vec_get_Some. now split.
Qed.

(** *** The costs of a candidate *)

Section SearchFacts.

Variable E : Extern.
Variable st : Setting.
Variable fuel : nat.
Variable start_state_ : FrenetState.

(** On a cell not generated before, [getTrajAndRealCost] writes the costs
    of [materialized_ok], returns [final_cost] and pushes the cell. *)
Lemma getTrajAndRealCost_fresh search idx p cost search' :
  grid_get (Search.trajs search) idx = Ok p ->
  FrenetPath.is_generated p = false ->
  FrenetPath.s_ddd p = [] -> FrenetPath.d_ddd p = [] ->
  getTrajAndRealCost E st fuel start_state_ search idx = Ok (cost, search') ->
  exists p',
    Search.trajs search' = grid_set (Search.trajs search) idx p'
    /\ Search.candidate_trajs_ search' = p' :: Search.candidate_trajs_ search
    /\ FrenetPath.is_generated p' = true
    /\ FrenetPath.fix_cost p' = FrenetPath.fix_cost p
    /\ cost = FrenetPath.final_cost p'
    /\ materialized_ok st p'.
Proof.
  intros Hget Hgen Hs Hd. unfold getTrajAndRealCost. rewrite Hget. cbn [bind].
  rewrite Hgen, Hs, Hd.
  destruct (time_ticks _ _ _ _) as [ts|]; [|discriminate]. cbn [bind].
  intros [= <- <-]. eexists. cbn [Search.trajs Search.candidate_trajs_].
  split; [reflexivity|]. split; [reflexivity|].
  cbn. repeat split.
Qed.

Lemma getTrajAndRealCost_ok search idx cost search' :
  search_ok st search ->
  getTrajAndRealCost E st fuel start_state_ search idx = Ok (cost, search') ->
  search_ok st search'.
Proof.
  intros [Hgrid Hqueue] Hr.
  destruct (grid_get (Search.trajs search) idx) as [p|] eqn:Hget;
    [|unfold getTrajAndRealCost in Hr; rewrite Hget in Hr; discriminate].
  destruct (FrenetPath.is_generated p) eqn:Hgen.
  - unfold getTrajAndRealCost in Hr. rewrite Hget in Hr. cbn [bind] in Hr.
    rewrite Hgen in Hr. injection Hr as <- <-. now split.
  - pose proof (Hgrid idx p Hget) as Hcell. unfold cell_ok in Hcell.
    rewrite Hgen in Hcell. destruct Hcell as [Hs Hd].
    destruct (getTrajAndRealCost_fresh _ _ _ _ _ Hget Hgen Hs Hd Hr)
      as (p' & Htrajs & Hq & Hgen' & _ & _ & Hok).
    split.
    + rewrite Htrajs. intros idx' q Hq'.
      destruct (grid_get_set _ _ _ _ _ _ Hget Hq') as [[_ ->]|Hold].
      * unfold cell_ok. now rewrite Hgen'.
      * eauto.
    + rewrite Hq. constructor; [now split|exact Hqueue].
Qed.

Lemma gradient_dim_ok sizes directions idx cost_center dim search g search' :
  search_ok st search ->
  gradient_dim E st fuel start_state_ sizes directions idx cost_center dim search
  = Ok (g, search') ->
  search_ok st search'.
Proof.
  intros Hok. unfold gradient_dim.
  destruct (0 <=? vec3_get directions dim)%Z;
    destruct (getTrajAndRealCost _ _ _ _ _ _) as [[cost s1]|] eqn:Hc; try discriminate;
    cbn [bind]; intros [= _ <-]; eauto using getTrajAndRealCost_ok.
Qed.

Lemma findGradients_ok search idx gradients search' :
  search_ok st search ->
  findGradients E st fuel start_state_ search idx = Ok (gradients, search') ->
  search_ok st search'.
Proof.
  intros Hok. unfold findGradients.
  destruct (vec_get (Search.trajs search) 0) as [trajs_0|]; [|discriminate]. cbn [bind].
  destruct (vec_get trajs_0 0) as [trajs_00|]; [|discriminate]. cbn [bind].
  destruct (getTrajAndRealCost _ _ _ _ _ _) as [[cost_center s0]|] eqn:H0;
    [|discriminate]. cbn [bind].
  apply getTrajAndRealCost_ok in H0; [|exact Hok].
  destruct (gradient_dim _ _ _ _ _ _ _ _ 0%Z _) as [[g0 s1]|] eqn:H1; [|discriminate].
  cbn [bind]. apply gradient_dim_ok in H1; [|exact H0].
  destruct (gradient_dim _ _ _ _ _ _ _ _ 1%Z _) as [[g1 s2]|] eqn:H2; [|discriminate].
  cbn [bind]. apply gradient_dim_ok in H2; [|exact H1].
  destruct (gradient_dim _ _ _ _ _ _ _ _ 2%Z _) as [[g2 s3]|] eqn:H3; [|discriminate].
  cbn [bind]. apply gradient_dim_ok in H3; [|exact H2].
  now intros [= _ <-].
Qed.

Lemma findNextBest_ok search idx converged search' idx' :
  search_ok st search ->
  findNextBest E st fuel start_state_ search idx = Ok (converged, search', idx') ->
  search_ok st search'.
Proof.
  intros [Hgrid Hqueue]. unfold findNextBest.
  destruct (grid_get (Search.trajs search) idx) as [p|] eqn:Hget; [|discriminate].
  cbn [bind]. destruct (FrenetPath.is_used p).
  - intros [= _ <- _]. now split.
  - destruct (findGradients _ _ _ _ _ _) as [[gradients s1]|] eqn:Hg; [|discriminate].
    cbn [bind]. destruct (max_gradient gradients). intros [= _ <- _].
    apply findGradients_ok in Hg; [exact Hg|]. split; [|exact Hqueue].
    cbn [Search.trajs]. intros idx'' q Hq.
    destruct (grid_get_set _ _ _ _ _ _ Hget Hq) as [[_ ->]|Hold]; [|eauto].
    exact (Hgrid idx p Hget).
Qed.

Lemma search_loop_ok n : forall search idx num_iter search' idx' num_iter',
  search_ok st search ->
  search_loop E st fuel start_state_ n search idx num_iter
  = Ok (search', idx', num_iter') ->
  search_ok st search'.
Proof.
  induction n as [|n IH]; intros search idx num_iter search' idx' num_iter' Hok;
    cbn [search_loop]; [discriminate|].
  destruct (findNextBest _ _ _ _ _ _) as [[[converged s1] idx1]|] eqn:Hf; [|discriminate].
  cbn [bind]. apply findNextBest_ok in Hf; [|exact Hok].
  destruct converged; [now intros [= <- _ _]|]. now apply IH.
Qed.

End SearchFacts.

Lemma sampleEndStates_search_ok st start_state_ lane_id left_bound right_bound
  current_speed q :
  Forall (fun p => FrenetPath.is_generated p = true /\ materialized_ok st p) q ->
  search_ok st
    {| Search.trajs :=
         fst (sampleEndStates st start_state_ lane_id left_bound right_bound current_speed);
       Search.candidate_trajs_ := q;
       Search.num_traj := 0 |}.
Proof.
  intros Hq. split; [|exact Hq]. cbn [Search.trajs].
  rewrite sampleEndStates_spec. cbn [fst]. intros [[i j] k] p Hp.
  apply grid_get_map in Hp. unfold cells in Hp.
  apply in_flat_map in Hp. destruct Hp as (i' & _ & Hp).
  apply in_flat_map in Hp. destruct Hp as (j' & _ & Hp).
  apply in_map_iff in Hp. destruct Hp as (k' & [= _ _ _ <-] & _).
  split; reflexivity.
Qed.

Lemma same_costs_materialized st c b :
  same_costs c b -> materialized_ok st c -> materialized_ok st b.
Proof.
  intros (Hf & Hd & Hfin & Hs & Hdd) [H1 H2]. unfold materialized_ok.
  rewrite Hf, Hd, Hfin, Hs, Hdd. now split.
Qed.

Lemma convertToGlobalFrame_same_costs E traj cubic_spline traj' :
  convertToGlobalFrame E traj cubic_spline = Ok traj' -> same_costs traj traj'.
Proof.
  unfold convertToGlobalFrame.
  destruct (global_positions _ _ _ _ _ _) as [[x y]|]; [|discriminate]. cbn [bind].
  destruct (global_yaw_ds _ _ _ _ _) as [[yaw ds]|]; [|discriminate]. cbn [bind].
  destruct (vec_back yaw); [|discriminate]. cbn [bind].
  destruct (vec_back ds); [|discriminate]. cbn [bind].
  destruct (global_curvature _ _ _ _); [|discriminate]. cbn [bind].
  intros [= <-]. repeat split.
Qed.

Lemma checkConstraints_same_costs st traj passed traj' :
  checkConstraints st traj = Ok (passed, traj') -> same_costs traj traj'.
Proof.
  unfold checkConstraints. destruct (checkConstraints_loop _ _ _); [|discriminate].
  cbn [bind]. intros [= _ <-]. repeat split.
Qed.

Lemma checkCollisions_same_costs E st traj obstacle_trajs obstacles use_async n
  passed traj' n' :
  checkCollisions E st traj obstacle_trajs obstacles use_async n = Ok (passed, traj', n') ->
  same_costs traj traj'.
Proof.
  unfold checkCollisions.
  destruct (if use_async then _ else _) as [[b m]|]; [|discriminate].
  cbn [bind]. intros [= _ <- _]. repeat split.
Qed.

Lemma same_costs_trans a b c : same_costs a b -> same_costs b c -> same_costs a c.
Proof.
  unfold same_costs. intros (H1 & H2 & H3 & H4 & H5) (K1 & K2 & K3 & K4 & K5).
  repeat split; congruence.
Qed.

(** The trajectory the validation loop settles on carries the costs of a
    candidate that was popped. *)
Lemma validation_loop_best E st cubic_spline obstacle_trajs obstacles
  check_collision use_async n : forall v v' b,
  validation_loop E st n cubic_spline obstacle_trajs obstacles check_collision
    use_async v = Ok v' ->
  Validation.best_traj v = None ->
  Validation.best_traj v' = Some b ->
  exists c, In c (Validation.popped v') /\ same_costs c b.
Proof.
  induction n as [|n IH]; intros v v' b; cbn [validation_loop];
    destruct (pq_pop (Validation.candidate_trajs_ v)) as [[candidate_traj rest]|] eqn:Hpop;
    try discriminate;
    try (intros [= <-] Hnone Hsome; congruence).
  destruct (convertToGlobalFrame E candidate_traj cubic_spline) as [converted|] eqn:Hc;
    [|discriminate]. cbn [bind].
  apply convertToGlobalFrame_same_costs in Hc.
  destruct (checkConstraints st converted) as [[is_safe checked]|] eqn:Hk; [|discriminate].
  apply checkConstraints_same_costs in Hk.
  cbn [bind]. destruct is_safe; cbn [negb].
  - destruct check_collision.
    + destruct (checkCollisions _ _ _ _ _ _ _) as [[[is_safe collided] checks]|] eqn:Hx;
        [|discriminate].
      apply checkCollisions_same_costs in Hx.
      cbn [bind]. destruct is_safe.
      * intros [= <-] _ [= <-]. exists candidate_traj.
        cbn [Validation.popped]. split; [apply in_or_app; right; now left|].
        eauto using same_costs_trans.
      * intros Hloop _. exact (IH _ v' b Hloop eq_refl).
    + cbn [bind]. intros [= <-] _ [= <-]. exists candidate_traj.
      cbn [Validation.popped]. split; [apply in_or_app; right; now left|].
      eauto using same_costs_trans.
  - intros Hloop _. exact (IH _ v' b Hloop eq_refl).
Qed.

Lemma jerk_sum_not_negative v : not_negative (Prim2SF (jerk_sum v)).
Proof.
  unfold jerk_sum.
  assert (H : not_negative (Prim2SF 0)) by exact I.
  revert H. generalize 0. induction v as [|j v IH]; intros acc Hacc; cbn [fold_left].
  - exact Hacc.
  - apply IH, add_not_negative; [exact Hacc|apply square_not_negative].
Qed.

Lemma isnan_false_Prim2SF x : Double.isnan x = false -> Prim2SF x <> S754_nan.
Proof.
  unfold Double.isnan. rewrite classify_spec. intros H Hx. rewrite Hx in H.
  discriminate.
Qed.

(** With weights that are not negative, [dyn_cost] is not negative and
    cannot pull [final_cost] below [fix_cost]. *)
Lemma materialized_ok_costs_ok st p : materialized_ok st p -> costs_ok st p.
Proof.
  intros Hp. split; [exact Hp|]. destruct Hp as [Hdyn Hfinal].
  unfold weights_not_negative, Double.ge. intros Hw Hnan.
  apply andb_true_iff in Hw. destruct Hw as [Hw Hlat].
  apply andb_true_iff in Hw. destruct Hw as [Hjerk Hlon].
  apply leb_zero_not_negative in Hjerk, Hlon, Hlat.
  apply isnan_false_Prim2SF in Hnan.
  rewrite Hfinal in *. apply add_not_below; [|exact Hnan].
  rewrite Hdyn.
  apply mul_not_negative; [exact Hjerk|].
  apply add_not_negative;
    (apply mul_not_negative; [assumption|apply jerk_sum_not_negative]).
Qed.

(** C9, as stated, fails: with a negative jerk weight the candidate that
    [getTrajAndRealCost] materializes at cell (1, 2, 2) has a negative
    [dyn_cost], and [final_cost = fix_cost + dyn_cost] is below
    [fix_cost]. With weights that are not negative it fails on the grid of
    scenario S5, whose lateral offsets are NaN: the candidate materialized
    at cell (0, 0, 0) has NaN costs, and [final_cost >= fix_cost] is
    false. *)
Lemma final_cost_below_fix_cost :
  ((exists search,
      getTrajAndRealCost Example.extern Scenario.settings_negative_jerk 100
        Scenario.start_centre Scenario.search_negative_jerk (1, 2, 2)%Z
      = Ok (FrenetPath.final_cost Scenario.materialized_negative_jerk, search)
      /\ grid_get (Search.trajs search) (1, 2, 2)%Z
         = Ok Scenario.materialized_negative_jerk)
   /\ FrenetPath.is_generated Scenario.materialized_negative_jerk = true
   /\ FrenetPath.final_cost Scenario.materialized_negative_jerk
      = FrenetPath.fix_cost Scenario.materialized_negative_jerk
        + FrenetPath.dyn_cost Scenario.materialized_negative_jerk
   /\ (FrenetPath.dyn_cost Scenario.materialized_negative_jerk <? 0) = true
   /\ (FrenetPath.final_cost Scenario.materialized_negative_jerk
       <? FrenetPath.fix_cost Scenario.materialized_negative_jerk) = true
   /\ Double.ge (FrenetPath.final_cost Scenario.materialized_negative_jerk)
        (FrenetPath.fix_cost Scenario.materialized_negative_jerk) = false)
  /\ ((exists search,
         getTrajAndRealCost Example.extern Scenario.settings_S5 100
           Scenario.start_centre Scenario.search_S5 (0, 0, 0)%Z
         = Ok (FrenetPath.final_cost Scenario.materialized_S5, search)
         /\ grid_get (Search.trajs search) (0, 0, 0)%Z = Ok Scenario.materialized_S5)
      /\ weights_not_negative Scenario.settings_S5 = true
      /\ FrenetPath.is_generated Scenario.materialized_S5 = true
      /\ Double.isnan (FrenetPath.final_cost Scenario.materialized_S5) = true
      /\ Double.ge (FrenetPath.final_cost Scenario.materialized_S5)
           (FrenetPath.fix_cost Scenario.materialized_S5) = false).
Proof.
  split.
  - split; [eexists; split; vm_compute; reflexivity|].
    repeat split; vm_compute; reflexivity.
  - split; [eexists; split; vm_compute; reflexivity|].
    repeat split; vm_compute; reflexivity.
Qed.

(** *** frenetOptimalPlanning *)






(** After a planning call that started from a queue of materialized
    candidates, every generated cell of the grid, every candidate that was
    popped or is left in the queue, and the trajectory returned are
    [materialized_ok]. *)
Lemma frenetOptimalPlanning_materialized
  E st fuel candidate_trajs_ cubic_spline start_state lane_id
  left_width right_width current_speed obstacles check_collision use_async r :
  frenetOptimalPlanning E st fuel candidate_trajs_ cubic_spline start_state lane_id
    left_width right_width current_speed obstacles check_collision use_async = Ok r ->
  Forall (fun p => FrenetPath.is_generated p = true /\ materialized_ok st p)
    candidate_trajs_ ->
  (forall idx p,
     grid_get (Planning.trajs_3d r) idx = Ok p ->
     FrenetPath.is_generated p = true -> materialized_ok st p)
  /\ Forall (materialized_ok st) (Validation.popped (Planning.validation r))
  /\ Forall (materialized_ok st) (Validation.candidate_trajs_ (Planning.validation r))
  /\ Forall (materialized_ok st) (Planning.result_ r).
Proof.
  unfold frenetOptimalPlanning. intros Hr Hq.
  destruct (predictTrajectories E st obstacles) as [obstacle_trajs|]; [|discriminate].
  cbn [bind] in Hr.
  pose proof (sampleEndStates_search_ok st start_state lane_id left_width right_width
                current_speed candidate_trajs_ Hq) as Hstart.
  destruct (sampleEndStates _ _ _ _ _ _) as [trajs_3d best_idx]. cbn [fst] in Hstart.
  destruct (vec_get trajs_3d 0) as [trajs_0|]; [|discriminate]. cbn [bind] in Hr.
  destruct (vec_get trajs_0 0) as [trajs_00|]; [|discriminate]. cbn [bind] in Hr.
  destruct best_idx as [idx|]; [|discriminate]. cbn [bind] in Hr.
  destruct (search_loop _ _ _ _ _ _ _ _) as [[[search idx'] num_iter]|] eqn:Hs;
    [|discriminate].
  cbn [bind] in Hr.
  apply search_loop_ok in Hs; [|exact Hstart]. destruct Hs as [Hgrid Hqueue].
  destruct (validation_loop _ _ _ _ _ _ _ _ _) as [v|] eqn:Hv; [|discriminate].
  cbn [bind] in Hr. injection Hr as <-.
  cbn [Planning.validation Planning.result_ Planning.trajs_3d].
  pose proof (validation_loop_invariant _ _ _ _ _ _ _ _ _ _ Hv) as [HP _].
  cbn [Validation.popped Validation.candidate_trajs_ app] in HP.
  assert (Hall : Forall (materialized_ok st)
                   (Validation.popped v ++ Validation.candidate_trajs_ v)).
  { apply Forall_forall. intros p Hp. apply (Permutation_in _ HP) in Hp.
    rewrite Forall_forall in Hqueue. now apply Hqueue. }
  apply Forall_app in Hall. destruct Hall as [Hpopped Hleft].
  split; [|split; [exact Hpopped|split; [exact Hleft|]]].
  - intros i p Hp Hgen. specialize (Hgrid i p Hp). unfold cell_ok in Hgrid.
    now rewrite Hgen in Hgrid.
  - destruct (Validation.best_traj v) as [b|] eqn:Hb; [|constructor].
    destruct (validation_loop_best _ _ _ _ _ _ _ _ _ _ b Hv eq_refl Hb) as (c & Hin & Hsame).
    constructor; [|constructor].
    apply (same_costs_materialized st c b Hsame).
    rewrite Forall_forall in Hpopped. now apply Hpopped.
Qed.


(** C9 (amended). After a planning call that started from a queue of
    materialized candidates, every generated cell of the grid, every
    candidate that was popped or is left in the queue, and the trajectory
    returned have [final_cost = fix_cost + dyn_cost] and
    [dyn_cost = k_jerk * (k_lon * sum s_ddd^2 + k_lat * sum d_ddd^2)], in
    double arithmetic with the sums accumulated in tick order; and when
    [k_jerk], [k_lon] and [k_lat] are not negative and [final_cost] is not
    NaN, [final_cost >= fix_cost]. *)
Theorem frenetOptimalPlanning_costs
  E st fuel candidate_trajs_ cubic_spline start_state lane_id
  left_width right_width current_speed obstacles check_collision use_async r :
  frenetOptimalPlanning E st fuel candidate_trajs_ cubic_spline start_state lane_id
    left_width right_width current_speed obstacles check_collision use_async = Ok r ->
  Forall (fun p => FrenetPath.is_generated p = true /\ materialized_ok st p)
    candidate_trajs_ ->
  (forall idx p,
     grid_get (Planning.trajs_3d r) idx = Ok p ->
     FrenetPath.is_generated p = true -> costs_ok st p)
  /\ Forall (costs_ok st) (Validation.popped (Planning.validation r))
  /\ Forall (costs_ok st) (Validation.candidate_trajs_ (Planning.validation r))
  /\ Forall (costs_ok st) (Planning.result_ r).
Proof.
  intros Hr Hq.
  destruct (frenetOptimalPlanning_materialized _ _ _ _ _ _ _ _ _ _ _ _ _ _ Hr Hq)
    as (Hgrid & Hpopped & Hleft & Hresult).
  split; [|split; [|split]].
  - intros idx p Hp Hgen. now apply materialized_ok_costs_ok, (Hgrid idx).
  - revert Hpopped. apply Forall_impl, materialized_ok_costs_ok.
  - revert Hleft. apply Forall_impl, materialized_ok_costs_ok.
  - revert Hresult. apply Forall_impl, materialized_ok_costs_ok.
Qed.

Lemma frenetOptimalPlanning_costs_witness :
  weights_not_negative Scenario.settings = true
  /\ (forall idx p,
       grid_get (Planning.trajs_3d Scenario.planned_offset) idx = Ok p ->
       FrenetPath.is_generated p = true -> costs_ok Scenario.settings p)
  /\ Forall (costs_ok Scenario.settings)
       (Validation.popped (Planning.validation Scenario.planned_offset))
  /\ Forall (costs_ok Scenario.settings)
       (Validation.candidate_trajs_ (Planning.validation Scenario.planned_offset))
  /\ Forall (costs_ok Scenario.settings) (Planning.result_ Scenario.planned_offset).
Proof.
  split; [vm_compute; reflexivity|].
  apply (frenetOptimalPlanning_costs Example.extern Scenario.settings 100 []
           Scenario.reference_offset Scenario.start_centre 0 1 (-1) 5 [] true false
           Scenario.planned_offset).
  - vm_compute. reflexivity.
  - constructor.
Defined.

(* ================================================================= *)
(** ** Further properties of the code *)

(** *** Loops *)

Lemma for_loop_run {St : Type} (body : Z -> St -> result St) n : forall fuel i st,
  (n <= fuel)%nat ->
  for_loop fuel i (i + Z.of_nat n) body st = run_loop n i body st.
Proof.
  induction n as [|n IH]; intros fuel i st Hfuel.
  - replace (i + Z.of_nat 0)%Z with i by lia.
    destruct fuel; cbn [for_loop run_loop]; now rewrite Z.ltb_irrefl.
  - destruct fuel as [|fuel]; [lia|]. cbn [for_loop run_loop].
    replace (i <? i + Z.of_nat (S n))%Z with true by (symmetry; apply Z.ltb_lt; lia).
    destruct (body i st) as [st'|f]; cbn [bind]; [|reflexivity].
    replace (i + Z.of_nat (S n))%Z with (i + 1 + Z.of_nat n)%Z by lia.
    apply IH. lia.
Qed.

Lemma vec_at_middle {A} (pre : list A) a rest :
  vec_at (pre ++ a :: rest) (Z.of_nat (length pre)) = Ok a.
Proof.
  unfold vec_at.
  replace (Z.of_nat (length pre) <? 0)%Z with false by (symmetry; apply Z.ltb_ge; lia).
  rewrite Nat2Z.id, nth_error_app2 by lia. now rewrite Nat.sub_diag.
Qed.

Lemma vec_at_middle_next {A} (pre : list A) a b rest :
  vec_at (pre ++ a :: b :: rest) (Z.of_nat (length pre) + 1) = Ok b.
Proof.
  replace (pre ++ a :: b :: rest) with ((pre ++ [a]) ++ b :: rest)
    by (now rewrite <- app_assoc).
  replace (Z.of_nat (length pre) + 1)%Z with (Z.of_nat (length (pre ++ [a])))
    by (rewrite length_app; cbn [length]; lia).
  apply vec_at_middle.
Qed.

(** *** The arc length of the waypoints *)

Lemma differences_length v : length (differences v) = (length v - 1)%nat.
Proof.
  induction v as [|a [|b v] IH]; [reflexivity|reflexivity|].
  cbn [differences length] in *. lia.
Qed.

Lemma calculate_s_differences wx wy : forall rest_x pre_x rest_y pre_y dx dy,
  wx = pre_x ++ rest_x -> wy = pre_y ++ rest_y ->
  length pre_x = length pre_y ->
  (length rest_x <= 1 \/ length rest_x <= length rest_y)%nat ->
  run_loop (length rest_x - 1) (Z.of_nat (length pre_x))
    (fun i '(dx, dy) =>
       x1 <- vec_at wx (i + 1) ;; x0 <- vec_at wx i ;;
       y1 <- vec_at wy (i + 1) ;; y0 <- vec_at wy i ;;
       Ok (dx ++ [x1 - x0], dy ++ [y1 - y0]))
    (dx, dy)
  = Ok (dx ++ differences rest_x,
        dy ++ firstn (length rest_x - 1) (differences rest_y)).
Proof.
  induction rest_x as [|a [|b r] IH]; intros pre_x rest_y pre_y dx dy Hx Hy Hpre Hlen.
  - cbn. now rewrite !app_nil_r.
  - cbn. now rewrite !app_nil_r.
  - destruct rest_y as [|a' [|b' r']]; cbn [length] in Hlen; try lia.
    replace (length (a :: b :: r) - 1)%nat with (S (length (b :: r) - 1))
      by (cbn [length]; lia).
    assert (Hx1 : vec_at wx (Z.of_nat (length pre_x) + 1) = Ok b)
      by (rewrite Hx; apply vec_at_middle_next).
    assert (Hx0 : vec_at wx (Z.of_nat (length pre_x)) = Ok a)
      by (rewrite Hx; apply vec_at_middle).
    assert (Hy1 : vec_at wy (Z.of_nat (length pre_x) + 1) = Ok b')
      by (rewrite Hy, Hpre; apply vec_at_middle_next).
    assert (Hy0 : vec_at wy (Z.of_nat (length pre_x)) = Ok a')
      by (rewrite Hy, Hpre; apply vec_at_middle).
    cbn [run_loop]. rewrite Hx1, Hx0, Hy1, Hy0. cbn [bind].
    replace (Z.of_nat (length pre_x) + 1)%Z with (Z.of_nat (length (pre_x ++ [a])))
      by (rewrite length_app; cbn [length]; lia).
    rewrite (IH (pre_x ++ [a]) (b' :: r') (pre_y ++ [a']));
      [|now rewrite <- app_assoc|now rewrite <- app_assoc
       |rewrite !length_app; cbn [length]; lia|cbn [length] in *; lia].
    rewrite <- !app_assoc. cbn [app differences firstn length Nat.sub].
    rewrite Nat.sub_0_r. reflexivity.
Qed.

Lemma combine_firstn_length {A B} (l : list A) : forall (l' : list B),
  combine l (firstn (length l) l') = combine l l'.
Proof.
  induction l as [|a l IH]; intros [|b l']; cbn; try reflexivity.
  now rewrite IH.
Qed.

Lemma calculate_s_chords dx dy : forall rest_x pre_x rest_y pre_y ds,
  dx = pre_x ++ rest_x -> dy = pre_y ++ rest_y ->
  length pre_x = length pre_y -> (length rest_x <= length rest_y)%nat ->
  fold_left
    (fun acc i =>
       ds <- acc ;;
       dxi <- vec_at dx i ;; dyi <- vec_at dy i ;;
       Ok (ds ++ [sqrt (dxi * dxi + dyi * dyi)]))
    (map Z.of_nat (seq (length pre_x) (length rest_x))) (Ok ds)
  = Ok (ds ++ map (fun '(dx, dy) => sqrt (dx * dx + dy * dy)) (combine rest_x rest_y)).
Proof.
  induction rest_x as [|a r IH]; intros pre_x rest_y pre_y ds Hx Hy Hpre Hlen.
  - cbn. now rewrite app_nil_r.
  - destruct rest_y as [|a' r']; cbn [length] in Hlen; [lia|].
    assert (Hx0 : vec_at dx (Z.of_nat (length pre_x)) = Ok a)
      by (rewrite Hx; apply vec_at_middle).
    assert (Hy0 : vec_at dy (Z.of_nat (length pre_x)) = Ok a')
      by (rewrite Hy, Hpre; apply vec_at_middle).
    cbn [length seq map fold_left bind]. rewrite Hx0, Hy0. cbn [bind].
    replace (S (length pre_x)) with (length (pre_x ++ [a]))
      by (rewrite length_app; cbn [length]; lia).
    rewrite (IH (pre_x ++ [a]) r' (pre_y ++ [a']));
      [|now rewrite <- app_assoc|now rewrite <- app_assoc
       |rewrite !length_app; cbn [length]; lia|lia].
    rewrite <- app_assoc. reflexivity.
Qed.

Lemma calculate_s_cumulative ds : forall rest pre s a,
  ds = pre ++ rest -> length s = length pre ->
  fold_left
    (fun acc i =>
       s <- acc ;;
       si <- vec_at s i ;; dsi <- vec_at ds i ;;
       Ok (s ++ [si + dsi]))
    (map Z.of_nat (seq (length pre) (length rest))) (Ok (s ++ [a]))
  = Ok (s ++ cumulative a rest).
Proof.
  induction rest as [|d r IH]; intros pre s a Hds Hlen.
  - reflexivity.
  - assert (Hs0 : vec_at (s ++ [a]) (Z.of_nat (length pre)) = Ok a)
      by (rewrite <- Hlen; apply vec_at_middle).
    assert (Hd0 : vec_at ds (Z.of_nat (length pre)) = Ok d)
      by (rewrite Hds; apply vec_at_middle).
    cbn [length seq map fold_left bind]. rewrite Hs0, Hd0. cbn [bind].
    replace (S (length pre)) with (length (pre ++ [d]))
      by (rewrite length_app; cbn [length]; lia).
    rewrite <- app_assoc. cbn [app].
    replace (s ++ a :: [a + d]) with ((s ++ [a]) ++ [a + d])
      by (now rewrite <- app_assoc).
    rewrite (IH (pre ++ [d]) (s ++ [a]) (a + d));
      [|now rewrite <- app_assoc|rewrite !length_app; cbn [length]; lia].
    rewrite <- app_assoc. reflexivity.
Qed.

Lemma cumulative_length a ds : length (cumulative a ds) = S (length ds).
Proof.
  revert a. induction ds as [|d ds IH]; intros a; [reflexivity|].
  cbn [cumulative length]. now rewrite IH.
Qed.

Lemma sqrt_not_negative (x : double) : not_negative (Prim2SF (sqrt x)).
Proof.
  rewrite sqrt_spec. unfold SF64sqrt.
  destruct (Prim2SF x) as [s|[|]| |[|] m e]; cbn [SFsqrt not_negative]; try exact I;
    try reflexivity.
  destruct (SFsqrt_core_binary prec emax (Zpos m) e) as [[mz ez] lz].
  apply has_sign_not_negative, binary_round_aux_sign.
Qed.

Lemma cumulative_nondecreasing ds : forall a,
  Forall (fun d => not_negative (Prim2SF d)) ds -> nondecreasing (cumulative a ds).
Proof.
  induction ds as [|d ds IH]; intros a Hds; [exact I|].
  inversion Hds as [|? ? Hd Hds']; subst.
  cbn [cumulative]. specialize (IH (a + d) Hds').
  destruct ds as [|d' ds]; cbn [cumulative nondecreasing] in *.
  - split; [|exact I]. intros Hnan.
    apply add_not_below; [exact Hd|now apply isnan_false_Prim2SF].
  - split; [|exact IH]. intros Hnan.
    apply add_not_below; [exact Hd|now apply isnan_false_Prim2SF].
Qed.

Lemma chords_not_negative wx wy :
  Forall (fun d => not_negative (Prim2SF d)) (chords wx wy).
Proof.
  unfold chords. apply Forall_forall. intros d Hd.
  apply in_map_iff in Hd. destruct Hd as ([dx dy] & <- & _).
  apply sqrt_not_negative.
Qed.

Lemma calculate_s_result wps :
  Map.x wps <> [] ->
  (length (Map.x wps) = 1 \/ length (Map.x wps) <= length (Map.y wps))%nat ->
  (vec_size (Map.x wps) <= 2 ^ 64)%Z ->
  calculate_s wps = Ok (cumulative 0 (chords (Map.x wps) (Map.y wps))).
Proof.
  intros Hne Hlen Hsize. destruct wps as [wx wy]. cbn [Map.x Map.y] in *.
  assert (Hpos : (1 <= length wx)%nat) by (destruct wx; [easy|cbn; lia]).
  assert (Hchords : length (chords wx wy) = (length wx - 1)%nat).
  { unfold chords. rewrite length_map, length_combine, !differences_length. lia. }
  unfold calculate_s. cbn [Map.x Map.y].
  unfold vec_size in *. rewrite size_t_wrap_small by lia.
  replace (Z.of_nat (length wx) - 1)%Z with (0 + Z.of_nat (length wx - 1))%Z by lia.
  rewrite for_loop_run by lia.
  pose proof (calculate_s_differences wx wy wx [] wy [] [] []
                eq_refl eq_refl eq_refl ltac:(lia)) as H1.
  cbn [length app] in H1. change (Z.of_nat 0) with 0%Z in H1. rewrite H1.
  cbn [bind]. unfold int_range, vec_size. rewrite Nat2Z.id.
  rewrite differences_length.
  assert (Hfirstn : (length (differences wx)
                     <= length (firstn (length wx - 1) (differences wy)))%nat)
    by (rewrite length_firstn, !differences_length; lia).
  pose proof (calculate_s_chords (differences wx)
                (firstn (length wx - 1) (differences wy))
                (differences wx) [] (firstn (length wx - 1) (differences wy)) [] []
                eq_refl eq_refl eq_refl Hfirstn) as H2.
  cbn [length app] in H2. rewrite differences_length in H2. rewrite H2.
  assert (Hds : map (fun '(dx, dy) => sqrt (dx * dx + dy * dy))
                  (combine (differences wx) (firstn (length wx - 1) (differences wy)))
                = chords wx wy).
  { unfold chords. rewrite <- (differences_length wx), combine_firstn_length.
    reflexivity. }
  rewrite Hds. cbn [bind]. rewrite Nat2Z.id.
  pose proof (calculate_s_cumulative (chords wx wy) (chords wx wy) [] [] 0
                eq_refl eq_refl) as H3.
  cbn [length app] in H3. exact H3.
Qed.

(** X1. [calculate_s] returns the running sums of the chord lengths, from
    [0.0]: one entry per waypoint, never decreasing unless NaN. *)
Theorem calculate_s_arc_length wps :
  Map.x wps <> [] ->
  (length (Map.x wps) = 1 \/ length (Map.x wps) <= length (Map.y wps))%nat ->
  (vec_size (Map.x wps) <= 2 ^ 64)%Z ->
  calculate_s wps = Ok (cumulative 0 (chords (Map.x wps) (Map.y wps)))
  /\ length (cumulative 0 (chords (Map.x wps) (Map.y wps))) = length (Map.x wps)
  /\ nondecreasing (cumulative 0 (chords (Map.x wps) (Map.y wps))).
Proof.
  intros Hne Hlen Hsize. destruct wps as [wx wy]. cbn [Map.x Map.y] in *.
  assert (Hpos : (1 <= length wx)%nat) by (destruct wx; [easy|cbn; lia]).
  assert (Hchords : length (chords wx wy) = (length wx - 1)%nat).
  { unfold chords. rewrite length_map, length_combine, !differences_length. lia. }
  split; [|split].
  - exact (calculate_s_result {| Map.x := wx; Map.y := wy |} Hne Hlen Hsize).
  - rewrite cumulative_length. lia.
  - apply cumulative_nondecreasing, chords_not_negative.
Qed.

Lemma calculate_s_arc_length_witness :
  calculate_s Scenario.waypoints = Ok [0; 10; 20; 30; 40]
  /\ (calculate_s Scenario.waypoints
      = Ok (cumulative 0 (chords (Map.x Scenario.waypoints) (Map.y Scenario.waypoints)))
      /\ length (cumulative 0 (chords (Map.x Scenario.waypoints) (Map.y Scenario.waypoints)))
         = length (Map.x Scenario.waypoints)
      /\ nondecreasing
           (cumulative 0 (chords (Map.x Scenario.waypoints) (Map.y Scenario.waypoints)))).
Proof.
  split; [vm_compute; reflexivity|].
  apply (calculate_s_arc_length Scenario.waypoints).
  - vm_compute. discriminate.
  - right. vm_compute. lia.
  - vm_compute. discriminate.
Defined.

(** *** The spline *)

Lemma searchIndex_scan E (xs : list double) (t : double) (d : double) (n : nat) :
  (n <= length xs)%nat ->
  exists index : nat,
    fold_left
      (fun acc i =>
         index <- acc ;;
         xi <- vec_at xs i ;;
         Ok (if cmp_doubles_greater_or_equal E t xi then i else index))
      (map Z.of_nat (seq 0 n)) (Ok 0%Z) = Ok (Z.of_nat index)
    /\ (index < Nat.max 1 n)%nat
    /\ (forall j, (index < j < n)%nat ->
        cmp_doubles_greater_or_equal E t (nth j xs d) = false)
    /\ ((0 < index)%nat -> cmp_doubles_greater_or_equal E t (nth index xs d) = true).
Proof.
  induction n as [|n IH]; intros Hn.
  - exists 0%nat. cbn. repeat split; lia.
  - destruct (IH ltac:(lia)) as (index & Hfold & Hlt & Hafter & Hat).
    rewrite seq_S, map_app, fold_left_app, Hfold. cbn [map fold_left bind Nat.add].
    rewrite (vec_at_nth xs n d) by lia. cbn [bind].
    destruct (cmp_doubles_greater_or_equal E t (nth n xs d)) eqn:Hc.
    + exists n. repeat split; try lia. intros _. exact Hc.
    + exists index. repeat split; try lia; [|exact Hat].
      intros j Hj. destruct (Nat.eq_dec j n) as [->|Hne]; [exact Hc|].
      apply Hafter. lia.
Qed.

(** X2. [searchIndex] never faults. It returns the last index whose knot
    compares below or equal to [t], and [0] when there is none; the index
    is below the number of knots (or is [0] for a spline without knots). *)
Theorem searchIndex_last_match E sp t d :
  exists index : nat,
    searchIndex E sp t = Ok (Z.of_nat index)
    /\ (index < Nat.max 1 (length (Spline.x_ sp)))%nat
    /\ (forall j, (index < j < length (Spline.x_ sp))%nat ->
        cmp_doubles_greater_or_equal E t (nth j (Spline.x_ sp) d) = false)
    /\ ((0 < index)%nat ->
        cmp_doubles_greater_or_equal E t (nth index (Spline.x_ sp) d) = true).
Proof.
  unfold searchIndex, int_range, vec_size. rewrite Nat2Z.id.
  apply searchIndex_scan. lia.
Qed.

Lemma fold_left_Fault {A B} (F : A -> B -> result A) l f :
  fold_left (fun acc i => a <- acc ;; F a i) l (Fault f) = Fault f.
Proof. induction l as [|i l IH]; [reflexivity|exact IH]. Qed.

Lemma calculate_s_head wps s :
  calculate_s wps = Ok s -> exists s', s = 0 :: s'.
Proof.
  unfold calculate_s.
  destruct (for_loop _ _ _ _ _) as [[dx dy]|]; [|discriminate]. cbn [bind].
  destruct (fold_left _ _ (Ok [])) as [ds|]; [|discriminate]. cbn [bind].
  generalize (int_range (vec_size ds)). intros l.
  assert (H : forall (s0 : list double) r,
             fold_left
               (fun acc i =>
                  s <- acc ;; si <- vec_at s i ;; dsi <- vec_at ds i ;;
                  Ok (s ++ [si + dsi])) l (Ok (0 :: s0)) = Ok r ->
             exists s', r = 0 :: s').
  { induction l as [|i l IH]; intros s0 r.
    - cbn. intros [= <-]. now exists s0.
    - cbn [fold_left bind].
      destruct (vec_at (0 :: s0) i) as [si|f]; cbn [bind];
        [|rewrite (fold_left_Fault
                     (fun s i => si <- vec_at s i ;; dsi <- vec_at ds i ;;
                                 Ok (s ++ [si + dsi]))); discriminate].
      destruct (vec_at ds i) as [dsi|f]; cbn [bind];
        [|rewrite (fold_left_Fault
                     (fun s i => si <- vec_at s i ;; dsi <- vec_at ds i ;;
                                 Ok (s ++ [si + dsi]))); discriminate].
      apply (IH (s0 ++ [si + dsi])). }
  apply (H []).
Qed.

Lemma outside_true E sp t x0 rest :
  Spline.x_ sp = x0 :: rest ->
  (t <? x0) = true \/ (last (x0 :: rest) 0 <? t) = true ->
  outside sp t = Ok true
  /\ Spline_calculatePoint E sp t = Ok 0
  /\ Spline_calculateFirstDerivative E sp t = Ok 0
  /\ Spline_calculateSecondDerivative E sp t = Ok 0.
Proof.
  intros Hx Ht.
  assert (Hout : outside sp t = Ok true).
  { unfold outside. rewrite Hx. cbn [vec_at Z.ltb Z.compare Z.to_nat nth_error bind].
    destruct (t <? x0) eqn:H0; [reflexivity|].
    destruct Ht as [Ht|Ht]; [discriminate|].
    rewrite (vec_back_last (x0 :: rest) 0) by discriminate.
    cbn [bind]. now rewrite Ht. }
  unfold Spline_calculatePoint, Spline_calculateFirstDerivative,
    Spline_calculateSecondDerivative.
  rewrite Hout. cbn [bind]. auto.
Qed.

(** X3. Beyond the ends of the reference line the two splines return [0.0]:
    the position collapses to the origin and the curvature, [0/0], is
    NaN. *)
Theorem Spline2D_outside E wps sp s :
  Spline2D_new E wps = Ok sp ->
  (s <? 0) = true \/ (last (Spline2D.s_ sp) 0 <? s) = true ->
  calculatePosition E sp s = Ok {| VehicleState.x := 0; VehicleState.y := 0 |}
  /\ calculateYaw E sp s = Ok (atan2 E 0 0)
  /\ calculateCurvature E sp s = Ok nan.
Proof.
  unfold Spline2D_new. intros Hnew Hs.
  destruct (calculate_s wps) as [s_|] eqn:Hcs; [|discriminate]. cbn [bind] in Hnew.
  destruct (calculate_s_head _ _ Hcs) as (rest & ->).
  destruct (Spline_new E (0 :: rest) (Map.x wps)) as [sx_|] eqn:Hsx; [|discriminate].
  cbn [bind] in Hnew.
  destruct (Spline_new E (0 :: rest) (Map.y wps)) as [sy_|] eqn:Hsy; [|discriminate].
  cbn [bind] in Hnew. injection Hnew as <-. cbn [Spline2D.s_] in Hs.
  apply Spline_new_shape in Hsx; [|discriminate]. destruct Hsx as [Hsx _].
  apply Spline_new_shape in Hsy; [|discriminate]. destruct Hsy as [Hsy _].
  destruct (outside_true E sx_ s 0 rest Hsx Hs) as (_ & Hpx & Hdx & Hddx).
  destruct (outside_true E sy_ s 0 rest Hsy Hs) as (_ & Hpy & Hdy & Hddy).
  unfold calculatePosition, calculateYaw, calculateCurvature.
  cbn [Spline2D.sx_ Spline2D.sy_].
  rewrite Hpx, Hpy, Hdx, Hdy, Hddx, Hddy. cbn [bind]. repeat split.
Qed.

Lemma Spline2D_outside_witness :
  calculatePosition Example.extern Scenario.reference 50
  = Ok {| VehicleState.x := 0; VehicleState.y := 0 |}
  /\ calculateYaw Example.extern Scenario.reference 50
     = Ok (atan2 Example.extern 0 0)
  /\ calculateCurvature Example.extern Scenario.reference 50 = Ok nan.
Proof.
  apply (Spline2D_outside Example.extern Scenario.waypoints Scenario.reference 50).
  - vm_compute. reflexivity.
  - right. vm_compute. reflexivity.
Defined.

Lemma isfinite_finite_value x : Double.isfinite x = true -> finite_value (Prim2SF x).
Proof.
  unfold Double.isfinite, Double.isnan, Double.isinf. rewrite classify_spec.
  unfold SF64classify, SFclassify.
  destruct (Prim2SF x) as [[]|[]| |[] m e]; cbn; try discriminate; auto.
Qed.

Lemma nth_in_range (v : list double) i :
  Double.isnan (nth i v nan) = false -> (i < length v)%nat.
Proof.
  intros H. destruct (Nat.lt_ge_cases i (length v)) as [Hlt|Hge]; [exact Hlt|].
  rewrite nth_overflow in H by exact Hge. discriminate.
Qed.

Lemma isfinite_not_nan x : Double.isfinite x = true -> Double.isnan x = false.
Proof.
  unfold Double.isfinite. intros H. apply andb_true_iff in H.
  destruct (Double.isnan x); [now destruct H|reflexivity].
Qed.

Lemma sub_self x : Double.isfinite x = true -> x - x = 0.
Proof.
  intros H. apply isfinite_finite_value in H.
  rewrite <- (SF2Prim_Prim2SF (x - x)), sub_spec. unfold SF64sub.
  destruct (Prim2SF x) as [s|s| |s m e]; cbn [finite_value] in H; try easy.
  - now destruct s.
  - unfold SFsub. rewrite Z.sub_diag. reflexivity.
Qed.

Lemma mul_zero_value b z :
  finite_value (Prim2SF b) -> zero_value (Prim2SF z) -> zero_value (Prim2SF (b * z)).
Proof.
  rewrite mul_spec. unfold SF64mul.
  destruct (Prim2SF b) as [sb|sb| |sb mb eb], (Prim2SF z) as [sz|sz| |sz mz ez];
    cbn; tauto.
Qed.

Lemma zero_finite_value r : zero_value r -> finite_value r.
Proof. destruct r; cbn; auto. Qed.

Lemma add_zero_same_value r a z :
  same_value (Prim2SF r) a -> zero_value (Prim2SF z) -> same_value (Prim2SF (r + z)) a.
Proof.
  rewrite add_spec. unfold SF64add, same_value.
  destruct (Prim2SF z) as [sz|sz| |sz mz ez]; cbn [zero_value]; try easy.
  intros [->|[Hr Ha]] _.
  - destruct a as [sa|sa| |sa ma ea]; cbn [SFadd]; auto.
    right. destruct sa, sz; cbn; auto.
  - destruct (Prim2SF r) as [sr|sr| |sr mr er]; cbn [zero_value] in Hr; try easy.
    right. split; [|exact Ha]. destruct sr, sz; cbn; auto.
Qed.

Lemma same_value_eqb r a :
  same_value (Prim2SF r) (Prim2SF a) -> Double.isnan a = false -> (r =? a) = true.
Proof.
  intros H Ha. apply isnan_Prim2SF in Ha. rewrite eqb_spec. unfold SFeqb.
  destruct H as [->|[Hr Hz]].
  - destruct (Prim2SF a) as [s|s| |s m e]; try easy; cbn [SFcompare].
    + now destruct s.
    + rewrite Z.compare_refl, Pos.compare_cont_refl. now destruct s.
  - destruct (Prim2SF r), (Prim2SF a); cbn in *; easy.
Qed.

(** X4. At a knot [x_i] that [searchIndex] finds at [i], where the
    coefficients are finite, [calculatePoint] returns [a_i], the ordinate
    the spline was built from, up to the sign of zero. *)
Theorem Spline_calculatePoint_at_knot E sp i :
  Double.isfinite (nth i (Spline.x_ sp) nan) = true ->
  (nth i (Spline.x_ sp) nan <? nth 0 (Spline.x_ sp) nan) = false ->
  (last (Spline.x_ sp) nan <? nth i (Spline.x_ sp) nan) = false ->
  searchIndex E sp (nth i (Spline.x_ sp) nan) = Ok (Z.of_nat i) ->
  Double.isnan (nth i (Spline.a_ sp) nan) = false ->
  Double.isfinite (nth i (Spline.b_ sp) nan) = true ->
  Double.isfinite (nth i (Spline.c_ sp) nan) = true ->
  Double.isfinite (nth i (Spline.d_ sp) nan) = true ->
  exists r,
    Spline_calculatePoint E sp (nth i (Spline.x_ sp) nan) = Ok r
    /\ (r =? nth i (Spline.a_ sp) nan) = true.
Proof.
  intros Hx Hfirst Hlast Hidx Ha Hb Hc Hd.
  pose proof (nth_in_range _ _ (isfinite_not_nan _ Hx)) as Hix.
  pose proof (nth_in_range _ _ Ha) as Hia.
  pose proof (nth_in_range _ _ (isfinite_not_nan _ Hb)) as Hib.
  pose proof (nth_in_range _ _ (isfinite_not_nan _ Hc)) as Hic.
  pose proof (nth_in_range _ _ (isfinite_not_nan _ Hd)) as Hid.
  unfold Spline_calculatePoint, outside.
  change 0%Z with (Z.of_nat 0).
  rewrite (vec_at_nth (Spline.x_ sp) 0 nan) by lia. cbn [bind].
  rewrite Hfirst.
  rewrite (vec_back_last (Spline.x_ sp) nan)
    by (destruct (Spline.x_ sp); [cbn in Hix; lia|discriminate]).
  cbn [bind]. rewrite Hlast, Hidx. cbn [bind].
  rewrite (vec_at_nth _ i nan Hix), (vec_at_nth _ i nan Hia), (vec_at_nth _ i nan Hib),
    (vec_at_nth _ i nan Hic), (vec_at_nth _ i nan Hid).
  cbn [bind]. rewrite (sub_self _ Hx).
  eexists. split; [reflexivity|].
  apply same_value_eqb; [|exact Ha].
  assert (H0 : zero_value (Prim2SF 0)) by exact I.
  apply isfinite_finite_value in Hb, Hc, Hd.
  repeat apply add_zero_same_value.
  - now left.
  - now apply mul_zero_value.
  - apply mul_zero_value; [|exact H0].
    apply zero_finite_value, mul_zero_value; [exact Hc|exact H0].
  - apply mul_zero_value; [|exact H0].
    apply zero_finite_value, mul_zero_value; [|exact H0].
    apply zero_finite_value, mul_zero_value; [exact Hd|exact H0].
Qed.

Lemma Spline_calculatePoint_at_knot_witness :
  Spline_calculatePoint Example.extern Scenario.spline 20 = Ok 4
  /\ exists r,
       Spline_calculatePoint Example.extern Scenario.spline
         (nth 2 (Spline.x_ Scenario.spline) nan) = Ok r
       /\ (r =? nth 2 (Spline.a_ Scenario.spline) nan) = true.
Proof.
  split; [vm_compute; reflexivity|].
  apply (Spline_calculatePoint_at_knot Example.extern Scenario.spline 2);
    vm_compute; reflexivity.
Defined.

(** *** The grid *)

Lemma vec_set_length {A} (v : list A) : forall i a, length (vec_set v i a) = length v.
Proof.
  induction v as [|b v IH]; intros [|i] a; cbn [vec_set length]; try reflexivity.
  now rewrite IH.
Qed.

Lemma Forall_vec_set {A} (P : A -> Prop) (v : list A) : forall i a,
  Forall P v -> P a -> Forall P (vec_set v i a).
Proof.
  induction v as [|b v IH]; intros [|i] a Hv Ha; cbn [vec_set]; try exact Hv;
    inversion Hv; subst; constructor; auto.
Qed.

Lemma Forall_nth_error {A} (P : A -> Prop) (v : list A) i a :
  Forall P v -> nth_error v i = Some a -> P a.
Proof.
  intros Hv Hi. rewrite Forall_forall in Hv. apply Hv. eapply nth_error_In, Hi.
Qed.

Lemma vec_get_in_range {A} (v : list A) i :
  (0 <= i < Z.of_nat (length v))%Z ->
  exists a, vec_get v i = Ok a /\ nth_error v (Z.to_nat i) = Some a.
Proof.
  intros Hi. unfold vec_get.
  replace (i <? 0)%Z with false by (symmetry; apply Z.ltb_ge; lia).
  destruct (nth_error v (Z.to_nat i)) as [a|] eqn:Hn; [now exists a|].
  apply nth_error_None in Hn. lia.
Qed.

Lemma grid_set_shape g idx p nw nv nt :
  grid_shape g nw nv nt -> grid_shape (grid_set g idx p) nw nv nt.
Proof.
  intros [Hw Hrows]. destruct idx as [[i j] k]. unfold grid_set.
  destruct (nth_error g (Z.to_nat i)) as [g_i|] eqn:Hi; [|now split].
  destruct (nth_error g_i (Z.to_nat j)) as [g_ij|] eqn:Hj; [|now split].
  destruct (Forall_nth_error _ _ _ _ Hrows Hi) as [Hv Hcols].
  pose proof (Forall_nth_error _ _ _ _ Hcols Hj) as Ht.
  split; [now rewrite vec_set_length|].
  apply Forall_vec_set; [exact Hrows|].
  split; [now rewrite vec_set_length|].
  apply Forall_vec_set; [exact Hcols|]. now rewrite vec_set_length.
Qed.

Lemma grid_get_in_shape g idx nw nv nt :
  grid_shape g nw nv nt -> idx_in idx nw nv nt -> exists p, grid_get g idx = Ok p.
Proof.
  intros [Hw Hrows]. destruct idx as [[i j] k]. intros (Hi & Hj & Hk).
  unfold grid_get.
  destruct (vec_get_in_range g i ltac:(lia)) as (g_i & -> & Hgi). cbn [bind].
  destruct (Forall_nth_error _ _ _ _ Hrows Hgi) as [Hv Hcols].
  destruct (vec_get_in_range g_i j ltac:(lia)) as (g_ij & -> & Hgij). cbn [bind].
  pose proof (Forall_nth_error _ _ _ _ Hcols Hgij) as Ht. cbn beta in Ht.
  destruct (vec_get_in_range g_ij k ltac:(lia)) as (p & -> & _). now exists p.
Qed.

Lemma grid_get_set_same g idx p0 p :
  grid_get g idx = Ok p0 -> grid_get (grid_set g idx p) idx = Ok p.
Proof.
  destruct idx as [[i j] k]. unfold grid_get, grid_set.
  destruct (vec_get g i) as [g_i|] eqn:Hi; [|discriminate]. cbn [bind].
  destruct (vec_get g_i j) as [g_ij|] eqn:Hj; [|discriminate]. cbn [bind].
  intros Hk.
  apply vec_get_Some in Hi, Hj, Hk.
  destruct Hi as [Hi0 Hi], Hj as [Hj0 Hj], Hk as [Hk0 Hk].
  rewrite Hi, Hj.
  assert (Hgi : vec_get (vec_set g (Z.to_nat i)
                           (vec_set g_i (Z.to_nat j) (vec_set g_ij (Z.to_nat k) p))) i
                = Ok (vec_set g_i (Z.to_nat j) (vec_set g_ij (Z.to_nat k) p))).
  { apply vec_get_Some. split; [exact Hi0|]. apply nth_error_vec_set_eq.
    apply nth_error_Some. congruence. }
  rewrite Hgi. cbn [bind].
  assert (Hgj : vec_get (vec_set g_i (Z.to_nat j) (vec_set g_ij (Z.to_nat k) p)) j
                = Ok (vec_set g_ij (Z.to_nat k) p)).
  { apply vec_get_Some. split; [exact Hj0|]. apply nth_error_vec_set_eq.
    apply nth_error_Some. congruence. }
  rewrite Hgj. cbn [bind].
  apply vec_get_Some. split; [exact Hk0|]. apply nth_error_vec_set_eq.
  apply nth_error_Some. congruence.
Qed.

Lemma list_sum_vec_set {A} (f : A -> nat) (v : list A) : forall i a a',
  nth_error v i = Some a ->
  (list_sum (map f (vec_set v i a')) + f a = list_sum (map f v) + f a')%nat.
Proof.
  induction v as [|b v IH]; intros [|i] a a' Hi; cbn in Hi; try discriminate.
  - injection Hi as ->. cbn. lia.
  - specialize (IH i a a' Hi). simpl. lia.
Qed.

Lemma unused_count_grid_set g idx p0 p :
  grid_get g idx = Ok p0 ->
  (unused_count (grid_set g idx p) + unused p0 = unused_count g + unused p)%nat.
Proof.
  destruct idx as [[i j] k]. unfold grid_get, grid_set, unused_count.
  destruct (vec_get g i) as [g_i|] eqn:Hi; [|discriminate]. cbn [bind].
  destruct (vec_get g_i j) as [g_ij|] eqn:Hj; [|discriminate]. cbn [bind].
  intros Hk.
  apply vec_get_Some in Hi, Hj, Hk.
  destruct Hi as [_ Hi], Hj as [_ Hj], Hk as [_ Hk].
  rewrite Hi, Hj.
  pose proof (list_sum_vec_set unused g_ij _ _ p Hk) as H1.
  pose proof (list_sum_vec_set (fun g_ij => list_sum (map unused g_ij)) g_i _ _
                (vec_set g_ij (Z.to_nat k) p) Hj) as H2.
  pose proof (list_sum_vec_set
                (fun g_i => list_sum (map (fun g_ij => list_sum (map unused g_ij)) g_i))
                g _ _ (vec_set g_i (Z.to_nat j) (vec_set g_ij (Z.to_nat k) p)) Hi) as H3.
  cbn beta in H2, H3. lia.
Qed.

Lemma list_sum_bound {A} (f : A -> nat) (v : list A) b :
  Forall (fun a => f a <= b)%nat v -> (list_sum (map f v) <= length v * b)%nat.
Proof.
  induction 1 as [|a v Ha Hv IH]; simpl; lia.
Qed.

Lemma unused_count_le g nw nv nt :
  grid_shape g nw nv nt -> (unused_count g <= nw * nv * nt)%nat.
Proof.
  intros [<- Hrows]. unfold unused_count.
  rewrite <- Nat.mul_assoc. apply list_sum_bound.
  eapply Forall_impl; [|exact Hrows]. cbn beta. intros g_i [<- Hcols].
  apply list_sum_bound. eapply Forall_impl; [|exact Hcols]. cbn beta.
  intros g_ij <-. rewrite <- (Nat.mul_1_r (length g_ij)).
  apply list_sum_bound. apply Forall_forall. intros p _. unfold unused.
  destruct (FrenetPath.is_used p); lia.
Qed.

(** *** The search: what one call changes *)

Section SearchSteps.

Variable E : Extern.
Variable st : Setting.
Variable fuel : nat.
Variable start_state_ : FrenetState.

Lemma getTrajAndRealCost_cases search idx cost search' :
  getTrajAndRealCost E st fuel start_state_ search idx = Ok (cost, search') ->
  exists p,
    grid_get (Search.trajs search) idx = Ok p
    /\ ((FrenetPath.is_generated p = true /\ search' = search
         /\ cost = FrenetPath.final_cost p)
        \/ (FrenetPath.is_generated p = false
            /\ exists p',
                 Search.trajs search' = grid_set (Search.trajs search) idx p'
                 /\ Search.candidate_trajs_ search' = p' :: Search.candidate_trajs_ search
                 /\ Search.num_traj search' = (Search.num_traj search + 1)%Z
                 /\ FrenetPath.is_generated p' = true
                 /\ FrenetPath.is_used p' = FrenetPath.is_used p
                 /\ cost = FrenetPath.final_cost p'
                 /\ (profiles_aligned p -> profiles_aligned p')
                 /\ (not_converted p -> not_converted p'))).
Proof.
  unfold getTrajAndRealCost.
  destruct (grid_get (Search.trajs search) idx) as [p|] eqn:Hget; [|discriminate].
  cbn [bind]. intros Hr. exists p. split; [reflexivity|]. revert Hr.
  destruct (FrenetPath.is_generated p) eqn:Hgen.
  - intros [= <- <-]. now left.
  - destruct (time_ticks _ _ _ _) as [ts|]; [|discriminate]. cbn [bind].
    intros [= <- <-]. right. split; [reflexivity|]. eexists.
    cbn [Search.trajs Search.candidate_trajs_ Search.num_traj].
    repeat (split; [reflexivity|]). split.
    + unfold profiles_aligned. cbn. rewrite !length_app, !length_map. lia.
    + unfold not_converted. cbn. tauto.
Qed.

(** A relation between the states of the search that every call of
    [getTrajAndRealCost] respects is respected by [findGradients]. *)
Section Frame.

Variable R : Search -> Search -> Prop.
Hypothesis R_trans : forall a b c, R a b -> R b c -> R a c.
Hypothesis R_cost : forall search idx cost search',
  getTrajAndRealCost E st fuel start_state_ search idx = Ok (cost, search') ->
  R search search'.

Lemma gradient_dim_frame sizes directions idx cost_center dim search g search' :
  gradient_dim E st fuel start_state_ sizes directions idx cost_center dim search
  = Ok (g, search') ->
  R search search'.
Proof.
  unfold gradient_dim.
  destruct (0 <=? vec3_get directions dim)%Z;
    destruct (getTrajAndRealCost _ _ _ _ _ _) as [[cost s1]|] eqn:Hc; try discriminate;
    cbn [bind]; intros [= _ <-]; eauto.
Qed.

Lemma findGradients_frame search idx gradients search' :
  findGradients E st fuel start_state_ search idx = Ok (gradients, search') ->
  R search search'.
Proof.
  unfold findGradients.
  destruct (vec_get (Search.trajs search) 0) as [trajs_0|]; [|discriminate]. cbn [bind].
  destruct (vec_get trajs_0 0) as [trajs_00|]; [|discriminate]. cbn [bind].
  destruct (getTrajAndRealCost _ _ _ _ _ _) as [[cost_center s0]|] eqn:H0;
    [|discriminate]. cbn [bind].
  apply R_cost in H0.
  destruct (gradient_dim _ _ _ _ _ _ _ _ 0%Z _) as [[g0 s1]|] eqn:H1; [|discriminate].
  cbn [bind]. apply gradient_dim_frame in H1.
  destruct (gradient_dim _ _ _ _ _ _ _ _ 1%Z _) as [[g1 s2]|] eqn:H2; [|discriminate].
  cbn [bind]. apply gradient_dim_frame in H2.
  destruct (gradient_dim _ _ _ _ _ _ _ _ 2%Z _) as [[g2 s3]|] eqn:H3; [|discriminate].
  cbn [bind]. apply gradient_dim_frame in H3.
  intros [= _ <-]. eauto.
Qed.

End Frame.

Lemma findNextBest_cases search idx converged search' idx' :
  findNextBest E st fuel start_state_ search idx = Ok (converged, search', idx') ->
  exists p,
    grid_get (Search.trajs search) idx = Ok p
    /\ ((converged = true /\ FrenetPath.is_used p = true /\ search' = search /\ idx' = idx)
        \/ (converged = false /\ FrenetPath.is_used p = false
            /\ one_step idx idx'
            /\ exists gradients,
                 findGradients E st fuel start_state_ (mark_used search idx p) idx
                 = Ok (gradients, search'))).
Proof.
  unfold findNextBest.
  destruct (grid_get (Search.trajs search) idx) as [p|] eqn:Hget; [|discriminate].
  cbn [bind]. intros Hr. exists p. split; [reflexivity|]. revert Hr.
  destruct (FrenetPath.is_used p) eqn:Hused.
  - intros [= <- <- <-]. now left.
  - fold (mark_used search idx p).
    destruct (findGradients _ _ _ _ _ _) as [[gradients s1]|] eqn:Hg; [|discriminate].
    cbn [bind]. destruct (max_gradient gradients) as [grad_dim max_grad] eqn:Hmax.
    intros [= <- <- <-]. right. repeat (split; [reflexivity|]). split; [|now exists gradients].
    exists grad_dim, (if Double.gt max_grad 0 then (-1)%Z else 1%Z).
    split; [|split; [destruct (Double.gt max_grad 0); lia|reflexivity]].
    unfold max_gradient in Hmax. cbn [fold_left] in Hmax.
    repeat match type of Hmax with
           | context [if ?c then _ else _] => destruct c
           end; injection Hmax as <- _; lia.
Qed.

End SearchSteps.

Lemma grid_get_set_other g idx p idx0 p0 q :
  grid_get g idx = Ok p -> grid_get g idx0 = Ok p0 -> idx0 <> idx ->
  grid_get (grid_set g idx q) idx0 = Ok p0.
Proof.
  destruct idx as [[i j] k], idx0 as [[i0 j0] k0]. unfold grid_get, grid_set.
  destruct (vec_get g i) as [g_i|] eqn:Hi; [|discriminate]. cbn [bind].
  destruct (vec_get g_i j) as [g_ij|] eqn:Hj; [|discriminate]. cbn [bind].
  intros Hk.
  destruct (vec_get g i0) as [g_i0|] eqn:Hi0; [|discriminate]. cbn [bind].
  destruct (vec_get g_i0 j0) as [g_ij0|] eqn:Hj0; [|discriminate]. cbn [bind].
  intros Hk0 Hne.
  apply vec_get_Some in Hi, Hj, Hk, Hi0, Hj0, Hk0.
  destruct Hi as [Hi' Hi], Hj as [Hj' Hj], Hk as [Hk' Hk],
    Hi0 as [Hi0' Hi0], Hj0 as [Hj0' Hj0], Hk0 as [Hk0' Hk0].
  rewrite Hi, Hj.
  destruct (Z.eq_dec i0 i) as [->|Hni].
  - assert (g_i0 = g_i) by congruence. subst g_i0.
    assert (Hgi : vec_get (vec_set g (Z.to_nat i)
                             (vec_set g_i (Z.to_nat j) (vec_set g_ij (Z.to_nat k) q))) i
                  = Ok (vec_set g_i (Z.to_nat j) (vec_set g_ij (Z.to_nat k) q))).
    { apply vec_get_Some. split; [exact Hi'|]. apply nth_error_vec_set_eq.
      apply nth_error_Some. congruence. }
    rewrite Hgi. cbn [bind].
    destruct (Z.eq_dec j0 j) as [->|Hnj].
    + assert (g_ij0 = g_ij) by congruence. subst g_ij0.
      assert (Hgj : vec_get (vec_set g_i (Z.to_nat j) (vec_set g_ij (Z.to_nat k) q)) j
                    = Ok (vec_set g_ij (Z.to_nat k) q)).
      { apply vec_get_Some. split; [exact Hj'|]. apply nth_error_vec_set_eq.
        apply nth_error_Some. congruence. }
      rewrite Hgj. cbn [bind].
      apply vec_get_Some. split; [exact Hk0'|].
      rewrite nth_error_vec_set_neq; [exact Hk0|].
      intros Heq. apply Hne. f_equal. lia.
    + assert (Hgj : vec_get (vec_set g_i (Z.to_nat j) (vec_set g_ij (Z.to_nat k) q)) j0
                    = Ok g_ij0).
      { apply vec_get_Some. split; [exact Hj0'|].
        rewrite nth_error_vec_set_neq; [exact Hj0|]. lia. }
      rewrite Hgj. cbn [bind]. apply vec_get_Some. now split.
  - assert (Hgi : vec_get (vec_set g (Z.to_nat i)
                             (vec_set g_i (Z.to_nat j) (vec_set g_ij (Z.to_nat k) q))) i0
                  = Ok g_i0).
    { apply vec_get_Some. split; [exact Hi0'|].
      rewrite nth_error_vec_set_neq; [exact Hi0|]. lia. }
    rewrite Hgi. cbn [bind].
    assert (Hgj : vec_get g_i0 j0 = Ok g_ij0) by (apply vec_get_Some; now split).
    rewrite Hgj. cbn [bind]. apply vec_get_Some. now split.
Qed.

Lemma Vector3i_eq_dec (a b : Vector3i) : {a = b} + {a <> b}.
Proof. repeat decide equality. Qed.

Lemma cells_kept_refl search : cells_kept search search.
Proof. intros idx p Hp. exists p. auto. Qed.

Lemma cells_kept_trans a b c : cells_kept a b -> cells_kept b c -> cells_kept a c.
Proof.
  intros Hab Hbc idx p Hp.
  destruct (Hab idx p Hp) as (p1 & Hp1 & Hu1 & Hg1).
  destruct (Hbc idx p1 Hp1) as (p2 & Hp2 & Hu2 & Hg2).
  exists p2. split; [exact Hp2|]. split; [congruence|auto].
Qed.

Lemma cells_kept_set g idx p p' search search' :
  Search.trajs search = g -> Search.trajs search' = grid_set g idx p' ->
  grid_get g idx = Ok p ->
  FrenetPath.is_used p' = FrenetPath.is_used p ->
  (FrenetPath.is_generated p = true -> FrenetPath.is_generated p' = true) ->
  cells_kept search search'.
Proof.
  intros Hs Hs' Hget Hused Hgen idx0 p0 Hp0. rewrite Hs in Hp0. rewrite Hs'.
  destruct (Vector3i_eq_dec idx0 idx) as [->|Hne].
  - assert (p0 = p) by congruence. subst p0. exists p'.
    split; [eapply grid_get_set_same; eassumption|auto].
  - exists p0. split; [eapply grid_get_set_other; eassumption|auto].
Qed.

Section SearchCells.

Variable E : Extern.
Variable st : Setting.
Variable fuel : nat.
Variable start_state_ : FrenetState.

Lemma getTrajAndRealCost_cells_kept search idx cost search' :
  getTrajAndRealCost E st fuel start_state_ search idx = Ok (cost, search') ->
  cells_kept search search'.
Proof.
  intros Hr. destruct (getTrajAndRealCost_cases _ _ _ _ _ _ _ _ Hr)
    as (p & Hget & [(_ & -> & _)|(Hgen & p' & Htrajs & _ & _ & Hgen' & Hused & _)]).
  - apply cells_kept_refl.
  - eapply cells_kept_set; eauto.
Qed.

Lemma findGradients_cells_kept search idx gradients search' :
  findGradients E st fuel start_state_ search idx = Ok (gradients, search') ->
  cells_kept search search'.
Proof.
  apply (findGradients_frame E st fuel start_state_ cells_kept cells_kept_trans
           getTrajAndRealCost_cells_kept).
Qed.

(** [findGradients] leaves the cell it is called on generated. *)
Lemma findGradients_center search idx gradients search' :
  findGradients E st fuel start_state_ search idx = Ok (gradients, search') ->
  exists p', grid_get (Search.trajs search') idx = Ok p'
             /\ FrenetPath.is_generated p' = true.
Proof.
  unfold findGradients.
  destruct (vec_get (Search.trajs search) 0) as [trajs_0|]; [|discriminate]. cbn [bind].
  destruct (vec_get trajs_0 0) as [trajs_00|]; [|discriminate]. cbn [bind].
  destruct (getTrajAndRealCost _ _ _ _ _ _) as [[cost_center s0]|] eqn:H0;
    [|discriminate]. cbn [bind].
  destruct (gradient_dim _ _ _ _ _ _ _ _ 0%Z _) as [[g0 s1]|] eqn:H1; [|discriminate].
  cbn [bind].
  destruct (gradient_dim _ _ _ _ _ _ _ _ 1%Z _) as [[g1 s2]|] eqn:H2; [|discriminate].
  cbn [bind].
  destruct (gradient_dim _ _ _ _ _ _ _ _ 2%Z _) as [[g2 s3]|] eqn:H3; [|discriminate].
  cbn [bind]. intros [= _ <-].
  assert (Hk : cells_kept s0 s3).
  { eapply cells_kept_trans; [|eapply cells_kept_trans].
    - eapply (gradient_dim_frame E st fuel start_state_ cells_kept
                getTrajAndRealCost_cells_kept), H1.
    - eapply (gradient_dim_frame E st fuel start_state_ cells_kept
                getTrajAndRealCost_cells_kept), H2.
    - eapply (gradient_dim_frame E st fuel start_state_ cells_kept
                getTrajAndRealCost_cells_kept), H3. }
  assert (H00 : exists p0, grid_get (Search.trajs s0) idx = Ok p0
                           /\ FrenetPath.is_generated p0 = true).
  { destruct (getTrajAndRealCost_cases _ _ _ _ _ _ _ _ H0)
      as (p & Hget & [(Hgen & -> & _)|(Hgen & p' & Htrajs & _ & _ & Hgen' & _)]).
    - now exists p.
    - exists p'. split; [|exact Hgen']. rewrite Htrajs.
      eapply grid_get_set_same, Hget. }
  destruct H00 as (p0 & Hp0 & Hgen0).
  destruct (Hk idx p0 Hp0) as (p' & Hp' & _ & Hgen'). exists p'. auto.
Qed.

End SearchCells.

Section SearchTheorems.

Variable E : Extern.
Variable st : Setting.
Variable fuel : nat.
Variable start_state_ : FrenetState.

(** X5. A cell is materialized once: a second call of [getTrajAndRealCost] at
    the same index returns the same cost and changes nothing (no second
    push on the queue, no second count). *)
Theorem getTrajAndRealCost_cached search idx cost search' :
  getTrajAndRealCost E st fuel start_state_ search idx = Ok (cost, search') ->
  getTrajAndRealCost E st fuel start_state_ search' idx = Ok (cost, search').
Proof.
  intros Hr. destruct (getTrajAndRealCost_cases _ _ _ _ _ _ _ _ Hr)
    as (p & Hget & [(Hgen & -> & ->)|(Hgen & p' & Htrajs & _ & _ & Hgen' & _ & -> & _)]).
  - unfold getTrajAndRealCost. rewrite Hget. cbn [bind]. now rewrite Hgen.
  - unfold getTrajAndRealCost. rewrite Htrajs.
    rewrite (grid_get_set_same _ _ _ p' Hget). cbn [bind]. now rewrite Hgen'.
Qed.

Lemma getTrajAndRealCost_unused search idx cost search' :
  getTrajAndRealCost E st fuel start_state_ search idx = Ok (cost, search') ->
  unused_count (Search.trajs search') = unused_count (Search.trajs search).
Proof.
  intros Hr. destruct (getTrajAndRealCost_cases _ _ _ _ _ _ _ _ Hr)
    as (p & Hget & [(_ & -> & _)|(_ & p' & Htrajs & _ & _ & _ & Hused & _)]);
    [reflexivity|].
  rewrite Htrajs. pose proof (unused_count_grid_set _ _ _ p' Hget) as H.
  unfold unused in H. rewrite Hused in H. lia.
Qed.

Lemma findGradients_unused search idx gradients search' :
  findGradients E st fuel start_state_ search idx = Ok (gradients, search') ->
  unused_count (Search.trajs search') = unused_count (Search.trajs search).
Proof.
  apply (findGradients_frame E st fuel start_state_
           (fun s s' => unused_count (Search.trajs s') = unused_count (Search.trajs s))).
  - intros a b c Hab Hbc. congruence.
  - exact getTrajAndRealCost_unused.
Qed.

Lemma getTrajAndRealCost_count search idx cost search' :
  getTrajAndRealCost E st fuel start_state_ search idx = Ok (cost, search') ->
  (Z.of_nat (length (Search.candidate_trajs_ search')) - Search.num_traj search'
   = Z.of_nat (length (Search.candidate_trajs_ search)) - Search.num_traj search)%Z.
Proof.
  intros Hr. destruct (getTrajAndRealCost_cases _ _ _ _ _ _ _ _ Hr)
    as (p & Hget & [(_ & -> & _)|(_ & p' & _ & Hq & Hn & _)]); [reflexivity|].
  rewrite Hq, Hn. cbn [length]. lia.
Qed.

Lemma findGradients_count search idx gradients search' :
  findGradients E st fuel start_state_ search idx = Ok (gradients, search') ->
  (Z.of_nat (length (Search.candidate_trajs_ search')) - Search.num_traj search'
   = Z.of_nat (length (Search.candidate_trajs_ search)) - Search.num_traj search)%Z.
Proof.
  apply (findGradients_frame E st fuel start_state_
           (fun s s' =>
              (Z.of_nat (length (Search.candidate_trajs_ s')) - Search.num_traj s'
               = Z.of_nat (length (Search.candidate_trajs_ s)) - Search.num_traj s)%Z)).
  - intros a b c Hab Hbc. congruence.
  - exact getTrajAndRealCost_count.
Qed.

(** X6. One call of [findNextBest]. When it reports convergence nothing has
    changed. Otherwise the index has moved by exactly one cell along one
    axis (it never stays), and the cell it left is searched and generated. *)
Theorem findNextBest_step search idx converged search' idx' :
  findNextBest E st fuel start_state_ search idx = Ok (converged, search', idx') ->
  exists p',
    grid_get (Search.trajs search') idx = Ok p'
    /\ FrenetPath.is_used p' = true
    /\ (if converged then idx' = idx /\ search' = search
        else one_step idx idx' /\ idx' <> idx /\ FrenetPath.is_generated p' = true).
Proof.
  intros Hr. destruct (findNextBest_cases _ _ _ _ _ _ _ _ _ Hr)
    as (p & Hget & [(-> & Hused & -> & ->)|(-> & Hused & Hstep & gradients & Hg)]).
  - exists p. auto.
  - destruct (findGradients_center _ _ _ _ _ _ _ _ Hg) as (p' & Hp' & Hgen').
    exists p'. split; [exact Hp'|].
    assert (Hmark : grid_get (Search.trajs (mark_used search idx p)) idx
                    = Ok (set_is_used p true))
      by (cbn [mark_used Search.trajs]; eapply grid_get_set_same, Hget).
    destruct (findGradients_cells_kept _ _ _ _ _ _ _ _ Hg _ _ Hmark)
      as (p'' & Hp'' & Hused'' & _).
    assert (p'' = p') by congruence. subst p''.
    split; [exact Hused''|]. split; [exact Hstep|]. split; [|exact Hgen'].
    destruct Hstep as (dim & step & Hdim & Hs & ->).
    destruct idx as [[i j] k]. unfold vec3_set, vec3_get.
    destruct (dim =? 0)%Z; [|destruct (dim =? 1)%Z]; intros [=]; lia.
Qed.

Lemma findNextBest_unused search idx converged search' idx' :
  findNextBest E st fuel start_state_ search idx = Ok (converged, search', idx') ->
  (unused_count (Search.trajs search') + (if converged then 0 else 1)
   = unused_count (Search.trajs search))%nat.
Proof.
  intros Hr. destruct (findNextBest_cases _ _ _ _ _ _ _ _ _ Hr)
    as (p & Hget & [(-> & Hused & -> & ->)|(-> & Hused & Hstep & gradients & Hg)]).
  - lia.
  - apply findGradients_unused in Hg. rewrite Hg. cbn [mark_used Search.trajs].
    pose proof (unused_count_grid_set _ _ _ (set_is_used p true) Hget) as H.
    unfold unused in H. rewrite Hused in H. cbn in H. lia.
Qed.

Lemma findNextBest_count search idx converged search' idx' :
  findNextBest E st fuel start_state_ search idx = Ok (converged, search', idx') ->
  (Z.of_nat (length (Search.candidate_trajs_ search')) - Search.num_traj search'
   = Z.of_nat (length (Search.candidate_trajs_ search)) - Search.num_traj search)%Z.
Proof.
  intros Hr. destruct (findNextBest_cases _ _ _ _ _ _ _ _ _ Hr)
    as (p & Hget & [(-> & Hused & -> & ->)|(-> & Hused & Hstep & gradients & Hg)]).
  - reflexivity.
  - apply findGradients_count in Hg. exact Hg.
Qed.

Lemma search_loop_counters n : forall search idx num_iter search' idx' num_iter',
  search_loop E st fuel start_state_ n search idx num_iter
  = Ok (search', idx', num_iter') ->
  (num_iter' + Z.of_nat (unused_count (Search.trajs search'))
   = num_iter + Z.of_nat (unused_count (Search.trajs search)) + 1)%Z
  /\ (Z.of_nat (length (Search.candidate_trajs_ search')) - Search.num_traj search'
      = Z.of_nat (length (Search.candidate_trajs_ search)) - Search.num_traj search)%Z.
Proof.
  induction n as [|n IH]; intros search idx num_iter search' idx' num_iter';
    cbn [search_loop]; [discriminate|].
  destruct (findNextBest _ _ _ _ _ _) as [[[converged s1] idx1]|] eqn:Hf; [|discriminate].
  cbn [bind]. pose proof (findNextBest_unused _ _ _ _ _ Hf) as Hu.
  pose proof (findNextBest_count _ _ _ _ _ Hf) as Hc.
  destruct converged.
  - intros [= <- _ <-]. split; lia.
  - intros Hloop. destruct (IH _ _ _ _ _ _ Hloop) as [Hi Hq]. split; lia.
Qed.

(** When the search loop ends, the number of calls of [findNextBest] it
    made is the number of cells it marked as searched, plus one; and the
    queue has grown by exactly the number of trajectories counted as
    generated. *)
Lemma search_loop_bound n search idx num_iter search' idx' num_iter' :
  search_loop E st fuel start_state_ n search idx num_iter
  = Ok (search', idx', num_iter') ->
  (unused_count (Search.trajs search') <= unused_count (Search.trajs search))%nat
  /\ (num_iter' - num_iter
      = Z.of_nat (unused_count (Search.trajs search)
                  - unused_count (Search.trajs search')) + 1)%Z
  /\ (Z.of_nat (length (Search.candidate_trajs_ search'))
      - Z.of_nat (length (Search.candidate_trajs_ search))
      = Search.num_traj search' - Search.num_traj search)%Z.
Proof.
  intros Hloop. destruct (search_loop_counters _ _ _ _ _ _ _ Hloop) as [Hi Hq].
  assert (Hpos : (num_iter < num_iter')%Z).
  { clear Hi Hq. revert search idx num_iter Hloop.
    induction n as [|n IH]; intros search idx num_iter; cbn [search_loop];
      [discriminate|].
    destruct (findNextBest _ _ _ _ _ _) as [[[converged s1] idx1]|]; [|discriminate].
    cbn [bind]. destruct converged.
    - intros [= _ _ <-]. lia.
    - intros Hloop. specialize (IH _ _ _ Hloop). lia. }
  assert (Hle : (unused_count (Search.trajs search')
                 <= unused_count (Search.trajs search))%nat).
  { revert search idx num_iter Hloop Hi Hq Hpos.
    induction n as [|n IH]; intros search idx num_iter; cbn [search_loop];
      [discriminate|].
    destruct (findNextBest _ _ _ _ _ _) as [[[converged s1] idx1]|] eqn:Hf;
      [|discriminate].
    cbn [bind]. pose proof (findNextBest_unused _ _ _ _ _ Hf) as Hu.
    destruct converged.
    - intros [= <- _ _] _ _ _. lia.
    - intros Hloop _ _ _.
      destruct (search_loop_counters _ _ _ _ _ _ _ Hloop) as [Hi' Hq'].
      assert (Hlt : (num_iter + 1 < num_iter')%Z).
      { clear - Hloop. revert s1 idx1 Hloop. generalize (num_iter + 1)%Z.
        induction n as [|n IH]; intros z s1 idx1; cbn [search_loop]; [discriminate|].
        destruct (findNextBest _ _ _ _ _ _) as [[[converged s2] idx2]|]; [|discriminate].
        cbn [bind]. destruct converged.
        - intros [= _ _ <-]. lia.
        - intros Hloop. specialize (IH _ _ _ Hloop). lia. }
      lia. }
  split; [exact Hle|]. split; lia.
Qed.

End SearchTheorems.

(** *** One planning call: the counters *)

Lemma int_range_length n : length (int_range n) = Z.to_nat n.
Proof. unfold int_range. now rewrite length_map, length_seq. Qed.

Lemma sampleEndStates_shape st start_state lane_id left_bound right_bound current_speed :
  grid_shape
    (fst (sampleEndStates st start_state lane_id left_bound right_bound current_speed))
    (Z.to_nat (Setting.num_width st)) (Z.to_nat (Setting.num_speed st))
    (Z.to_nat (Setting.num_t st)).
Proof.
  rewrite sampleEndStates_spec. cbn [fst]. split.
  - now rewrite length_map, int_range_length.
  - apply Forall_forall. intros g_i Hg. apply in_map_iff in Hg.
    destruct Hg as (i & <- & _). split.
    + now rewrite length_map, int_range_length.
    + apply Forall_forall. intros g_ij Hg. apply in_map_iff in Hg.
      destruct Hg as (j & <- & _). now rewrite length_map, int_range_length.
Qed.

Lemma validation_loop_counters E st cubic_spline obstacle_trajs obstacles
  check_collision use_async n : forall v v',
  validation_loop E st n cubic_spline obstacle_trajs obstacles check_collision
    use_async v = Ok v' ->
  (Validation.num_trajs_validated v' - Z.of_nat (length (Validation.popped v'))
   = Validation.num_trajs_validated v - Z.of_nat (length (Validation.popped v)))%Z
  /\ (check_collision = false ->
      Validation.num_collision_checks v' = Validation.num_collision_checks v).
Proof.
  induction n as [|n IH]; intros v v'; cbn [validation_loop].
  - destruct (pq_pop _) as [[c rest]|]; [discriminate|]. intros [= <-]. split; auto.
  - destruct (pq_pop _) as [[c rest]|]; [|intros [= <-]; split; auto].
    destruct (convertToGlobalFrame _ _ _) as [c1|]; [|discriminate]. cbn [bind].
    destruct (checkConstraints _ _) as [[is_safe c2]|]; [|discriminate]. cbn [bind].
    destruct is_safe; cbn [negb].
    + destruct check_collision.
      * destruct (checkCollisions _ _ _ _ _ _ _) as [[[is_safe c3] checks]|];
          [|discriminate].
        cbn [bind]. destruct is_safe.
        -- intros [= <-]. cbn. rewrite length_app. cbn [length].
           split; [lia|discriminate].
        -- intros Hloop. destruct (IH _ _ Hloop) as [H1 H2]. cbn in H1.
           rewrite length_app in H1. cbn [length] in H1. split; [lia|discriminate].
      * cbn [bind]. intros [= <-]. cbn. rewrite length_app. cbn [length].
        split; [lia|reflexivity].
    + intros Hloop. destruct (IH _ _ Hloop) as [H1 H2]. cbn in H1, H2.
      rewrite length_app in H1. cbn [length] in H1. split; [lia|exact H2].
Qed.

(** X7. The search of one planning call makes at most [N_w * N_v * N_t + 1]
    calls of [findNextBest] before it returns. *)
Theorem frenetOptimalPlanning_search_bound
  E st fuel candidate_trajs_ cubic_spline start_state lane_id
  left_width right_width current_speed obstacles check_collision use_async r :
  frenetOptimalPlanning E st fuel candidate_trajs_ cubic_spline start_state lane_id
    left_width right_width current_speed obstacles check_collision use_async = Ok r ->
  (1 <= Planning.num_iter r
   <= Z.of_nat (Z.to_nat (Setting.num_width st) * Z.to_nat (Setting.num_speed st)
                * Z.to_nat (Setting.num_t st)) + 1)%Z.
Proof.
  unfold frenetOptimalPlanning. intros Hr.
  destruct (predictTrajectories E st obstacles) as [obstacle_trajs|]; [|discriminate].
  cbn [bind] in Hr.
  pose proof (sampleEndStates_shape st start_state lane_id left_width right_width
                current_speed) as Hshape.
  destruct (sampleEndStates _ _ _ _ _ _) as [trajs_3d best_idx]. cbn [fst] in Hshape.
  destruct (vec_get trajs_3d 0) as [trajs_0|]; [|discriminate]. cbn [bind] in Hr.
  destruct (vec_get trajs_0 0) as [trajs_00|]; [|discriminate]. cbn [bind] in Hr.
  destruct best_idx as [idx|]; [|discriminate]. cbn [bind] in Hr.
  destruct (search_loop _ _ _ _ _ _ _ _) as [[[search idx'] num_iter]|] eqn:Hs;
    [|discriminate].
  cbn [bind] in Hr.
  destruct (validation_loop _ _ _ _ _ _ _ _ _) as [v|]; [|discriminate].
  cbn [bind] in Hr. injection Hr as <-. cbn [Planning.num_iter].
  apply search_loop_bound in Hs. destruct Hs as (Hle & Hiter & _).
  cbn [Search.trajs] in *. apply unused_count_le in Hshape. lia.
Qed.

(** X8. The bookkeeping of one planning call: every trajectory counted as
    generated went to the queue and is, at the end, either validated or
    still queued; the number validated is the number popped; and without
    collision checking no pair of rectangles is counted. *)
Theorem frenetOptimalPlanning_counters
  E st fuel candidate_trajs_ cubic_spline start_state lane_id
  left_width right_width current_speed obstacles check_collision use_async r :
  frenetOptimalPlanning E st fuel candidate_trajs_ cubic_spline start_state lane_id
    left_width right_width current_speed obstacles check_collision use_async = Ok r ->
  (Planning.num_trajs_generated r + Z.of_nat (length candidate_trajs_)
   = Z.of_nat (length (Validation.popped (Planning.validation r)))
     + Z.of_nat (length (Validation.candidate_trajs_ (Planning.validation r))))%Z
  /\ Validation.num_trajs_validated (Planning.validation r)
     = Z.of_nat (length (Validation.popped (Planning.validation r)))
  /\ (check_collision = false ->
      Validation.num_collision_checks (Planning.validation r) = 0%Z).
Proof.
  unfold frenetOptimalPlanning. intros Hr.
  destruct (predictTrajectories E st obstacles) as [obstacle_trajs|]; [|discriminate].
  cbn [bind] in Hr.
  destruct (sampleEndStates _ _ _ _ _ _) as [trajs_3d best_idx].
  destruct (vec_get trajs_3d 0) as [trajs_0|]; [|discriminate]. cbn [bind] in Hr.
  destruct (vec_get trajs_0 0) as [trajs_00|]; [|discriminate]. cbn [bind] in Hr.
  destruct best_idx as [idx|]; [|discriminate]. cbn [bind] in Hr.
  destruct (search_loop _ _ _ _ _ _ _ _) as [[[search idx'] num_iter]|] eqn:Hs;
    [|discriminate].
  cbn [bind] in Hr.
  destruct (validation_loop _ _ _ _ _ _ _ _ _) as [v|] eqn:Hv; [|discriminate].
  cbn [bind] in Hr. injection Hr as <-.
  cbn [Planning.num_trajs_generated Planning.validation].
  apply search_loop_bound in Hs. destruct Hs as (_ & _ & Hq).
  cbn [Search.candidate_trajs_ Search.num_traj] in Hq.
  pose proof (validation_loop_invariant _ _ _ _ _ _ _ _ _ _ Hv) as [HP _].
  apply Permutation_length in HP. rewrite !length_app in HP.
  cbn [Validation.popped Validation.candidate_trajs_ length] in HP.
  destruct (validation_loop_counters _ _ _ _ _ _ _ _ _ _ Hv) as [Hn Hc].
  cbn [Validation.popped Validation.num_trajs_validated Validation.num_collision_checks
         length] in Hn, Hc.
  split; [lia|]. split; [lia|exact Hc].
Qed.

(** *** The search inside the grid *)

Lemma time_ticks_Fault fuel T tick : forall t f,
  time_ticks fuel T tick t = Fault f -> f = out_of_fuel.
Proof.
  induction fuel as [|fuel IH]; intros t f; cbn [time_ticks];
    destruct (t <=? T); try discriminate; [now intros [= <-]|].
  destruct (time_ticks fuel T tick (t + tick)) as [r|f'] eqn:Hr; cbn [bind];
    [discriminate|].
  intros [= <-]. eapply IH, Hr.
Qed.

Section SearchInGrid.

Variable E : Extern.
Variable st : Setting.
Variable fuel : nat.
Variable start_state_ : FrenetState.
Variables nw nv nt : nat.

Lemma getTrajAndRealCost_in_grid search idx :
  grid_shape (Search.trajs search) nw nv nt -> idx_in idx nw nv nt ->
  (exists cost search',
     getTrajAndRealCost E st fuel start_state_ search idx = Ok (cost, search')
     /\ grid_shape (Search.trajs search') nw nv nt)
  \/ getTrajAndRealCost E st fuel start_state_ search idx = Fault out_of_fuel.
Proof.
  intros Hshape Hidx.
  destruct (grid_get_in_shape _ _ _ _ _ Hshape Hidx) as (p & Hget).
  unfold getTrajAndRealCost. rewrite Hget. cbn [bind].
  destruct (FrenetPath.is_generated p); [left; eauto|].
  destruct (time_ticks _ _ _ _) as [ts|f] eqn:Ht; cbn [bind].
  - left. eexists _, _. split; [reflexivity|]. cbn [Search.trajs].
    now apply grid_set_shape.
  - right. now rewrite (time_ticks_Fault _ _ _ _ _ Ht).
Qed.

Lemma gradient_dim_in_grid search idx cost_center dim :
  grid_shape (Search.trajs search) nw nv nt -> idx_in idx nw nv nt ->
  (2 <= nw)%nat -> (2 <= nv)%nat -> (2 <= nt)%nat ->
  (exists g search',
     gradient_dim E st fuel start_state_ (Z.of_nat nw, Z.of_nat nv, Z.of_nat nt)
       (findDirection (Z.of_nat nw, Z.of_nat nv, Z.of_nat nt) idx) idx cost_center
       dim search = Ok (g, search')
     /\ grid_shape (Search.trajs search') nw nv nt)
  \/ gradient_dim E st fuel start_state_ (Z.of_nat nw, Z.of_nat nv, Z.of_nat nt)
       (findDirection (Z.of_nat nw, Z.of_nat nv, Z.of_nat nt) idx) idx cost_center
       dim search = Fault out_of_fuel.
Proof.
  intros Hshape Hidx Hw Hv Ht.
  assert (Hnext : idx_in
                    (vec3_set idx dim
                       (vec3_get idx dim
                        + vec3_get (findDirection (Z.of_nat nw, Z.of_nat nv, Z.of_nat nt) idx)
                            dim)%Z) nw nv nt).
  { destruct idx as [[i j] k]. destruct Hidx as (Hi & Hj & Hk).
    unfold findDirection, vec3_set, vec3_get, idx_in.
    destruct (dim =? 0)%Z; [|destruct (dim =? 1)%Z];
      change (0 =? 0)%Z with true; change (1 =? 0)%Z with false;
      change (1 =? 1)%Z with true; change (2 =? 0)%Z with false;
      change (2 =? 1)%Z with false; cbn iota;
      match goal with
      | |- context [if ?c then _ else _] => destruct c eqn:Hc
      end; try apply Z.leb_le in Hc; try apply Z.leb_gt in Hc; lia. }
  unfold gradient_dim.
  destruct (getTrajAndRealCost_in_grid search _ Hshape Hnext)
    as [(cost & search' & Hc & Hshape')|Hc]; rewrite Hc; cbn [bind].
  - left. destruct (0 <=? _)%Z; eexists _, _; split; try reflexivity; exact Hshape'.
  - right. now destruct (0 <=? _)%Z.
Qed.

(** X9. On a grid of at least two cells along each axis, a call of
    [findNextBest] at an index inside the grid reads and writes only cells
    of the grid: it returns, leaving the shape of the grid as it was, or a
    time loop of [getTrajAndRealCost] exhausts the step budget. *)
Theorem findNextBest_in_grid search idx :
  grid_shape (Search.trajs search) nw nv nt -> idx_in idx nw nv nt ->
  (2 <= nw)%nat -> (2 <= nv)%nat -> (2 <= nt)%nat ->
  (exists converged search' idx',
     findNextBest E st fuel start_state_ search idx = Ok (converged, search', idx')
     /\ grid_shape (Search.trajs search') nw nv nt)
  \/ findNextBest E st fuel start_state_ search idx = Fault out_of_fuel.
Proof.
  intros Hshape Hidx Hw Hv Ht.
  destruct (grid_get_in_shape _ _ _ _ _ Hshape Hidx) as (p & Hget).
  unfold findNextBest. rewrite Hget. cbn [bind].
  destruct (FrenetPath.is_used p); [left; eauto 6|].
  fold (mark_used search idx p).
  assert (Hmark : grid_shape (Search.trajs (mark_used search idx p)) nw nv nt)
    by (cbn [mark_used Search.trajs]; now apply grid_set_shape).
  revert Hmark. generalize (mark_used search idx p). intros s0 Hs0.
  unfold findGradients.
  destruct Hs0 as [Hlen Hrows] eqn:Hs0'. clear Hs0'.
  destruct (vec_get_in_range (Search.trajs s0) 0 ltac:(lia)) as (trajs_0 & -> & H0).
  cbn [bind]. destruct (Forall_nth_error _ _ _ _ Hrows H0) as [Hlen0 Hcols].
  destruct (vec_get_in_range trajs_0 0 ltac:(lia)) as (trajs_00 & -> & H00).
  cbn [bind]. pose proof (Forall_nth_error _ _ _ _ Hcols H00) as Hlen00.
  cbn beta in Hlen00. unfold vec_size. rewrite Hlen, Hlen0, Hlen00.
  destruct (getTrajAndRealCost_in_grid s0 idx (conj Hlen Hrows) Hidx)
    as [(cost_center & s1 & -> & Hs1)| ->]; cbn [bind]; [|now right].
  destruct (gradient_dim_in_grid s1 idx cost_center 0 Hs1 Hidx Hw Hv Ht)
    as [(g0 & s2 & -> & Hs2)| ->]; cbn [bind]; [|now right].
  destruct (gradient_dim_in_grid s2 idx cost_center 1 Hs2 Hidx Hw Hv Ht)
    as [(g1 & s3 & -> & Hs3)| ->]; cbn [bind]; [|now right].
  destruct (gradient_dim_in_grid s3 idx cost_center 2 Hs3 Hidx Hw Hv Ht)
    as [(g2 & s4 & -> & Hs4)| ->]; cbn [bind]; [|now right].
  left. destruct (max_gradient (g0, g1, g2)) as [grad_dim max_grad].
  eexists _, _, _. split; [reflexivity|exact Hs4].
Qed.

End SearchInGrid.

(** X10. With [tick_t = 0] the time loops of [getTrajAndRealCost] do not end:
    on a cell not generated before, whose horizon is not negative, every
    step budget is exhausted. *)
Theorem getTrajAndRealCost_zero_tick E st fuel start_state_ search idx p :
  Setting.tick_t st = 0 ->
  grid_get (Search.trajs search) idx = Ok p ->
  FrenetPath.is_generated p = false ->
  (0 <=? FrenetState.T (FrenetPath.end_state p)) = true ->
  getTrajAndRealCost E st fuel start_state_ search idx = Fault out_of_fuel.
Proof.
  intros Htick Hget Hgen HT. unfold getTrajAndRealCost.
  rewrite Hget. cbn [bind]. rewrite Hgen, Htick.
  assert (H : time_ticks fuel (FrenetState.T (FrenetPath.end_state p)) 0 0
              = Fault out_of_fuel).
  { induction fuel as [|n IH]; cbn [time_ticks]; rewrite HT; [reflexivity|].
    change (0 + 0) with 0. now rewrite IH. }
  now rewrite H.
Qed.

(** *** Conversion to the global frame, then the constraints *)

Lemma global_positions_length E traj cubic_spline js : forall x y x' y',
  global_positions E traj cubic_spline js x y = Ok (x', y') ->
  exists k, (k <= length js)%nat
            /\ length x' = (length x + k)%nat /\ length y' = (length y + k)%nat.
Proof.
  induction js as [|j js IH]; intros x y x' y'; cbn [global_positions].
  - intros [= <- <-]. exists 0%nat. cbn. lia.
  - destruct (vec_get (FrenetPath.s traj) j) as [sj|]; [|discriminate]. cbn [bind].
    destruct (calculatePosition E cubic_spline sj) as [state|]; [|discriminate].
    cbn [bind].
    destruct (calculateYaw E cubic_spline sj) as [i_yaw|]; [|discriminate]. cbn [bind].
    destruct (vec_get (FrenetPath.d traj) j) as [di|]; [|discriminate]. cbn [bind].
    destruct (_ || _).
    + intros [= <- <-]. exists 0%nat. cbn. lia.
    + intros H. destruct (IH _ _ _ _ H) as (k & Hk & Hx & Hy).
      rewrite length_app in Hx, Hy. cbn [length] in *. exists (S k). lia.
Qed.

Lemma global_yaw_ds_length E x y yaw ds yaw' ds' :
  (1 <= length x)%nat -> (vec_size x <= 2 ^ 64)%Z ->
  global_yaw_ds E x y yaw ds = Ok (yaw', ds') ->
  length yaw' = (length yaw + (length x - 1))%nat
  /\ length ds' = (length ds + (length x - 1))%nat.
Proof.
  intros Hx Hsize. unfold global_yaw_ds, vec_size in *.
  rewrite size_t_wrap_small by lia. intros Hloop.
  apply (for_loop_invariant
           (fun i '(yaw', ds') =>
              Z.of_nat (length yaw') = (Z.of_nat (length yaw) + i)%Z
              /\ Z.of_nat (length ds') = (Z.of_nat (length ds) + i)%Z)) in Hloop.
  - lia.
  - lia.
  - lia.
  - intros j [yaw0 ds0] [yaw1 ds1] Hj [H1 H2].
    destruct (vec_get x (j + 1)); [|discriminate]. cbn [bind].
    destruct (vec_get x j); [|discriminate]. cbn [bind].
    destruct (vec_get y (j + 1)); [|discriminate]. cbn [bind].
    destruct (vec_get y j); [|discriminate]. cbn [bind].
    intros [= <- <-]. rewrite !length_app. cbn [length]. lia.
Qed.

Lemma global_curvature_length E yaw ds c c' :
  (1 <= length yaw)%nat -> (vec_size yaw <= 2 ^ 64)%Z ->
  global_curvature E yaw ds c = Ok c' ->
  length c' = (length c + (length yaw - 1))%nat.
Proof.
  intros Hy Hsize. unfold global_curvature, vec_size in *.
  rewrite size_t_wrap_small by lia. intros Hloop.
  apply (for_loop_invariant
           (fun i c' => Z.of_nat (length c') = (Z.of_nat (length c) + i)%Z)) in Hloop.
  - lia.
  - lia.
  - lia.
  - intros j c0 c1 Hj H1.
    destruct (vec_get yaw (j + 1)); [|discriminate]. cbn [bind].
    destruct (vec_get yaw j); [|discriminate]. cbn [bind].
    destruct (vec_get ds j); [|discriminate]. cbn [bind].
    intros [= <-]. rewrite !length_app. cbn [length]. lia.
Qed.

(** What [convertToGlobalFrame] writes, and the lengths of the vectors. *)
Lemma convertToGlobalFrame_lengths E traj cubic_spline traj' :
  not_converted traj ->
  (vec_size (FrenetPath.s traj) <= 2 ^ 64)%Z ->
  convertToGlobalFrame E traj cubic_spline = Ok traj' ->
  exists x y yaw ds c,
    traj' = set_global traj x y yaw ds c
    /\ (2 <= length x <= length (FrenetPath.s traj))%nat
    /\ length y = length x /\ length yaw = length x /\ length ds = length x
    /\ length c = (length x - 1)%nat.
Proof.
  intros (Hx & Hy & Hyaw & Hds & Hc) Hsize. unfold convertToGlobalFrame.
  rewrite Hx, Hy, Hyaw, Hds, Hc.
  destruct (global_positions _ _ _ _ _ _) as [[x y]|] eqn:Hpos; [|discriminate].
  cbn [bind]. apply global_positions_length in Hpos.
  destruct Hpos as (k & Hk & Hlx & Hly). rewrite int_range_length in Hk.
  unfold vec_size in *. rewrite Nat2Z.id in Hk. cbn [length Nat.add] in Hlx, Hly.
  destruct (global_yaw_ds E x y [] []) as [[yaw ds]|] eqn:Hyd; [|discriminate].
  cbn [bind].
  destruct (Nat.eq_dec (length x) 0) as [H0|H0].
  { exfalso. destruct x; [|discriminate]. vm_compute in Hyd. discriminate. }
  apply global_yaw_ds_length in Hyd; [|lia|unfold vec_size; lia].
  cbn [length Nat.add] in Hyd. destruct Hyd as [Hlyaw Hlds].
  destruct (vec_back yaw) as [yaw_back|] eqn:Hyb; [|discriminate]. cbn [bind].
  destruct (vec_back ds) as [ds_back|] eqn:Hdb; [|discriminate]. cbn [bind].
  assert (Hyaw1 : (1 <= length yaw)%nat) by (destruct yaw; [discriminate|cbn; lia]).
  destruct (global_curvature E _ _ []) as [c|] eqn:Hcurv; [|discriminate].
  cbn [bind]. apply global_curvature_length in Hcurv;
    [|rewrite length_app; cbn; lia|unfold vec_size; rewrite length_app; cbn [length]; lia].
  rewrite length_app in Hcurv. cbn [length Nat.add] in Hcurv.
  intros [= <-]. exists x, y, (yaw ++ [yaw_back]), (ds ++ [ds_back]), c.
  rewrite !length_app. cbn [length]. repeat split; lia.
Qed.

(** X11. When [convertToGlobalFrame] returns on a candidate that has not been
    converted before, at least two positions were legal; [y], [yaw] and
    [ds] have the length of [x], which is at most that of [s], and the
    curvature [c] is one shorter. The Frenet profiles are untouched. *)
Theorem convertToGlobalFrame_shape E traj cubic_spline traj' :
  not_converted traj ->
  (vec_size (FrenetPath.s traj) <= 2 ^ 64)%Z ->
  convertToGlobalFrame E traj cubic_spline = Ok traj' ->
  (2 <= length (FrenetPath.x traj') <= length (FrenetPath.s traj))%nat
  /\ length (FrenetPath.y traj') = length (FrenetPath.x traj')
  /\ length (FrenetPath.yaw traj') = length (FrenetPath.x traj')
  /\ length (FrenetPath.ds traj') = length (FrenetPath.x traj')
  /\ length (FrenetPath.c traj') = (length (FrenetPath.x traj') - 1)%nat
  /\ FrenetPath.s traj' = FrenetPath.s traj
  /\ FrenetPath.s_d traj' = FrenetPath.s_d traj
  /\ FrenetPath.s_dd traj' = FrenetPath.s_dd traj
  /\ FrenetPath.d traj' = FrenetPath.d traj.
Proof.
  intros Hnc Hsize Hconv.
  destruct (convertToGlobalFrame_lengths _ _ _ _ Hnc Hsize Hconv)
    as (x & y & yaw & ds & c & -> & Hx & Hy & Hyaw & Hds & Hc).
  cbn [set_global FrenetPath.x FrenetPath.y FrenetPath.yaw FrenetPath.ds FrenetPath.c
         FrenetPath.s FrenetPath.s_d FrenetPath.s_dd FrenetPath.d].
  split; [exact Hx|]. split; [exact Hy|]. split; [exact Hyaw|]. split; [exact Hds|].
  split; [exact Hc|]. repeat split; reflexivity.
Qed.

Lemma checkConstraints_loop_defined st traj n : forall k,
  (k + n <= length (FrenetPath.x traj))%nat ->
  (k + n <= length (FrenetPath.y traj))%nat ->
  (k + n <= length (FrenetPath.s_d traj))%nat ->
  (k + n <= length (FrenetPath.s_dd traj))%nat ->
  (k + n <= length (FrenetPath.c traj))%nat ->
  exists passed, checkConstraints_loop st traj (map Z.of_nat (seq k n)) = Ok passed.
Proof.
  induction n as [|n IH]; intros k Hx Hy Hsd Hsdd Hc; cbn [seq map checkConstraints_loop].
  - now exists true.
  - rewrite (vec_get_nth _ k 0) by lia. cbn [bind].
    rewrite (vec_get_nth (FrenetPath.y traj) k 0) by lia.
    rewrite (vec_get_nth (FrenetPath.s_d traj) k 0) by lia.
    rewrite (vec_get_nth (FrenetPath.s_dd traj) k 0) by lia.
    rewrite (vec_get_nth (FrenetPath.c traj) k 0) by lia.
    destruct (IH (S k)) as (b & Hb); try lia. rewrite Hb.
    destruct (Double.isnormal _); cbn [bind];
      [destruct (Double.isnormal _); cbn [negb bind]|]; eauto.
    destruct (Double.gt _ _); eauto.
    destruct (_ || _); eauto. cbn [bind].
    destruct (Double.gt _ _); eauto.
Qed.

(** X12. After a conversion to the global frame that returned, on a candidate
    with aligned profiles, [checkConstraints] reads no sample outside the
    trajectory: it returns a verdict and changes nothing but
    [constraint_passed]. *)
Theorem checkConstraints_after_conversion E st traj cubic_spline traj' :
  profiles_aligned traj -> not_converted traj ->
  (vec_size (FrenetPath.s traj) <= 2 ^ 64)%Z ->
  convertToGlobalFrame E traj cubic_spline = Ok traj' ->
  exists passed,
    checkConstraints st traj' = Ok (passed, set_constraint_passed traj' passed).
Proof.
  intros Hal Hnc Hsize Hconv.
  destruct (convertToGlobalFrame_lengths _ _ _ _ Hnc Hsize Hconv)
    as (x & y & yaw & ds & c & Htraj & Hx & Hy & _ & _ & Hc).
  assert (Hs : FrenetPath.s traj' = FrenetPath.s traj) by (now subst traj').
  assert (Hsd : FrenetPath.s_d traj' = FrenetPath.s_d traj) by (now subst traj').
  assert (Hsdd : FrenetPath.s_dd traj' = FrenetPath.s_dd traj) by (now subst traj').
  assert (Hxx : FrenetPath.x traj' = x) by (now subst traj').
  assert (Hyy : FrenetPath.y traj' = y) by (now subst traj').
  assert (Hcc : FrenetPath.c traj' = c) by (now subst traj').
  rewrite <- Hxx, <- Hyy in Hy. rewrite <- Hxx in Hx. rewrite <- Hxx, <- Hcc in Hc.
  clear Htraj Hxx Hyy Hcc x y yaw ds c.
  destruct Hal as (_ & _ & _ & _ & Has & Hasd & Hasdd & _).
  unfold checkConstraints, int_range, vec_size. rewrite Nat2Z.id.
  destruct (checkConstraints_loop_defined st traj' (length (FrenetPath.c traj')) 0)
    as (passed & Hp); try (rewrite ?Hsd, ?Hsdd; lia).
  rewrite Hp. cbn [bind]. now exists passed.
Qed.

(** *** The collision check *)

Lemma collision_ticks_count E st ego_traj obstacle_trajs obstacles margin_lon margin_lat
  i js : forall num_checks clear n,
  collision_ticks E st ego_traj obstacle_trajs obstacles margin_lon margin_lat
    i js num_checks = Ok (clear, n) ->
  if clear then n = (num_checks + Z.of_nat (length js))%Z
  else (num_checks < n <= num_checks + Z.of_nat (length js))%Z.
Proof.
  induction js as [|j js IH]; intros num_checks clear n; cbn [collision_ticks].
  - intros [= <- <-]. cbn. lia.
  - destruct (vec_get (FrenetPath.x ego_traj) j); [|discriminate]. cbn [bind].
    destruct (vec_get (FrenetPath.yaw ego_traj) j); [|discriminate]. cbn [bind].
    destruct (vec_get (FrenetPath.y ego_traj) j); [|discriminate]. cbn [bind].
    destruct (vec_get obstacle_trajs i); [|discriminate]. cbn [bind].
    destruct (vec_get (Path.x _) j); [|discriminate]. cbn [bind].
    destruct (vec_get (Path.y _) j); [|discriminate]. cbn [bind].
    destruct (vec_get (Path.yaw _) j); [|discriminate]. cbn [bind].
    destruct (vec_get obstacles i); [|discriminate]. cbn [bind].
    destruct (check_collision E _ _).
    + intros [= <- <-]. cbn [length]. lia.
    + intros H. apply IH in H. cbn [length]. destruct clear; lia.
Qed.

Lemma collision_obstacles_count E st ego_traj obstacle_trajs obstacles
  margin_lon margin_lat indices : forall num_checks clear n,
  collision_obstacles E st ego_traj obstacle_trajs obstacles margin_lon margin_lat
    indices num_checks = Ok (clear, n) ->
  if clear
  then n = (num_checks
            + Z.of_nat (length indices * length (FrenetPath.x ego_traj)))%Z
  else (num_checks < n
        <= num_checks
           + Z.of_nat (length indices * length (FrenetPath.x ego_traj)))%Z.
Proof.
  induction indices as [|i indices IH]; intros num_checks clear n;
    cbn [collision_obstacles].
  - intros [= <- <-]. cbn. lia.
  - destruct (collision_ticks _ _ _ _ _ _ _ _ _ _) as [[clear1 n1]|] eqn:Ht;
      [|discriminate].
    cbn [bind]. apply collision_ticks_count in Ht.
    rewrite int_range_length in Ht. unfold vec_size in Ht. rewrite Nat2Z.id in Ht.
    destruct clear1.
    + intros H. apply IH in H. cbn [length]. destruct clear; nia.
    + intros [= <- <-]. cbn [length]. nia.
Qed.

(** X13. [checkTrajCollision] counts one check for every pair it compares: all
    [obstacles x ticks] pairs when the trajectory is clear, and at least
    one but no more than that when it stops at a collision. *)
Theorem checkTrajCollision_count E st ego_traj obstacle_trajs obstacles
  margin_lon margin_lat clear n :
  checkTrajCollision E st ego_traj obstacle_trajs obstacles margin_lon margin_lat
  = Ok (clear, n) ->
  if clear
  then n = Z.of_nat (length obstacles * length (FrenetPath.x ego_traj))
  else (1 <= n <= Z.of_nat (length obstacles * length (FrenetPath.x ego_traj)))%Z.
Proof.
  unfold checkTrajCollision. intros H. apply collision_obstacles_count in H.
  rewrite int_range_length in H. unfold vec_size in H. rewrite Nat2Z.id in H.
  destruct clear; lia.
Qed.

(** X14. [checkCollisions] writes only [collision_passed], which is the verdict
    it returns, and adds to the counter the checks of this trajectory: none
    when there is no obstacle. Running the check as an asynchronous task
    makes no difference. *)
Theorem checkCollisions_effect E st ego_traj obstacle_trajs obstacles use_async
  num_checks passed traj' n :
  checkCollisions E st ego_traj obstacle_trajs obstacles use_async num_checks
  = Ok (passed, traj', n) ->
  traj' = set_collision_passed ego_traj passed
  /\ (if passed
      then n = (num_checks
                + Z.of_nat (length obstacles * length (FrenetPath.x ego_traj)))%Z
      else (num_checks < n
            <= num_checks
               + Z.of_nat (length obstacles * length (FrenetPath.x ego_traj)))%Z)
  /\ (obstacles = [] -> passed = true /\ n = num_checks)
  /\ checkCollisions E st ego_traj obstacle_trajs obstacles (negb use_async) num_checks
     = Ok (passed, traj', n).
Proof.
  unfold checkCollisions.
  assert (Hsame : (if use_async
                   then checkTrajCollision E st ego_traj obstacle_trajs obstacles
                          (Setting.safety_margin_lon st) (Setting.safety_margin_lat st)
                   else checkTrajCollision E st ego_traj obstacle_trajs obstacles
                          (Setting.safety_margin_lon st) (Setting.safety_margin_lat st))
                  = checkTrajCollision E st ego_traj obstacle_trajs obstacles
                      (Setting.safety_margin_lon st) (Setting.safety_margin_lat st))
    by now destruct use_async.
  rewrite Hsame.
  assert (Hsame' : (if negb use_async
                    then checkTrajCollision E st ego_traj obstacle_trajs obstacles
                           (Setting.safety_margin_lon st) (Setting.safety_margin_lat st)
                    else checkTrajCollision E st ego_traj obstacle_trajs obstacles
                           (Setting.safety_margin_lon st) (Setting.safety_margin_lat st))
                   = checkTrajCollision E st ego_traj obstacle_trajs obstacles
                       (Setting.safety_margin_lon st) (Setting.safety_margin_lat st))
    by now destruct use_async.
  rewrite Hsame'.
  destruct (checkTrajCollision _ _ _ _ _ _ _) as [[clear m]|] eqn:Hc; [|discriminate].
  cbn [bind]. intros [= <- <- <-].
  unfold checkTrajCollision in Hc. apply collision_obstacles_count in Hc.
  rewrite int_range_length in Hc. unfold vec_size in Hc. rewrite Nat2Z.id in Hc.
  split; [reflexivity|]. split; [destruct clear; lia|]. split; [|reflexivity].
  intros ->. cbn [length Nat.mul] in Hc. destruct clear; [split; [reflexivity|lia]|lia].
Qed.

(** *** The test result *)

Lemma vec_get_middle {A} (pre : list A) a rest :
  vec_get (pre ++ a :: rest) (Z.of_nat (length pre)) = Ok a.
Proof.
  apply vec_get_Some. split; [lia|].
  rewrite Nat2Z.id, nth_error_app2 by lia. now rewrite Nat.sub_diag.
Qed.

Lemma vec_set_middle {A} (pre : list A) : forall a rest b,
  vec_set (pre ++ a :: rest) (length pre) b = pre ++ b :: rest.
Proof.
  induction pre as [|c pre IH]; intros a rest b; [reflexivity|].
  cbn [app length vec_set]. now rewrite IH.
Qed.

Lemma vec_write_middle {A} (pre : list A) a rest b :
  vec_write (pre ++ a :: rest) (Z.of_nat (length pre)) b = Ok (pre ++ b :: rest).
Proof.
  unfold vec_write. rewrite vec_get_middle. cbn [bind].
  now rewrite Nat2Z.id, vec_set_middle.
Qed.

Lemma minmax_loop {A} (f1 f2 : A -> A -> A) (v : list A) (n : nat) :
  forall d1 r1 d2 r2 dv rv,
  v = dv ++ rv -> length d1 = length dv -> length d2 = length dv ->
  (n <= length r1)%nat -> (n <= length r2)%nat -> (n <= length rv)%nat ->
  run_loop n (Z.of_nat (length dv))
    (fun i '(lo_, hi_) =>
       lo <- vec_get lo_ i ;; x <- vec_get v i ;;
       lo_ <- vec_write lo_ i (f1 lo x) ;;
       hi <- vec_get hi_ i ;; x <- vec_get v i ;;
       hi_ <- vec_write hi_ i (f2 hi x) ;;
       Ok (lo_, hi_))
    (d1 ++ r1, d2 ++ r2)
  = Ok (d1 ++ zip_with f1 (firstn n r1) rv ++ skipn n r1,
        d2 ++ zip_with f2 (firstn n r2) rv ++ skipn n r2).
Proof.
  induction n as [|n IH]; intros d1 r1 d2 r2 dv rv Hv H1 H2 Hn1 Hn2 Hnv.
  - reflexivity.
  - destruct r1 as [|a1 r1]; [cbn in Hn1; lia|].
    destruct r2 as [|a2 r2]; [cbn in Hn2; lia|].
    destruct rv as [|x rv]; [cbn in Hnv; lia|].
    cbn [length] in Hn1, Hn2, Hnv.
    assert (Hx : vec_get v (Z.of_nat (length dv)) = Ok x)
      by (rewrite Hv; apply vec_get_middle).
    assert (Hg1 : vec_get (d1 ++ a1 :: r1) (Z.of_nat (length dv)) = Ok a1)
      by (rewrite <- H1; apply vec_get_middle).
    assert (Hw1 : forall b, vec_write (d1 ++ a1 :: r1) (Z.of_nat (length dv)) b
                            = Ok (d1 ++ b :: r1))
      by (intros b; rewrite <- H1; apply vec_write_middle).
    assert (Hg2 : vec_get (d2 ++ a2 :: r2) (Z.of_nat (length dv)) = Ok a2)
      by (rewrite <- H2; apply vec_get_middle).
    assert (Hw2 : forall b, vec_write (d2 ++ a2 :: r2) (Z.of_nat (length dv)) b
                            = Ok (d2 ++ b :: r2))
      by (intros b; rewrite <- H2; apply vec_write_middle).
    cbn [run_loop]. rewrite Hg1. cbn [bind]. rewrite Hx. cbn [bind].
    rewrite Hw1. cbn [bind]. rewrite Hg2. cbn [bind]. rewrite Hw2. cbn [bind].
    replace (Z.of_nat (length dv) + 1)%Z with (Z.of_nat (length (dv ++ [x])))
      by (rewrite length_app; cbn [length]; lia).
    replace (d1 ++ f1 a1 x :: r1) with ((d1 ++ [f1 a1 x]) ++ r1)
      by (now rewrite <- app_assoc).
    replace (d2 ++ f2 a2 x :: r2) with ((d2 ++ [f2 a2 x]) ++ r2)
      by (now rewrite <- app_assoc).
    rewrite (IH (d1 ++ [f1 a1 x]) r1 (d2 ++ [f2 a2 x]) r2 (dv ++ [x]) rv);
      try (rewrite !length_app; cbn [length]; lia); try lia;
      [|now rewrite <- app_assoc].
    rewrite <- !app_assoc. reflexivity.
Qed.

Lemma elapsed_loop {T} (elapsed_ms : T -> T -> double) (timestamps : list T) :
  forall rt dt d r,
  timestamps = dt ++ rt -> length d = length dt ->
  (length rt - 1 <= length r)%nat ->
  run_loop (length rt - 1) (Z.of_nat (length dt))
    (fun i time =>
       t1 <- vec_get timestamps (i + 1) ;; t0 <- vec_get timestamps i ;;
       vec_write time i (elapsed_ms t1 t0))
    (d ++ r)
  = Ok (d ++ consecutive elapsed_ms rt ++ skipn (length rt - 1) r).
Proof.
  induction rt as [|a [|b rt] IH]; intros dt d r Ht Hd Hr.
  - reflexivity.
  - reflexivity.
  - replace (length (a :: b :: rt) - 1)%nat with (S (length (b :: rt) - 1))
      by (cbn [length]; lia).
    cbn [length] in Hr.
    destruct r as [|c r]; [cbn in Hr; lia|].
    assert (H1 : vec_get timestamps (Z.of_nat (length dt) + 1) = Ok b).
    { rewrite Ht.
      replace (dt ++ a :: b :: rt) with ((dt ++ [a]) ++ b :: rt)
        by (now rewrite <- app_assoc).
      replace (Z.of_nat (length dt) + 1)%Z with (Z.of_nat (length (dt ++ [a])))
        by (rewrite length_app; cbn [length]; lia).
      apply vec_get_middle. }
    assert (H0 : vec_get timestamps (Z.of_nat (length dt)) = Ok a)
      by (rewrite Ht; apply vec_get_middle).
    assert (Hw : vec_write (d ++ c :: r) (Z.of_nat (length dt)) (elapsed_ms b a)
                 = Ok (d ++ elapsed_ms b a :: r))
      by (rewrite <- Hd; apply vec_write_middle).
    cbn [run_loop]. rewrite H1, H0. cbn [bind]. rewrite Hw. cbn [bind].
    replace (Z.of_nat (length dt) + 1)%Z with (Z.of_nat (length (dt ++ [a])))
      by (rewrite length_app; cbn [length]; lia).
    replace (d ++ elapsed_ms b a :: r) with ((d ++ [elapsed_ms b a]) ++ r)
      by (now rewrite <- app_assoc).
    rewrite (IH (dt ++ [a]) (d ++ [elapsed_ms b a]) r);
      [|now rewrite <- app_assoc|rewrite !length_app; cbn [length]; lia
       |cbn [length] in *; lia].
    rewrite <- !app_assoc. cbn [app consecutive skipn length Nat.sub].
    now rewrite Nat.sub_0_r.
Qed.

Lemma transform_plus_zip {A} (plus : A -> A -> A) (v : list A) :
  forall total dv rv,
  v = dv ++ rv -> (length total <= length rv)%nat ->
  transform_plus plus total v (Z.of_nat (length dv)) = Ok (zip_with plus total rv).
Proof.
  induction total as [|a total IH]; intros dv rv Hv Hlen; [reflexivity|].
  destruct rv as [|b rv]; [cbn in Hlen; lia|]. cbn [length] in Hlen.
  assert (Hb : vec_get v (Z.of_nat (length dv)) = Ok b)
    by (rewrite Hv; apply vec_get_middle).
  cbn [transform_plus]. rewrite Hb. cbn [bind].
  replace (Z.of_nat (length dv) + 1)%Z with (Z.of_nat (length (dv ++ [b])))
    by (rewrite length_app; cbn [length]; lia).
  rewrite (IH (dv ++ [b]) rv); [reflexivity|now rewrite <- app_assoc|lia].
Qed.

Lemma zip_with_length {A} (f : A -> A -> A) u v :
  length (zip_with f u v) = Nat.min (length u) (length v).
Proof. unfold zip_with. now rewrite length_map, length_combine. Qed.

Lemma zip_with_nth {A} (f : A -> A -> A) (d : A) : forall u v i,
  (i < length u)%nat -> (i < length v)%nat ->
  nth i (zip_with f u v) d = f (nth i u d) (nth i v d).
Proof.
  induction u as [|a u IH]; intros [|b v] [|i] Hu Hv; cbn [length] in *; try lia;
    [reflexivity|].
  apply (IH v i); lia.
Qed.

Lemma consecutive_length {A B} (f : A -> A -> B) v :
  length (consecutive f v) = (length v - 1)%nat.
Proof.
  induction v as [|a [|b v] IH]; [reflexivity|reflexivity|].
  cbn [consecutive length] in *. lia.
Qed.

Section TestResultFacts.

Variable time_point : Type.
Variable elapsed_ms : time_point -> time_point -> double.

(** What a call of [updateCount] with vectors of the right sizes leaves
    in the [TestResult]. *)
Lemma updateCount_result r numbers timestamps first last_ :
  TestResult_shape r -> (TestResult.length r + 1 < 2 ^ 64)%Z ->
  valid_record r numbers timestamps ->
  hd_error timestamps = Some first -> last timestamps first = last_ ->
  updateCount time_point elapsed_ms r numbers timestamps
  = Ok {| TestResult.length := TestResult.length r;
          TestResult.count := (TestResult.count r + 1)%Z;
          TestResult.numbers := numbers;
          TestResult.numbers_min := zip_with Z.min (TestResult.numbers_min r) numbers;
          TestResult.numbers_max := zip_with Z.max (TestResult.numbers_max r) numbers;
          TestResult.total_numbers :=
            zip_with (fun a b => size_t_wrap (a + b)) (TestResult.total_numbers r) numbers;
          TestResult.time := consecutive elapsed_ms timestamps ++ [elapsed_ms last_ first];
          TestResult.time_min :=
            zip_with std_min
              (firstn (Z.to_nat (TestResult.length r)) (TestResult.time_min r))
              (consecutive elapsed_ms timestamps ++ [elapsed_ms last_ first])
            ++ skipn (Z.to_nat (TestResult.length r)) (TestResult.time_min r);
          TestResult.time_max :=
            zip_with std_max
              (firstn (Z.to_nat (TestResult.length r)) (TestResult.time_max r))
              (consecutive elapsed_ms timestamps ++ [elapsed_ms last_ first])
            ++ skipn (Z.to_nat (TestResult.length r)) (TestResult.time_max r);
          TestResult.total_time :=
            zip_with (fun a b => a + b) (TestResult.total_time r)
              (consecutive elapsed_ms timestamps ++ [elapsed_ms last_ first]) |}.
Proof.
  intros (Hlen & Hmin & Hmax & Htot & Htime & Htmin & Htmax & Httot) Hbig
    [Hnum Hstamps] Hfirst Hlast.
  set (n := Z.to_nat (TestResult.length r)) in *.
  assert (Hn : Z.of_nat n = TestResult.length r) by (unfold n; lia).
  unfold updateCount, vec_size.
  rewrite Hnum, Hstamps, !size_t_wrap_small by lia.
  replace (Z.of_nat n =? TestResult.length r)%Z with true
    by (symmetry; apply Z.eqb_eq; lia).
  replace (Z.of_nat (S n) =? TestResult.length r + 1)%Z with true
    by (symmetry; apply Z.eqb_eq; lia).
  cbn [negb orb].
  replace (TestResult.length r) with (0 + Z.of_nat n)%Z at 1 by lia.
  rewrite for_loop_run by lia.
  pose proof (minmax_loop Z.min Z.max numbers n [] (TestResult.numbers_min r) []
                (TestResult.numbers_max r) [] numbers eq_refl eq_refl eq_refl
                ltac:(lia) ltac:(lia) ltac:(lia)) as H1.
  cbn [app length] in H1. change (Z.of_nat 0) with 0%Z in H1.
  rewrite (firstn_all2 (TestResult.numbers_min r)), (firstn_all2 (TestResult.numbers_max r)),
    (skipn_all2 (TestResult.numbers_min r)), (skipn_all2 (TestResult.numbers_max r)),
    !app_nil_r in H1 by lia.
  rewrite H1. cbn [bind].
  pose proof (transform_plus_zip (fun a b => size_t_wrap (a + b)) numbers
                (TestResult.total_numbers r) [] numbers eq_refl ltac:(lia)) as H2.
  cbn [app length] in H2. change (Z.of_nat 0) with 0%Z in H2. rewrite H2. cbn [bind].
  replace (Z.of_nat (S n) - 1)%Z with (0 + Z.of_nat (length timestamps - 1))%Z by lia.
  rewrite for_loop_run by lia.
  pose proof (elapsed_loop elapsed_ms timestamps timestamps [] [] (TestResult.time r)
                eq_refl eq_refl ltac:(lia)) as H3.
  cbn [app length] in H3. change (Z.of_nat 0) with 0%Z in H3. rewrite H3. cbn [bind].
  destruct timestamps as [|t0 ts]; [discriminate|]. injection Hfirst as ->.
  rewrite (vec_back_last (first :: ts) first) by discriminate. cbn [bind].
  rewrite Hlast. cbn [vec_get Z.ltb Z.compare Z.to_nat nth_error bind].
  replace (length (first :: ts) - 1)%nat with n by (cbn [length] in *; lia).
  assert (Hskip : exists c, skipn n (TestResult.time r) = [c]).
  { pose proof (length_skipn n (TestResult.time r)) as Hl. rewrite Htime in Hl.
    destruct (skipn n (TestResult.time r)) as [|c [|c' l]]; cbn [length] in Hl;
      try lia. now exists c. }
  destruct Hskip as (c & ->).
  assert (Hcl : length (consecutive elapsed_ms (first :: ts)) = n)
    by (rewrite consecutive_length; cbn [length] in *; lia).
  rewrite <- Hn, <- Hcl, vec_write_middle. cbn [bind]. rewrite Hcl, Hn.
  set (time' := consecutive elapsed_ms (first :: ts) ++ [elapsed_ms last_ first]).
  assert (Htl : length time' = S n)
    by (unfold time'; rewrite length_app, Hcl; cbn [length]; lia).
  replace (TestResult.length r) with (0 + Z.of_nat n)%Z at 1 by lia.
  rewrite for_loop_run by lia.
  pose proof (minmax_loop std_min std_max time' n [] (TestResult.time_min r) []
                (TestResult.time_max r) [] time' eq_refl eq_refl eq_refl
                ltac:(lia) ltac:(lia) ltac:(lia)) as H4.
  cbn [app length] in H4. change (Z.of_nat 0) with 0%Z in H4. rewrite H4. cbn [bind].
  pose proof (transform_plus_zip (fun a b => a + b) time'
                (TestResult.total_time r) [] time' eq_refl ltac:(lia)) as H5.
  cbn [app length] in H5. change (Z.of_nat 0) with 0%Z in H5. rewrite H5. cbn [bind].
  reflexivity.
Qed.

(** What [updateCount] keeps when it counts a record. *)
Lemma updateCount_counted r numbers timestamps :
  TestResult_shape r -> (TestResult.length r + 1 < 2 ^ 64)%Z ->
  valid_record r numbers timestamps ->
  exists r',
    updateCount time_point elapsed_ms r numbers timestamps = Ok r'
    /\ TestResult_shape r'
    /\ TestResult.length r' = TestResult.length r
    /\ TestResult.count r' = (TestResult.count r + 1)%Z
    /\ nth (length numbers) (TestResult.time_min r') nan
       = nth (length numbers) (TestResult.time_min r) nan
    /\ nth (length numbers) (TestResult.time_max r') nan
       = nth (length numbers) (TestResult.time_max r) nan.
Proof.
  intros Hshape Hbig Hvalid.
  destruct timestamps as [|first ts] eqn:Hts;
    [destruct Hvalid as [_ Hv]; discriminate|].
  rewrite <- Hts in *.
  assert (Hfirst : hd_error timestamps = Some first) by now rewrite Hts.
  rewrite (updateCount_result r numbers timestamps first (last timestamps first)
             Hshape Hbig Hvalid Hfirst eq_refl).
  destruct Hshape as (Hlen & Hmin & Hmax & Htot & Htime & Htmin & Htmax & Httot).
  destruct Hvalid as [Hnum Hstamps].
  set (n := Z.to_nat (TestResult.length r)) in *.
  assert (Hcl : length (consecutive elapsed_ms timestamps) = n)
    by (rewrite consecutive_length; lia).
  eexists. split; [reflexivity|].
  cbn [TestResult.length TestResult.count TestResult.numbers TestResult.numbers_min
         TestResult.numbers_max TestResult.total_numbers TestResult.time
         TestResult.time_min TestResult.time_max TestResult.total_time].
  split; [|split; [reflexivity|split; [reflexivity|split]]].
  - unfold TestResult_shape.
    cbn [TestResult.length TestResult.numbers_min TestResult.numbers_max
           TestResult.total_numbers TestResult.time TestResult.time_min
           TestResult.time_max TestResult.total_time].
    fold n. rewrite !length_app, !zip_with_length, !length_app, !length_skipn,
      !length_firstn, Hcl. cbn [length]. repeat split; lia.
  - rewrite Hnum. rewrite app_nth2; rewrite zip_with_length, length_firstn,
      length_app, Hcl; cbn [length]; [|lia].
    replace (n - Nat.min (Nat.min n (length (TestResult.time_min r))) (n + 1))%nat
      with 0%nat by lia.
    rewrite nth_skipn. f_equal. lia.
  - rewrite Hnum. rewrite app_nth2; rewrite zip_with_length, length_firstn,
      length_app, Hcl; cbn [length]; [|lia].
    replace (n - Nat.min (Nat.min n (length (TestResult.time_max r))) (n + 1))%nat
      with 0%nat by lia.
    rewrite nth_skipn. f_equal. lia.
Qed.

(** X15. A record of the right sizes is counted: [count] goes up by one, the
    minima and maxima bracket the numbers recorded, the totals grow
    modulo [2^64], and the sizes of the vectors are kept. The last slot of
    [time_min] and [time_max], the one of the total time, is not compared:
    it keeps the value it had. *)
Theorem updateCount_valid r numbers timestamps :
  TestResult_shape r -> (TestResult.length r + 1 < 2 ^ 64)%Z ->
  valid_record r numbers timestamps ->
  exists r',
    updateCount time_point elapsed_ms r numbers timestamps = Ok r'
    /\ TestResult_shape r'
    /\ TestResult.length r' = TestResult.length r
    /\ TestResult.count r' = (TestResult.count r + 1)%Z
    /\ TestResult.numbers r' = numbers
    /\ (forall i, (i < length numbers)%nat ->
        nth i (TestResult.numbers_min r') 0%Z
        = Z.min (nth i (TestResult.numbers_min r) 0%Z) (nth i numbers 0%Z)
        /\ nth i (TestResult.numbers_max r') 0%Z
           = Z.max (nth i (TestResult.numbers_max r) 0%Z) (nth i numbers 0%Z)
        /\ nth i (TestResult.total_numbers r') 0%Z
           = size_t_wrap (nth i (TestResult.total_numbers r) 0%Z + nth i numbers 0%Z)
        /\ (nth i (TestResult.numbers_min r') 0 <= nth i numbers 0
            <= nth i (TestResult.numbers_max r') 0)%Z)
    /\ nth (length numbers) (TestResult.time_min r') nan
       = nth (length numbers) (TestResult.time_min r) nan
    /\ nth (length numbers) (TestResult.time_max r') nan
       = nth (length numbers) (TestResult.time_max r) nan.
Proof.
  intros Hshape Hbig Hvalid.
  destruct (updateCount_counted r numbers timestamps Hshape Hbig Hvalid)
    as (r' & Hr & Hshape' & Hlength & Hcount & Htmin & Htmax).
  exists r'. split; [exact Hr|]. split; [exact Hshape'|]. split; [exact Hlength|].
  split; [exact Hcount|].
  destruct timestamps as [|first ts] eqn:Hts;
    [destruct Hvalid as [_ Hv]; discriminate|].
  rewrite <- Hts in *.
  assert (Hfirst : hd_error timestamps = Some first) by now rewrite Hts.
  rewrite (updateCount_result r numbers timestamps first (last timestamps first)
             Hshape Hbig Hvalid Hfirst eq_refl) in Hr.
  injection Hr as Hr. clear Hshape' Hlength Hcount.
  destruct Hshape as (Hlen & Hmin & Hmax & Htot & _).
  destruct Hvalid as [Hnum _].
  split; [now subst r'|]. split; [|split; [exact Htmin|exact Htmax]].
  intros i Hi. subst r'.
  cbn [TestResult.numbers_min TestResult.numbers_max TestResult.total_numbers].
  rewrite !(zip_with_nth _ 0%Z) by lia. repeat split; lia.
Qed.

(** A record of the wrong sizes is refused: [updateCount] leaves the
    [TestResult] as it was, [count] included. *)
Lemma updateCount_invalid r numbers timestamps :
  (vec_size numbers <> size_t_wrap (TestResult.length r)
   \/ vec_size timestamps <> size_t_wrap (TestResult.length r + 1))%Z ->
  updateCount time_point elapsed_ms r numbers timestamps = Ok r.
Proof.
  intros H. unfold updateCount.
  destruct (vec_size numbers =? size_t_wrap (TestResult.length r))%Z eqn:H1;
    [|reflexivity].
  destruct (vec_size timestamps =? size_t_wrap (TestResult.length r + 1))%Z eqn:H2;
    [|reflexivity].
  apply Z.eqb_eq in H1, H2. destruct H; contradiction.
Qed.

End TestResultFacts.

Lemma TestResult_new_shape length r :
  TestResult_new length = Some r ->
  TestResult_shape r /\ TestResult.length r = length /\ TestResult.count r = 0%Z
  /\ nth (Z.to_nat length) (TestResult.time_min r) nan = 100000
  /\ nth (Z.to_nat length) (TestResult.time_max r) nan = 0.
Proof.
  unfold TestResult_new. destruct (length <? 0)%Z eqn:Hl; [discriminate|].
  apply Z.ltb_ge in Hl. intros [= <-]. unfold TestResult_shape. cbn.
  rewrite !repeat_length. repeat split; try lia.
  - clear. induction (Z.to_nat length) as [|n IH]; [reflexivity|exact IH].
  - clear. induction (Z.to_nat length) as [|n IH]; [reflexivity|exact IH].
Qed.

(** X16. From a [TestResult] as its constructor builds it, whatever records
    are passed to [updateCount] afterwards, the calls return, [count] is at
    most the number of calls, and the slot of the total planning time in
    [time_min] and [time_max] still holds [100000] and [0]: the best and
    worst total time are never tracked. *)
Theorem TestResult_total_time_untracked {T} (elapsed_ms : T -> T -> double)
  length r0 records :
  TestResult_new length = Some r0 -> (length + 1 < 2 ^ 64)%Z ->
  exists r,
    updateCounts elapsed_ms r0 records = Ok r
    /\ TestResult_shape r
    /\ (0 <= TestResult.count r <= Z.of_nat (List.length records))%Z
    /\ nth (Z.to_nat length) (TestResult.time_min r) nan = 100000
    /\ nth (Z.to_nat length) (TestResult.time_max r) nan = 0.
Proof.
  intros Hnew Hbig. apply TestResult_new_shape in Hnew.
  destruct Hnew as (Hshape & Hlen & Hcount & Hmin & Hmax).
  assert (H : forall r,
             TestResult_shape r -> TestResult.length r = length ->
             nth (Z.to_nat length) (TestResult.time_min r) nan = 100000 ->
             nth (Z.to_nat length) (TestResult.time_max r) nan = 0 ->
             exists r',
               updateCounts elapsed_ms r records = Ok r'
               /\ TestResult_shape r'
               /\ (TestResult.count r <= TestResult.count r'
                   <= TestResult.count r + Z.of_nat (List.length records))%Z
               /\ nth (Z.to_nat length) (TestResult.time_min r') nan = 100000
               /\ nth (Z.to_nat length) (TestResult.time_max r') nan = 0).
  { clear r0 Hshape Hlen Hcount Hmin Hmax.
    induction records as [|[numbers timestamps] records IH]; intros r Hs Hl Hmn Hmx.
    - exists r. split; [reflexivity|]. split; [exact Hs|]. cbn [List.length].
      split; [lia|]. now split.
    - cbn [updateCounts].
      destruct (Nat.eq_dec (List.length numbers) (Z.to_nat (TestResult.length r)))
        as [Hn|Hn];
        [destruct (Nat.eq_dec (List.length timestamps)
                     (S (Z.to_nat (TestResult.length r)))) as [Ht|Ht]|].
      + destruct (updateCount_counted T elapsed_ms r numbers timestamps Hs
                    ltac:(lia) (conj Hn Ht))
          as (r1 & -> & Hs1 & Hl1 & Hc1 & Hmn1 & Hmx1).
        cbn [bind]. rewrite Hn, Hl in Hmn1, Hmx1.
        destruct (IH r1 Hs1 ltac:(congruence) ltac:(congruence) ltac:(congruence))
          as (r' & Hr' & Hs' & Hc' & Hmn' & Hmx').
        exists r'. cbn [List.length]. split; [exact Hr'|]. split; [exact Hs'|].
        split; [lia|]. now split.
      + rewrite updateCount_invalid.
        * cbn [bind]. destruct (IH r Hs Hl Hmn Hmx) as (r' & Hr' & Hs' & Hc' & Hmn' & Hmx').
          exists r'. cbn [List.length]. split; [exact Hr'|]. split; [exact Hs'|].
        split; [lia|]. now split.
        * right. destruct Hs as (H0 & _). unfold vec_size.
          rewrite size_t_wrap_small by lia. lia.
      + rewrite updateCount_invalid.
        * cbn [bind]. destruct (IH r Hs Hl Hmn Hmx) as (r' & Hr' & Hs' & Hc' & Hmn' & Hmx').
          exists r'. cbn [List.length]. split; [exact Hr'|]. split; [exact Hs'|].
        split; [lia|]. now split.
        * left. destruct Hs as (H0 & _). unfold vec_size.
          rewrite size_t_wrap_small by lia. lia. }
  destruct (H r0 Hshape Hlen Hmin Hmax) as (r & Hr & Hs & Hc & Hmn & Hmx).
  exists r. split; [exact Hr|]. split; [exact Hs|]. split; [lia|]. now split.
Qed.

(** *** The best path of a lane *)

Lemma leb_false_dle x y :
  Double.isnan x = false -> Double.isnan y = false -> (x <=? y) = false -> dle y x.
Proof.
  intros Hx Hy H. unfold dle. apply (leb_key _ _ Hy Hx). apply lex_compare_total.
  intros Hlt. assert (Hle : (x <=? y) = true) by (apply (leb_key _ _ Hx Hy); congruence).
  congruence.
Qed.

Section BestPathFacts.

Variable path : Type.
Variable lane_id : path -> Z.
Variable cf : path -> double.
Variable FrenetPath_empty : path.
Variable target_lane_id : Z.

Lemma best_path_scan_inv (l : list path) : forall rest pre found min_cost best_path_id,
  l = pre ++ rest ->
  (forall q, In q l -> lane_id q = target_lane_id -> Double.isnan (cf q) = false) ->
  best_path_inv lane_id cf target_lane_id pre min_cost best_path_id ->
  exists found' min_cost' best_path_id',
    fold_left
      (fun acc i =>
         '(found, min_cost, best_path_id) <- acc ;;
         p <- vec_at l i ;;
         if (lane_id p =? target_lane_id)%Z then
           if Double.ge min_cost (cf p) then Ok (true, cf p, i)
           else Ok (true, min_cost, best_path_id)
         else Ok (found, min_cost, best_path_id))
      (map Z.of_nat (seq (length pre) (length rest)))
      (Ok (found, min_cost, best_path_id))
    = Ok (found', min_cost', best_path_id')
    /\ best_path_inv lane_id cf target_lane_id l min_cost' best_path_id'.
Proof.
  induction rest as [|x rest IH]; intros pre found min_cost best Hl Hnan Hinv.
  - rewrite app_nil_r in Hl. subst pre. cbn. eauto.
  - assert (Hx : vec_at l (Z.of_nat (length pre)) = Ok x)
      by (rewrite Hl; apply vec_at_middle).
    cbn [length seq map fold_left bind]. rewrite Hx. cbn [bind].
    replace (S (length pre)) with (length (pre ++ [x]))
      by (rewrite length_app; cbn [length]; lia).
    assert (Hl' : l = (pre ++ [x]) ++ rest) by (now rewrite <- app_assoc).
    assert (Hxl : In x l) by (rewrite Hl; apply in_or_app; right; now left).
    destruct (lane_id x =? target_lane_id)%Z eqn:Hlane.
    + apply Z.eqb_eq in Hlane. pose proof (Hnan x Hxl Hlane) as Hxn.
      destruct (Double.ge min_cost (cf x)) eqn:Hge.
      * apply (IH (pre ++ [x]) true (cf x) (Z.of_nat (length pre)) Hl' Hnan).
        right. exists x. split; [lia|].
        rewrite Nat2Z.id, nth_error_app2, Nat.sub_diag by lia.
        split; [reflexivity|]. split; [exact Hlane|]. split; [reflexivity|].
        unfold Double.ge in Hge.
        destruct Hinv as [(_ & -> & Hhigh)|(p & _ & _ & _ & _ & Hle & Hmin)].
        -- split; [exact Hge|]. intros q Hq Hql. apply in_app_or in Hq.
           destruct Hq as [Hq|[<-|[]]]; [|now apply dle_refl].
           apply dle_trans with 1000000000; [exact Hge|].
           apply leb_false_dle; [apply Hnan; [rewrite Hl; apply in_or_app; now left|exact Hql]
                                |reflexivity|now apply Hhigh].
        -- split; [now apply dle_trans with min_cost|]. intros q Hq Hql.
           apply in_app_or in Hq. destruct Hq as [Hq|[<-|[]]]; [|now apply dle_refl].
           apply dle_trans with min_cost; [exact Hge|now apply Hmin].
      * apply (IH (pre ++ [x]) true min_cost best Hl' Hnan).
        destruct Hinv as [(-> & -> & Hhigh)|(p & H0 & Hp & Hpl & Hpc & Hle & Hmin)].
        -- left. repeat split; try reflexivity. intros q Hq Hql.
           apply in_app_or in Hq. destruct Hq as [Hq|[<-|[]]]; [now apply Hhigh|exact Hge].
        -- right. exists p. split; [exact H0|].
           split; [rewrite nth_error_app1; [exact Hp|apply nth_error_Some; congruence]|].
           repeat (split; [assumption|]). intros q Hq Hql.
           apply in_app_or in Hq. destruct Hq as [Hq|[<-|[]]]; [now apply Hmin|].
           apply leb_false_dle; [exact Hxn| |exact Hge].
           apply (leb_not_nan _ _ Hle).
    + apply Z.eqb_neq in Hlane.
      apply (IH (pre ++ [x]) found min_cost best Hl' Hnan).
      destruct Hinv as [(-> & -> & Hhigh)|(p & H0 & Hp & Hpl & Hpc & Hle & Hmin)].
      * left. repeat split; try reflexivity. intros q Hq Hql.
        apply in_app_or in Hq. destruct Hq as [Hq|[<-|[]]]; [now apply Hhigh|contradiction].
      * right. exists p. split; [exact H0|].
        split; [rewrite nth_error_app1; [exact Hp|apply nth_error_Some; congruence]|].
        repeat (split; [assumption|]). intros q Hq Hql.
        apply in_app_or in Hq. destruct Hq as [Hq|[<-|[]]]; [now apply Hmin|contradiction].
Qed.

Lemma findBestPath_inv (l : list path) :
  l <> [] ->
  (forall q, In q l -> lane_id q = target_lane_id -> Double.isnan (cf q) = false) ->
  exists min_cost best_path_id p,
    findBestPath path lane_id cf FrenetPath_empty l target_lane_id = Ok p
    /\ nth_error l (Z.to_nat best_path_id) = Some p /\ (0 <= best_path_id)%Z
    /\ best_path_inv lane_id cf target_lane_id l min_cost best_path_id.
Proof.
  intros Hne Hnan.
  destruct (best_path_scan_inv l l [] false 1000000000 0%Z eq_refl Hnan)
    as (found & min_cost & best & Hscan & Hinv).
  { left. repeat split. intros q []. }
  cbn [length] in Hscan.
  assert (Hfind : findBestPath path lane_id cf FrenetPath_empty l target_lane_id
                  = vec_get l best).
  { destruct l as [|a l]; [contradiction|]. unfold findBestPath, best_path_scan,
      int_range, vec_size. rewrite Nat2Z.id, Hscan. reflexivity. }
  rewrite Hfind. exists min_cost, best.
  destruct Hinv as [(-> & Hm & Hhigh)|(p & H0 & Hp & Hrest)].
  - destruct l as [|a l]; [contradiction|]. exists a.
    split; [reflexivity|]. split; [reflexivity|]. split; [lia|].
    left. now repeat split.
  - exists p. split; [now apply vec_get_Some|]. split; [exact Hp|]. split; [exact H0|].
    right. exists p. now repeat split.
Qed.

(** X17. [findBestPath] on a list that holds a path of the target lane at a
    cost of at most [1e9], none of them at a NaN cost, returns a path of
    that lane that no other path of the lane is cheaper than. *)
Theorem findBestPath_cheapest (l : list path) q0 :
  (forall q, In q l -> lane_id q = target_lane_id -> Double.isnan (cf q) = false) ->
  In q0 l -> lane_id q0 = target_lane_id -> Double.ge 1000000000 (cf q0) = true ->
  exists p,
    findBestPath path lane_id cf FrenetPath_empty l target_lane_id = Ok p
    /\ In p l /\ lane_id p = target_lane_id
    /\ forall q, In q l -> lane_id q = target_lane_id -> dle (cf p) (cf q).
Proof.
  intros Hnan Hq0 Hlane Hcost.
  destruct (findBestPath_inv l) as (min_cost & best & p & Hfind & Hp & H0 & Hinv);
    [intros ->; contradiction|exact Hnan|].
  exists p. split; [exact Hfind|]. split; [eapply nth_error_In, Hp|].
  destruct Hinv as [(_ & _ & Hhigh)|(p' & _ & Hp' & Hpl & Hpc & _ & Hmin)].
  - rewrite (Hhigh q0 Hq0 Hlane) in Hcost. discriminate.
  - assert (p' = p) by congruence. subst p'. split; [exact Hpl|].
    intros q Hq Hql. rewrite Hpc. now apply Hmin.
Qed.

(** X18. Where no path has the target lane, [findBestPath] still returns a
    path: the first one of the list, of whatever lane. *)
Theorem findBestPath_no_lane (l : list path) :
  (forall q, In q l -> lane_id q <> target_lane_id) ->
  findBestPath path lane_id cf FrenetPath_empty l target_lane_id
  = Ok (hd FrenetPath_empty l).
Proof.
  intros Hnone.
  destruct l as [|a l]; [reflexivity|].
  destruct (findBestPath_inv (a :: l)) as (min_cost & best & p & Hfind & Hp & H0 & Hinv);
    [discriminate|intros q Hq Hl; now apply Hnone in Hq|].
  rewrite Hfind. destruct Hinv as [(-> & _)|(p' & _ & Hp' & Hpl & _)].
  - cbn in Hp |- *. congruence.
  - exfalso. apply (Hnone p'); [eapply nth_error_In, Hp'|exact Hpl].
Qed.

Lemma findBestPath_defined (l : list path) :
  exists p,
    findBestPath path lane_id cf FrenetPath_empty l target_lane_id = Ok p
    /\ (l <> [] -> In p l).
Proof.
  destruct l as [|a l]; [exists FrenetPath_empty; split; [reflexivity|congruence]|].
  unfold findBestPath, best_path_scan, int_range, vec_size. rewrite Nat2Z.id.
  assert (Hscan : forall rest pre acc,
             a :: l = pre ++ rest ->
             (0 <= snd acc < Z.of_nat (length (a :: l)))%Z ->
             exists acc',
               fold_left
                 (fun acc i =>
                    '(found, min_cost, best_path_id) <- acc ;;
                    p <- vec_at (a :: l) i ;;
                    if (lane_id p =? target_lane_id)%Z then
                      if Double.ge min_cost (cf p) then Ok (true, cf p, i)
                      else Ok (true, min_cost, best_path_id)
                    else Ok (found, min_cost, best_path_id))
                 (map Z.of_nat (seq (length pre) (length rest))) (Ok acc)
               = Ok acc'
               /\ (0 <= snd acc' < Z.of_nat (length (a :: l)))%Z).
  { induction rest as [|x rest IH]; intros pre [[found min_cost] best] Hl Hb.
    - cbn. eauto.
    - assert (Hx : vec_at (a :: l) (Z.of_nat (length pre)) = Ok x)
        by (rewrite Hl; apply vec_at_middle).
      cbn [length seq map fold_left bind]. rewrite Hx. cbn [bind].
      replace (S (length pre)) with (length (pre ++ [x]))
        by (rewrite length_app; cbn [length]; lia).
      assert (Hk : (Z.of_nat (length pre) < Z.of_nat (length (a :: l)))%Z)
        by (rewrite Hl, length_app; cbn [length]; lia).
      destruct (lane_id x =? target_lane_id)%Z; [destruct (Double.ge min_cost (cf x))|];
        apply IH; try (now rewrite <- app_assoc); cbn [snd] in *; lia. }
  destruct (Hscan (a :: l) [] (false, 1000000000, 0%Z) eq_refl)
    as ([[found min_cost] best] & Hs & Hb); [cbn [snd length]; lia|].
  change (@length path []) with 0%nat in Hs. cbn [snd] in Hb.
  destruct (vec_get_in_range (a :: l) best Hb) as (p & Hp & Hin). exists p.
  split; [rewrite <- Hp; unfold bind at 1; rewrite Hs; reflexivity|].
  intros _. apply vec_get_Some in Hp. destruct Hp as [_ Hn].
  eapply nth_error_In, Hn.
Qed.

End BestPathFacts.

(** X19. [findBestPaths] never indexes outside the list: it returns three
    paths, for the lanes [0], [1] and [2] in this order, each of them taken
    from the list when the list is not empty. *)
Theorem findBestPaths_three {path} (lane_id : path -> Z) (cf : path -> double)
  (FrenetPath_empty : path) (l : list path) :
  exists p0 p1 p2,
    findBestPaths path lane_id cf FrenetPath_empty l = Ok [p0; p1; p2]
    /\ findBestPath path lane_id cf FrenetPath_empty l 0 = Ok p0
    /\ findBestPath path lane_id cf FrenetPath_empty l 1 = Ok p1
    /\ findBestPath path lane_id cf FrenetPath_empty l 2 = Ok p2
    /\ (l <> [] -> In p0 l /\ In p1 l /\ In p2 l).
Proof.
  destruct (findBestPath_defined path lane_id cf FrenetPath_empty 0 l) as (p0 & H0 & I0).
  destruct (findBestPath_defined path lane_id cf FrenetPath_empty 1 l) as (p1 & H1 & I1).
  destruct (findBestPath_defined path lane_id cf FrenetPath_empty 2 l) as (p2 & H2 & I2).
  exists p0, p1, p2. unfold findBestPaths. rewrite H0, H1, H2. cbn [bind].
  repeat split; auto.
Qed.

(** *** The sampled course *)

Lemma course_loop_shape E n : forall spline2d ds s r r',
  course_loop E n spline2d ds s r = Ok r' ->
  length (SplineCourse.rx r) = length (SplineCourse.ry r) ->
  length (SplineCourse.rx r) = length (SplineCourse.ryaw r) ->
  length (SplineCourse.rx r) = length (SplineCourse.rk r) ->
  length (SplineCourse.rx r') = length (SplineCourse.ry r')
  /\ length (SplineCourse.rx r') = length (SplineCourse.ryaw r')
  /\ length (SplineCourse.rx r') = length (SplineCourse.rk r')
  /\ (length (SplineCourse.rx r) <= length (SplineCourse.rx r')
      <= length (SplineCourse.rx r) + n)%nat.
Proof.
  induction n as [|n IH]; intros spline2d ds s r r'; cbn [course_loop].
  - destruct (vec_back _) as [back|f]; [|discriminate]. cbn [bind].
    destruct (s <? back); [discriminate|]. intros [= <-]. intros. repeat split; auto; lia.
  - destruct (vec_back _) as [back|f]; [|discriminate]. cbn [bind].
    destruct (s <? back); [|intros [= <-]; intros; repeat split; auto; lia].
    destruct (calculatePosition _ _ _) as [state|f]; [|discriminate]. cbn [bind].
    destruct (calculateYaw _ _ _) as [yaw|f]; [|discriminate]. cbn [bind].
    destruct (calculateCurvature _ _ _) as [k|f]; [|discriminate]. cbn [bind].
    intros Hr H1 H2 H3. apply IH in Hr; cbn [SplineCourse.rx SplineCourse.ry
      SplineCourse.ryaw SplineCourse.rk] in *; rewrite ?length_app in *;
      cbn [length] in *; try lia.
Qed.

Lemma reference_ticks_below n : forall cubic_spline i s,
  reference_ticks n cubic_spline i = Ok s ->
  length s <= n
  /\ exists back, (s <> [] -> vec_back (Spline2D.s_ cubic_spline) = Ok back)
     /\ Forall (fun t => (t <? back) = true) s
     /\ (s <> [] -> hd 0 s = i).
Proof.
  induction n as [|n IH]; intros cubic_spline i s; cbn [reference_ticks].
  - destruct (vec_back _) as [back|f]; [|discriminate]. cbn [bind].
    destruct (i <? back); [discriminate|]. intros [= <-]. split; [cbn; lia|].
    exists back. split; [congruence|]. split; [constructor|congruence].
  - destruct (vec_back _) as [back|f] eqn:Hback; [|discriminate]. cbn [bind].
    destruct (i <? back) eqn:Hi.
    + destruct (reference_ticks n cubic_spline _) as [r|f] eqn:Hr; [|discriminate].
      cbn [bind]. intros [= <-]. apply IH in Hr. destruct Hr as (Hlen & back' & Hb & Hall & _).
      split; [cbn [length]; lia|]. exists back. split; [reflexivity|].
      split; [|reflexivity]. constructor; [exact Hi|].
      destruct r as [|t r]; [constructor|].
      assert (back' = back) by (specialize (Hb ltac:(discriminate)); congruence).
      now subst.
    + intros [= <-]. split; [cbn; lia|]. exists back.
      split; [congruence|]. split; [constructor|congruence].
Qed.

Lemma reference_path_shape E cubic_spline s : forall indices ref_path ref_path',
  reference_path E cubic_spline s indices ref_path = Ok ref_path' ->
  (length (Path.x ref_path') = length (Path.x ref_path) + length indices)%nat
  /\ (length (Path.y ref_path') = length (Path.y ref_path) + length indices)%nat
  /\ (length (Path.yaw ref_path') = length (Path.yaw ref_path) + length indices)%nat
  /\ Path.v ref_path' = Path.v ref_path.
Proof.
  induction indices as [|i indices IH]; intros ref_path ref_path'; cbn [reference_path].
  - intros [= <-]. cbn [length]. repeat split; lia.
  - destruct (vec_get s i) as [si|f]; [|discriminate]. cbn [bind].
    destruct (calculatePosition _ _ _) as [state|f]; [|discriminate]. cbn [bind].
    destruct (calculateYaw _ _ _) as [yaw|f]; [|discriminate]. cbn [bind].
    intros Hr. apply IH in Hr. cbn [Path.x Path.y Path.yaw Path.v] in Hr.
    rewrite !length_app in Hr. cbn [length] in *. repeat split; try lia. tauto.
Qed.

(** X20. The four vectors [calculateSplineCourse] returns have one length: each
    sample pushes a position, a yaw and a curvature. *)
Theorem calculateSplineCourse_shape E fuel ref_wps ds r :
  calculateSplineCourse E fuel ref_wps ds = Ok r ->
  length (SplineCourse.rx r) = length (SplineCourse.ry r)
  /\ length (SplineCourse.rx r) = length (SplineCourse.ryaw r)
  /\ length (SplineCourse.rx r) = length (SplineCourse.rk r).
Proof.
  unfold calculateSplineCourse.
  destruct (Spline2D_new E ref_wps) as [spline2d|f]; [|discriminate]. cbn [bind].
  intros Hr. apply course_loop_shape in Hr; cbn in *; tauto.
Qed.

(** X21. The reference path of [generateReferenceCurve] has one [x], [y] and
    [yaw] per sampled arc length and no speed; the arc lengths sampled
    start at [0] and are all below the length of the spline, so a lane
    whose spline has length [0] or NaN gives an empty path. *)
Theorem generateReferenceCurve_shape E fuel lane ref_path cubic_spline :
  generateReferenceCurve E fuel lane = Ok (ref_path, cubic_spline) ->
  Spline2D_new E lane = Ok cubic_spline
  /\ length (Path.x ref_path) = length (Path.y ref_path)
  /\ length (Path.x ref_path) = length (Path.yaw ref_path)
  /\ Path.v ref_path = []
  /\ exists back,
       vec_back (Spline2D.s_ cubic_spline) = Ok back
       /\ ((0 <? back) = false -> Path.x ref_path = [])
       /\ ((0 <? back) = true -> Path.x ref_path <> []).
Proof.
  unfold generateReferenceCurve.
  destruct (Spline2D_new E lane) as [sp|f]; [|discriminate]. cbn [bind].
  destruct (reference_ticks fuel sp 0) as [s|f] eqn:Hs; [|discriminate]. cbn [bind].
  destruct (reference_path E sp s _ _) as [p|f] eqn:Hp; [|discriminate]. cbn [bind].
  intros [= <- <-]. split; [reflexivity|].
  apply reference_path_shape in Hp. cbn [Path.x Path.y Path.yaw Path.v length] in Hp.
  destruct Hp as (Hx & Hy & Hyaw & Hv).
  split; [lia|]. split; [lia|]. split; [exact Hv|].
  unfold vec_size in Hx. rewrite int_range_length, Nat2Z.id in Hx.
  destruct fuel as [|n]; cbn [reference_ticks] in Hs;
    destruct (vec_back (Spline2D.s_ sp)) as [back|f]; try discriminate; cbn [bind] in Hs;
    exists back; (split; [reflexivity|]); destruct (0 <? back); try discriminate.
  - injection Hs as <-. split; [intros _|discriminate].
    destruct (Path.x p); [reflexivity|discriminate].
  - destruct (reference_ticks n sp _) as [r|f]; [|discriminate]. cbn [bind] in Hs.
    injection Hs as <-. split; [discriminate|]. intros _.
    destruct (Path.x p); [discriminate|discriminate].
  - injection Hs as <-. split; [intros _|discriminate].
    destruct (Path.x p); [reflexivity|discriminate].
Qed.

(** *** Worked cases *)

Lemma getTrajAndRealCost_cached_witness :
  getTrajAndRealCost Example.extern Scenario.settings 100 Scenario.start_left
    (snd Cases.costed) (1, 2, 2)%Z
  = Ok (fst Cases.costed, snd Cases.costed).
Proof.
  apply (getTrajAndRealCost_cached Example.extern Scenario.settings 100
           Scenario.start_left Scenario.search_left (1, 2, 2)%Z).
  vm_compute. reflexivity.
Defined.

Lemma findNextBest_step_witness :
  exists p',
    grid_get (Search.trajs Cases.stepped) (1, 2, 2)%Z = Ok p'
    /\ FrenetPath.is_used p' = true
    /\ one_step (1, 2, 2)%Z (2, 2, 2)%Z /\ (2, 2, 2)%Z <> (1, 2, 2)%Z
    /\ FrenetPath.is_generated p' = true.
Proof.
  apply (findNextBest_step Example.extern Scenario.settings 100 Scenario.start_left
           Scenario.search_left (1, 2, 2)%Z false Cases.stepped (2, 2, 2)%Z).
  vm_compute. reflexivity.
Defined.

Lemma frenetOptimalPlanning_search_bound_witness :
  (1 <= Planning.num_iter Scenario.planned_offset
   <= Z.of_nat (Z.to_nat (Setting.num_width Scenario.settings)
                * Z.to_nat (Setting.num_speed Scenario.settings)
                * Z.to_nat (Setting.num_t Scenario.settings)) + 1)%Z.
Proof.
  apply (frenetOptimalPlanning_search_bound Example.extern Scenario.settings 100 []
           Scenario.reference_offset Scenario.start_centre 0 1 (-1) 5 [] true false
           Scenario.planned_offset).
  vm_compute. reflexivity.
Defined.

Lemma frenetOptimalPlanning_counters_witness :
  (Planning.num_trajs_generated Cases.planned_unchecked + 0
   = Z.of_nat (length (Validation.popped (Planning.validation Cases.planned_unchecked)))
     + Z.of_nat (length (Validation.candidate_trajs_
                           (Planning.validation Cases.planned_unchecked))))%Z
  /\ Validation.num_trajs_validated (Planning.validation Cases.planned_unchecked)
     = Z.of_nat (length (Validation.popped (Planning.validation Cases.planned_unchecked)))
  /\ Validation.num_collision_checks (Planning.validation Cases.planned_unchecked) = 0%Z.
Proof.
  destruct (frenetOptimalPlanning_counters Example.extern Scenario.settings 100 []
              Scenario.reference_offset Scenario.start_centre 0 1 (-1) 5
              [Scenario.obstacle] false false Cases.planned_unchecked)
    as (Hqueue & Hvalidated & Hchecks).
  - vm_compute. reflexivity.
  - split; [exact Hqueue|]. split; [exact Hvalidated|exact (Hchecks eq_refl)].
Defined.

Lemma findNextBest_in_grid_witness :
  (exists converged search' idx',
     findNextBest Example.extern Scenario.settings 100 Scenario.start_left
       Scenario.search_left (1, 2, 2)%Z = Ok (converged, search', idx')
     /\ grid_shape (Search.trajs search') 3 3 3)
  \/ findNextBest Example.extern Scenario.settings 100 Scenario.start_left
       Scenario.search_left (1, 2, 2)%Z = Fault out_of_fuel.
Proof.
  apply (findNextBest_in_grid Example.extern Scenario.settings 100 Scenario.start_left
           3 3 3 Scenario.search_left (1, 2, 2)%Z).
  - vm_compute. repeat constructor.
  - vm_compute. repeat split; discriminate.
  - lia.
  - lia.
  - lia.
Defined.

Lemma getTrajAndRealCost_zero_tick_witness :
  getTrajAndRealCost Example.extern Cases.settings_zero_tick 100 Scenario.start_left
    Cases.search_zero_tick (1, 2, 2)%Z
  = Fault out_of_fuel.
Proof.
  apply (getTrajAndRealCost_zero_tick Example.extern Cases.settings_zero_tick 100
           Scenario.start_left Cases.search_zero_tick (1, 2, 2)%Z
           Cases.sampled_zero_tick).
  - reflexivity.
  - vm_compute. reflexivity.
  - vm_compute. reflexivity.
  - vm_compute. reflexivity.
Defined.

Lemma convertToGlobalFrame_shape_witness :
  (2 <= length (FrenetPath.x Cases.converted) <= length (FrenetPath.s Cases.generated))%nat
  /\ length (FrenetPath.y Cases.converted) = length (FrenetPath.x Cases.converted)
  /\ length (FrenetPath.yaw Cases.converted) = length (FrenetPath.x Cases.converted)
  /\ length (FrenetPath.ds Cases.converted) = length (FrenetPath.x Cases.converted)
  /\ length (FrenetPath.c Cases.converted)
     = (length (FrenetPath.x Cases.converted) - 1)%nat
  /\ FrenetPath.s Cases.converted = FrenetPath.s Cases.generated
  /\ FrenetPath.s_d Cases.converted = FrenetPath.s_d Cases.generated
  /\ FrenetPath.s_dd Cases.converted = FrenetPath.s_dd Cases.generated
  /\ FrenetPath.d Cases.converted = FrenetPath.d Cases.generated.
Proof.
  apply (convertToGlobalFrame_shape Example.extern Cases.generated Scenario.reference
           Cases.converted).
  - vm_compute. repeat split.
  - vm_compute. discriminate.
  - vm_compute. reflexivity.
Defined.

Lemma checkConstraints_after_conversion_witness :
  exists passed,
    checkConstraints Scenario.settings Cases.converted
    = Ok (passed, set_constraint_passed Cases.converted passed).
Proof.
  apply (checkConstraints_after_conversion Example.extern Scenario.settings
           Cases.generated Scenario.reference Cases.converted).
  - vm_compute. repeat split.
  - vm_compute. repeat split.
  - vm_compute. discriminate.
  - vm_compute. reflexivity.
Defined.

Lemma checkTrajCollision_count_witness :
  (1 <= 2 <= Z.of_nat (length [Scenario.obstacle] * length (FrenetPath.x Cases.ego_hit)))%Z.
Proof.
  apply (checkTrajCollision_count Example.extern Scenario.settings Cases.ego_hit
           [Cases.obstacle_path] [Scenario.obstacle] 0.5 0.25 false 2).
  vm_compute. reflexivity.
Defined.

Lemma checkCollisions_effect_witness :
  Cases.checked_hit = set_collision_passed Cases.ego_hit false
  /\ (10 < 12
      <= 10 + Z.of_nat (length [Scenario.obstacle] * length (FrenetPath.x Cases.ego_hit)))%Z
  /\ ([Scenario.obstacle] = [] -> false = true /\ 12%Z = 10%Z)
  /\ checkCollisions Example.extern Scenario.settings Cases.ego_hit
       [Cases.obstacle_path] [Scenario.obstacle] (negb true) 10
     = Ok (false, Cases.checked_hit, 12%Z).
Proof.
  apply (checkCollisions_effect Example.extern Scenario.settings Cases.ego_hit
           [Cases.obstacle_path] [Scenario.obstacle] true 10 false Cases.checked_hit 12).
  vm_compute. reflexivity.
Defined.

Lemma updateCount_valid_witness :
  exists r',
    updateCount Z Cases.elapsed_ms Cases.fresh_result Cases.record_numbers
      Cases.record_timestamps = Ok r'
    /\ TestResult_shape r'
    /\ TestResult.count r' = 1%Z
    /\ TestResult.numbers r' = Cases.record_numbers
    /\ nth 2 (TestResult.time_min r') nan = 100000
    /\ nth 2 (TestResult.time_max r') nan = 0.
Proof.
  destruct (updateCount_valid Z Cases.elapsed_ms Cases.fresh_result
              Cases.record_numbers Cases.record_timestamps)
    as (r' & Hr & Hshape & _ & Hcount & Hnumbers & _ & Hmin & Hmax).
  - vm_compute. repeat split. discriminate.
  - vm_compute. reflexivity.
  - vm_compute. split; reflexivity.
  - exists r'. split; [exact Hr|]. split; [exact Hshape|]. split; [exact Hcount|].
    split; [exact Hnumbers|]. split; [exact Hmin|exact Hmax].
Defined.

Lemma TestResult_total_time_untracked_witness :
  exists r,
    updateCounts Cases.elapsed_ms Cases.fresh_result
      [(Cases.record_numbers, Cases.record_timestamps); ([1%Z], [0%Z])] = Ok r
    /\ TestResult_shape r
    /\ (0 <= TestResult.count r <= 2)%Z
    /\ nth 2 (TestResult.time_min r) nan = 100000
    /\ nth 2 (TestResult.time_max r) nan = 0.
Proof.
  apply (TestResult_total_time_untracked Cases.elapsed_ms 2 Cases.fresh_result
           [(Cases.record_numbers, Cases.record_timestamps); ([1%Z], [0%Z])]).
  - reflexivity.
  - vm_compute. reflexivity.
Defined.

Lemma findBestPath_cheapest_witness :
  exists p,
    findBestPath (Z * double) fst snd (0%Z, 0) Cases.lane_paths 1 = Ok p
    /\ In p Cases.lane_paths /\ fst p = 1%Z
    /\ forall q, In q Cases.lane_paths -> fst q = 1%Z -> dle (snd p) (snd q).
Proof.
  apply (findBestPath_cheapest (Z * double) fst snd (0%Z, 0) 1 Cases.lane_paths (1%Z, 4)).
  - intros q [<-|[<-|[<-|[<-|[]]]]] _; reflexivity.
  - vm_compute. tauto.
  - reflexivity.
  - vm_compute. reflexivity.
Defined.

Lemma findBestPath_no_lane_witness :
  findBestPath (Z * double) fst snd (0%Z, 0) Cases.lane_paths 2
  = Ok (hd (0%Z, 0) Cases.lane_paths).
Proof.
  apply (findBestPath_no_lane (Z * double) fst snd (0%Z, 0) 2 Cases.lane_paths).
  intros q [<-|[<-|[<-|[<-|[]]]]]; discriminate.
Defined.

Lemma calculateSplineCourse_shape_witness :
  length (SplineCourse.rx Cases.course) = length (SplineCourse.ry Cases.course)
  /\ length (SplineCourse.rx Cases.course) = length (SplineCourse.ryaw Cases.course)
  /\ length (SplineCourse.rx Cases.course) = length (SplineCourse.rk Cases.course).
Proof.
  apply (calculateSplineCourse_shape Example.extern 1000 Scenario.waypoints 1).
  vm_compute. reflexivity.
Defined.

Lemma generateReferenceCurve_shape_witness :
  Spline2D_new Example.extern Scenario.waypoints = Ok Scenario.reference
  /\ length (Path.x Cases.reference_path) = length (Path.y Cases.reference_path)
  /\ length (Path.x Cases.reference_path) = length (Path.yaw Cases.reference_path)
  /\ Path.v Cases.reference_path = []
  /\ exists back,
       vec_back (Spline2D.s_ Scenario.reference) = Ok back
       /\ ((0 <? back) = false -> Path.x Cases.reference_path = [])
       /\ ((0 <? back) = true -> Path.x Cases.reference_path <> []).
Proof.
  apply (generateReferenceCurve_shape Example.extern 1000 Scenario.waypoints
           Cases.reference_path Scenario.reference).
  vm_compute. reflexivity.
Defined.

(** *** Inputs that are not refused *)













